(** * bibtex-to-manubot: identifier resolution, citation building,
      duplicate removal and ordering

    A shallow embedding of the core of [bibtex_to_manubot]
    ([utils.py], [models.py], [converter.py]) together with the
    properties stated about it.

    Conventions of the embedding.
    - A Python [str] is a [string]; the character type [ascii] stands for
      the code points 0..255 (Latin-1), on which [str.lower],
      [str.upper], [str.isdigit], [str.strip] and the regular-expression
      classes [\d], [\s], [\w] are given below as Python has them.  Text
      with a code point above 255 is outside the embedding.
    - [None] is [None]; a Python truthiness test [if x:] on an optional
      string is [truthy x] (present and not the empty string).
    - A Python [int] is a [Z].
    - Exceptions are explicit: a function that can raise returns a sum.
      Messages of exceptions and the limit on the digits [int] converts
      are those of CPython 3.11 with its default settings, where a C
      [int] has 32 bits and a C [long] 64. *)

From Stdlib Require Import Bool Arith ZArith List Ascii String Lia.
From Stdlib Require Import Permutation Sorted.
From Stdlib Require Import DecimalString.
Import ListNotations.

Open Scope string_scope.
Open Scope nat_scope.
Open Scope list_scope.

(* ================================================================== *)
(** ** Characters and strings *)
(* ================================================================== *)

Module Py.

Definition code (c : ascii) : nat := nat_of_ascii c.

Definition between (lo hi : nat) (c : ascii) : bool :=
  (lo <=? code c) && (code c <=? hi).

(** [\d]: the decimal digits, which below code point 256 are 0 to 9. *)
Definition is_digit (c : ascii) : bool := between 48 57 c.

(** The characters [str.isdigit] accepts: the decimal digits and the
    superscripts two, three (178, 179) and one (185). *)
Definition is_digit_like (c : ascii) : bool :=
  is_digit c || between 178 179 c || (code c =? 185).

(** [A-Z] and [a-z]. *)
Definition is_upper (c : ascii) : bool := between 65 90 c.
Definition is_lower (c : ascii) : bool := between 97 122 c.

(** The letters [str.lower] changes: A to Z and the capitals 192 to
    222 without the multiplication sign (215).  Each becomes the
    character 32 places up. *)
Definition has_lower_case (c : ascii) : bool :=
  is_upper c || between 192 214 c || between 216 222 c.

(** The letters whose capital is the character 32 places down: a to z
    and the small letters 224 to 254 without the division sign (247). *)
Definition has_upper_case (c : ascii) : bool :=
  is_lower c || between 224 246 c || between 248 254 c.

(** [str.isalnum] on one character: digits and letters, the ordinal
    indicators (170, 186), the superscripts (178, 179, 185), the micro
    sign (181), the fractions (188 to 190) and the letters from 192 on
    without the multiplication and division signs (215, 247). *)
Definition is_alnum (c : ascii) : bool :=
  is_digit c || is_upper c || is_lower c
  || (code c =? 170) || between 178 179 c || (code c =? 181)
  || between 185 186 c || between 188 190 c
  || between 192 214 c || between 216 246 c || between 248 255 c.

(** [\s], and what [str.strip()] and [str.split()] remove:
    tab, line feed, vertical tab, form feed, carriage return, the four
    separators FS, GS, RS, US, the space, the next-line character (133)
    and the no-break space (160). *)
Definition is_space (c : ascii) : bool :=
  between 9 13 c || between 28 31 c || (code c =? 32)
  || (code c =? 133) || (code c =? 160).

(** [\w]: what [str.isalnum] accepts, and the underscore. *)
Definition is_word (c : ascii) : bool :=
  is_alnum c || (code c =? 95).

Definition lower_char (c : ascii) : ascii :=
  if has_lower_case c then ascii_of_nat (code c + 32) else c.

(** The capital of one character, when it has one below code point
    256; this is the case mapping character classes use under
    IGNORECASE. *)
Definition upper_char (c : ascii) : ascii :=
  if has_upper_case c then ascii_of_nat (code c - 32) else c.

Fixpoint smap (f : ascii -> ascii) (s : string) : string :=
  match s with
  | EmptyString => EmptyString
  | String c s' => String (f c) (smap f s')
  end.

(** [s.lower()]. *)
Definition lower (s : string) : string := smap lower_char s.

(** What [str.upper] makes of one character: the sharp s (223) becomes
    SS.  The capitals of the micro sign (181) and of y with diaeresis
    (255) lie above code point 255; these two characters are kept.  (No
    test the program makes on upper-cased text tells them from their
    capitals.) *)
Definition upper_text (c : ascii) : string :=
  if code c =? 223 then "SS" else String (upper_char c) EmptyString.

(** [s.upper()]. *)
Fixpoint upper (s : string) : string :=
  match s with
  | EmptyString => EmptyString
  | String c s' => (upper_text c ++ upper s')%string
  end.

Fixpoint forallb_s (p : ascii -> bool) (s : string) : bool :=
  match s with
  | EmptyString => true
  | String c s' => p c && forallb_s p s'
  end.

Fixpoint existsb_s (p : ascii -> bool) (s : string) : bool :=
  match s with
  | EmptyString => false
  | String c s' => p c || existsb_s p s'
  end.

Definition is_empty (s : string) : bool :=
  match s with EmptyString => true | _ => false end.

(** [s.isdigit()]: at least one character, each a decimal digit or a
    superscript digit. *)
Definition isdigit (s : string) : bool :=
  negb (is_empty s) && forallb_s is_digit_like s.

Fixpoint lstrip (s : string) : string :=
  match s with
  | EmptyString => EmptyString
  | String c s' => if is_space c then lstrip s' else s
  end.

Fixpoint rstrip (s : string) : string :=
  match s with
  | EmptyString => EmptyString
  | String c s' =>
      let r := rstrip s' in
      if is_empty r && is_space c then EmptyString else String c r
  end.

(** [s.strip()]. *)
Definition strip (s : string) : string := rstrip (lstrip s).

(** [if x:] for an optional string. *)
Definition truthy (x : option string) : bool :=
  match x with
  | None => false
  | Some s => negb (is_empty s)
  end.

(** [c in s] for a one-character needle. *)
Definition contains_char (c : ascii) (s : string) : bool :=
  existsb_s (Ascii.eqb c) s.

(** [s.startswith(p)]. *)
Fixpoint startswith (p s : string) : bool :=
  match p, s with
  | EmptyString, _ => true
  | String a p', String b s' => Ascii.eqb a b && startswith p' s'
  | String _ _, EmptyString => false
  end.

(** [s[n:]] and [s[:n]] for a non-negative [n]. *)
Fixpoint drop (n : nat) (s : string) : string :=
  match n, s with
  | O, _ => s
  | S n', String _ s' => drop n' s'
  | S _, EmptyString => EmptyString
  end.

Fixpoint take (n : nat) (s : string) : string :=
  match n, s with
  | O, _ => EmptyString
  | S n', String c s' => String c (take n' s')
  | S _, EmptyString => EmptyString
  end.

(** [s[i]] when [i] is in range. *)
Definition char_at (i : nat) (s : string) : option ascii := String.get i s.

(** Equality of optional strings, as [==] on [dict.get] results. *)
Definition opt_eqb (a b : option string) : bool :=
  match a, b with
  | None, None => true
  | Some x, Some y => String.eqb x y
  | _, _ => false
  end.

End Py.

(* ================================================================== *)
(** ** Regular expressions as [re] runs them

    A backtracking matcher for the fragment of Python's [re] syntax the
    program uses: literals, character classes, greedy repetition of a
    class, optional groups, [^], [$], [\b] and one capturing group.
    Alternatives are tried in Python's order (a greedy repetition first
    takes as many characters as it can and gives them back one at a
    time), so the first match found is the one [re] reports. *)
(* ================================================================== *)

Module Re.
Import Py.

(** A character class: its members, and whether it is written negated
    ([[^...]]). *)
Record cclass : Type := { negated : bool; members : ascii -> bool }.

Definition cls (p : ascii -> bool) : cclass := {| negated := false; members := p |}.
Definition ncls (p : ascii -> bool) : cclass := {| negated := true; members := p |}.

Inductive regex : Type :=
| Eps
| Bol                                   (* ^ *)
| Eol                                   (* $ *)
| Wb                                    (* \b *)
| Lit (s : string)                      (* literal text *)
| Cls (p : cclass)                      (* one character of a class *)
| Rep (p : cclass) (lo : nat) (hi : option nat)
                                        (* class{lo,hi}; + is {1,}, * is {0,} *)
| Opt (r : regex)                       (* (?:r)? *)
| Cat (r1 r2 : regex)
| Grp (r : regex).                      (* (r), group 1 *)

Fixpoint seq (rs : list regex) : regex :=
  match rs with
  | [] => Eps
  | [r] => r
  | r :: rs' => Cat r (seq rs')
  end.

(** Flags: only [re.IGNORECASE] is used by the program. *)
Definition flags := bool.
Definition IGNORECASE : flags := true.
Definition NOFLAGS : flags := false.

(** Under IGNORECASE a character is in a class when it or its other
    case is a member; negation applies to the result. *)
Definition cls_ok (fl : flags) (p : cclass) (c : ascii) : bool :=
  xorb (negated p)
       (if fl
        then members p c || members p (lower_char c) || members p (upper_char c)
        else members p c).

Definition chr_ok (fl : flags) (a c : ascii) : bool :=
  if fl then Ascii.eqb (lower_char a) (lower_char c) else Ascii.eqb a c.

(** What a successful match reports: the text after the match and
    group 1 when it took part. *)
Definition outcome : Type := string * option string.

(** The matcher state: the character before the current position
    ([None] at the start of the subject), the text ahead, group 1. *)
Definition kont : Type := option ascii -> string -> option string -> option outcome.

Definition or_else (a : option outcome) (b : option outcome) : option outcome :=
  match a with Some _ => a | None => b end.

Fixpoint lit_go (fl : flags) (l : string) (prev : option ascii) (s : string)
    (cap : option string) (k : kont) : option outcome :=
  match l with
  | EmptyString => k prev s cap
  | String a l' =>
      match s with
      | String c s' => if chr_ok fl a c then lit_go fl l' (Some c) s' cap k else None
      | EmptyString => None
      end
  end.

Definition below (hi : option nat) (n : nat) : bool :=
  match hi with None => true | Some h => n <? h end.

Fixpoint rep_go (fl : flags) (p : cclass) (lo : nat) (hi : option nat)
    (n : nat) (prev : option ascii) (s : string) (cap : option string)
    (k : kont) : option outcome :=
  let stop := if lo <=? n then k prev s cap else None in
  match s with
  | String c s' =>
      if cls_ok fl p c && below hi n
      then or_else (rep_go fl p lo hi (S n) (Some c) s' cap k) stop
      else stop
  | EmptyString => stop
  end.

(** [$] without MULTILINE: the end of the subject, or just before a
    line feed that ends it. *)
Definition at_eol (s : string) : bool :=
  match s with
  | EmptyString => true
  | String c EmptyString => code c =? 10
  | _ => false
  end.

Definition word_before (prev : option ascii) : bool :=
  match prev with Some c => is_word c | None => false end.

Definition word_ahead (s : string) : bool :=
  match s with String c _ => is_word c | EmptyString => false end.

Fixpoint run (fl : flags) (r : regex) (prev : option ascii) (s : string)
    (cap : option string) (k : kont) : option outcome :=
  match r with
  | Eps => k prev s cap
  | Bol => match prev with None => k prev s cap | Some _ => None end
  | Eol => if at_eol s then k prev s cap else None
  | Wb => if xorb (word_before prev) (word_ahead s) then k prev s cap else None
  | Lit l => lit_go fl l prev s cap k
  | Cls p =>
      match s with
      | String c s' => if cls_ok fl p c then k (Some c) s' cap else None
      | EmptyString => None
      end
  | Rep p lo hi => rep_go fl p lo hi 0 prev s cap k
  | Opt r1 => or_else (run fl r1 prev s cap k) (k prev s cap)
  | Cat r1 r2 => run fl r1 prev s cap (fun prev' s' cap' => run fl r2 prev' s' cap' k)
  | Grp r1 =>
      run fl r1 prev s cap
        (fun prev' s' _ => k prev' s' (Some (take (String.length s - String.length s') s)))
  end.

(** A match attempted at the current position only. *)
Definition match_here (fl : flags) (r : regex) (prev : option ascii) (s : string)
  : option outcome :=
  run fl r prev s None (fun _ s' cap => Some (s', cap)).

(** [re.match(r, s, flags)]. *)
Definition re_match (r : regex) (s : string) (fl : flags) : option outcome :=
  match_here fl r None s.

Fixpoint search_go (fl : flags) (r : regex) (prev : option ascii) (s : string)
  : option outcome :=
  match match_here fl r prev s with
  | Some o => Some o
  | None =>
      match s with
      | String c s' => search_go fl r (Some c) s'
      | EmptyString => None
      end
  end.

(** [re.search(r, s, flags)]: the leftmost position with a match. *)
Definition search (r : regex) (s : string) (fl : flags) : option outcome :=
  search_go fl r None s.

(** [m.group(1)] of a match whose group took part. *)
Definition group1 (o : outcome) : string :=
  match snd o with Some g => g | None => EmptyString end.

(** Length of the match found at the current position. *)
Definition match_len (fl : flags) (r : regex) (prev : option ascii) (s : string)
  : option nat :=
  match match_here fl r prev s with
  | Some (rest, _) => Some (String.length s - String.length rest)
  | None => None
  end.

(** The scanning loop shared by [sub], [split] and [findall]: at each
    position either a non-empty match starts, and its [S n] characters
    are consumed, or the character belongs to the text between matches.
    (No pattern of the program matches the empty string.) *)

Fixpoint sub_go (fl : flags) (r : regex) (skip : nat) (prev : option ascii)
    (s : string) : string :=
  match s with
  | EmptyString => EmptyString
  | String c s' =>
      match skip with
      | S n => sub_go fl r n (Some c) s'
      | O =>
          match match_len fl r prev s with
          | Some (S n) => sub_go fl r n (Some c) s'
          | _ => String c (sub_go fl r 0 (Some c) s')
          end
      end
  end.

(** [re.sub(r, '', s)]. *)
Definition sub_empty (r : regex) (s : string) (fl : flags) : string :=
  sub_go fl r 0 None s.

Fixpoint rev_string (acc : list ascii) (s : string) : string :=
  match acc with
  | [] => s
  | c :: acc' => rev_string acc' (String c s)
  end.

Fixpoint split_go (fl : flags) (r : regex) (skip : nat) (prev : option ascii)
    (cur : list ascii) (s : string) : list string :=
  match s with
  | EmptyString => [rev_string cur EmptyString]
  | String c s' =>
      match skip with
      | S n => split_go fl r n (Some c) cur s'
      | O =>
          match match_len fl r prev s with
          | Some (S n) => rev_string cur EmptyString :: split_go fl r n (Some c) [] s'
          | _ => split_go fl r 0 (Some c) (c :: cur) s'
          end
      end
  end.

(** [re.split(r, s)] for a pattern without groups. *)
Definition split (r : regex) (s : string) (fl : flags) : list string :=
  split_go fl r 0 None [] s.

Fixpoint findall_go (fl : flags) (r : regex) (skip : nat) (prev : option ascii)
    (s : string) : list string :=
  match s with
  | EmptyString => []
  | String c s' =>
      match skip with
      | S n => findall_go fl r n (Some c) s'
      | O =>
          match match_len fl r prev s with
          | Some (S n) => take (S n) s :: findall_go fl r n (Some c) s'
          | _ => findall_go fl r 0 (Some c) s'
          end
      end
  end.

(** [re.findall(r, s)] for a pattern without groups. *)
Definition findall (r : regex) (s : string) (fl : flags) : list string :=
  findall_go fl r 0 None s.

(** Classes used by the patterns below. *)
Definition one_of (l : string) (c : ascii) : bool := contains_char c l.
Definition either (p q : ascii -> bool) (c : ascii) : bool := p c || q c.

Definition plus (p : cclass) : regex := Rep p 1 None.
Definition star (p : cclass) : regex := Rep p 0 None.
Definition count (p : cclass) (n : nat) : regex := Rep p n (Some n).
Definition at_least (p : cclass) (n : nat) : regex := Rep p n None.

End Re.

(* ================================================================== *)
(** ** utils.py *)
(* ================================================================== *)

Module Utils.
Import Py Re.

Definition d : cclass := cls is_digit.          (* \d *)
Definition ws : cclass := cls is_space.         (* \s *)

(** The loop [for pattern in patterns: m = re.search(...); if m: ...]
    shared by the extractors: [check] is the body run on [m.group(1)],
    returning the value to [return] or [None] to go on. *)
Fixpoint first_pattern (patterns : list regex) (subject : string) (fl : flags)
    (check : string -> option string) : option string :=
  match patterns with
  | [] => None
  | pattern :: rest =>
      match search pattern subject fl with
      | Some m =>
          match check (group1 m) with
          | Some v => Some v
          | None => first_pattern rest subject fl check
          end
      | None => first_pattern rest subject fl check
      end
  end.

(** *** DOI *)

(** [10\.\d+/[^\s,}]+] *)
Definition doi_body : regex :=
  seq [Lit "10."; plus d; Lit "/"; plus (ncls (either is_space (one_of ",}")))].

Definition doi_patterns : list regex :=
  [ seq [Lit "doi:"; star ws; Grp doi_body];
    seq [Lit "http"; Opt (Lit "s"); Lit "://"; Opt (Lit "dx."); Lit "doi.org/";
         Grp doi_body];
    seq [Bol; Grp doi_body; Eol];
    Grp doi_body ].

(** [[,;.\s]+$] *)
Definition trailing_punct : regex :=
  seq [plus (cls (either (one_of ",;.") is_space)); Eol].

(** [^10\.\d{4,}/[^\s]+$] *)
Definition doi_grammar : regex :=
  seq [Bol; Lit "10."; at_least d 4; Lit "/"; plus (ncls is_space); Eol].

Definition validate_doi (doi : string) : bool :=
  if is_empty doi then false
  else match re_match doi_grammar (strip doi) NOFLAGS with
       | Some _ => true
       | None => false
       end.

Definition extract_doi (text : string) : option string :=
  if is_empty text then None
  else first_pattern doi_patterns (strip text) IGNORECASE
         (fun g =>
            let doi := sub_empty trailing_punct g NOFLAGS in
            if validate_doi doi then Some doi else None).

(** *** PMID *)

Definition pmid_patterns : list regex :=
  [ seq [Lit "pmid"; Opt (Lit ":"); star ws; Grp (plus d)];
    seq [Lit "pubmed"; star ws; Lit "id"; Opt (Lit ":"); star ws; Grp (plus d)];
    seq [Lit "pubmed"; Opt (Lit ":"); star ws; Grp (plus d)];
    seq [Bol; Grp (Rep d 7 (Some 8)); Eol] ].

Definition extract_pmid (text : string) : option string :=
  if is_empty text then None
  else first_pattern pmid_patterns (strip text) IGNORECASE
         (fun pmid =>
            if isdigit pmid && (7 <=? String.length pmid) && (String.length pmid <=? 8)
            then Some pmid else None).

(** *** PMCID *)

Definition pmc_body : regex := seq [Lit "PMC"; plus d].

Definition pmcid_patterns : list regex :=
  [ seq [Lit "pmc"; Opt (Lit ":"); star ws; Grp pmc_body];
    seq [Lit "pmcid"; Opt (Lit ":"); star ws; Grp pmc_body];
    seq [Bol; Grp pmc_body; Eol];
    Grp pmc_body ].

Definition extract_pmcid (text : string) : option string :=
  if is_empty text then None
  else first_pattern pmcid_patterns (strip text) IGNORECASE
         (fun g =>
            let pmcid := upper g in
            if startswith "PMC" pmcid && isdigit (drop 3 pmcid)
            then Some pmcid else None).

(** *** arXiv *)

(** [[\d.]+v?\d*] *)
Definition arxiv_loose : regex :=
  seq [plus (cls (either is_digit (one_of "."))); Opt (Lit "v"); star d].

(** [\d{4}\.\d{4,5}(?:v\d+)?] *)
Definition arxiv_new : regex :=
  seq [count d 4; Lit "."; Rep d 4 (Some 5); Opt (seq [Lit "v"; plus d])].

(** [[a-z-]+(?:\.[A-Z]{2})?/\d{7}] *)
Definition arxiv_old : regex :=
  seq [plus (cls (either is_lower (one_of "-")));
       Opt (seq [Lit "."; count (cls is_upper) 2]);
       Lit "/"; count d 7].

Definition arxiv_patterns : list regex :=
  [ seq [Lit "arxiv:"; star ws; Grp arxiv_loose];
    seq [Lit "arXiv:"; star ws; Grp arxiv_loose];
    seq [Lit "http"; Opt (Lit "s"); Lit "://arxiv.org/abs/"; Grp arxiv_loose];
    seq [Bol; Grp arxiv_loose; Eol];
    Grp arxiv_new;
    Grp arxiv_old ].

Definition matches (r : regex) (s : string) : bool :=
  match re_match r s NOFLAGS with Some _ => true | None => false end.

Definition arxiv_valid (arxiv_id : string) : bool :=
  matches (seq [Bol; arxiv_new; Eol]) arxiv_id
  || matches (seq [Bol; arxiv_old; Eol]) arxiv_id.

Definition extract_arxiv_id (text : string) : option string :=
  if is_empty text then None
  else first_pattern arxiv_patterns (strip text) IGNORECASE
         (fun arxiv_id => if arxiv_valid arxiv_id then Some arxiv_id else None).

(** *** ISBN *)

Definition is_X (c : ascii) : bool := code c =? 88.

(** [[^\dX]] *)
Definition not_isbn_char : regex := Cls (ncls (either is_digit is_X)).

(** [\d{9}[\dX]] *)
Definition isbn10_body : regex := seq [count d 9; Cls (cls (either is_digit is_X))].

(** [978\d{10}] *)
Definition isbn13_body : regex := seq [Lit "978"; count d 10].

Definition isbn_patterns : list regex :=
  [ seq [Lit "isbn"; Opt (Lit ":"); star ws; Grp isbn13_body];
    seq [Lit "isbn"; Opt (Lit ":"); star ws; Grp isbn10_body];
    Grp isbn13_body;
    Grp isbn10_body ].

(** [s[i].isdigit() or s[i] == 'X'] *)
Definition digit_or_X_at (i : nat) (s : string) : bool :=
  match char_at i s with
  | Some c => is_digit_like c || is_X c
  | None => false
  end.

Definition extract_isbn (text : string) : option string :=
  if is_empty text then None
  else
    let clean_text := sub_empty not_isbn_char (upper text) NOFLAGS in
    if (String.length clean_text =? 13) && isdigit clean_text then Some clean_text
    else if (String.length clean_text =? 10)
            && (isdigit (take 9 clean_text) && digit_or_X_at 9 clean_text)
    then Some clean_text
    else first_pattern isbn_patterns text IGNORECASE (fun g => Some g).

(** *** Integers and their decimal text *)

Definition digit_val (c : ascii) : Z := Z.of_nat (code c - 48).

Fixpoint digits_value (acc : Z) (s : string) : Z :=
  match s with
  | EmptyString => acc
  | String c s' => digits_value (10 * acc + digit_val c)%Z s'
  end.

(** The value of a string of decimal digits. *)
Definition int_of_digits (s : string) : Z := digits_value 0%Z s.

(** [f"{n}"] for an [int]. *)
Definition str_of_int (n : Z) : string := NilZero.string_of_int (Z.to_int n).

(** [f"{n:02d}"] for a non-negative [int]. *)
Definition fmt_02d (n : Z) : string :=
  if (n <? 10)%Z then ("0" ++ str_of_int n)%string else str_of_int n.

(** *** Exceptions *)

Inductive exn : Type :=
| ValueError (msg : string)
| OverflowError (msg : string).

(** [str(e)] *)
Definition exn_text (e : exn) : string :=
  match e with
  | ValueError msg => msg
  | OverflowError msg => msg
  end.

(** [sys.get_int_max_str_digits()], by default. *)
Definition int_max_str_digits : nat := 4300.

(** The number of decimal digits a string starts with. *)
Fixpoint leading_digits (s : string) : nat :=
  match s with
  | EmptyString => 0
  | String c s' => if is_digit c then S (leading_digits s') else 0
  end.

Definition too_many_digits (n : nat) : exn :=
  ValueError
    ("Exceeds the limit (4300 digits) for integer string conversion: value has "
     ++ str_of_int (Z.of_nat n)
     ++ " digits; use sys.set_int_max_str_digits() to increase the limit").

(** [int(s)] for a string [s] that passed [s.isdigit()], so made of
    decimal and superscript digits only: its value when all its
    characters are decimal digits, at most 4300 of them; [ValueError]
    otherwise, for the digit count when the string starts with more
    than 4300 decimal digits, else for the literal. *)
Definition int_of_isdigit (s : string) : Z + exn :=
  if int_max_str_digits <? leading_digits s then inr (too_many_digits (leading_digits s))
  else if forallb_s is_digit s then inl (int_of_digits s)
  else inr (ValueError ("invalid literal for int() with base 10: '" ++ s ++ "'")).

(** *** Publication dates *)

Definition month_mapping : list (string * string) :=
  [ ("january", "01"); ("jan", "01");
    ("february", "02"); ("feb", "02");
    ("march", "03"); ("mar", "03");
    ("april", "04"); ("apr", "04");
    ("may", "05");
    ("june", "06"); ("jun", "06");
    ("july", "07"); ("jul", "07");
    ("august", "08"); ("aug", "08");
    ("september", "09"); ("sep", "09"); ("sept", "09");
    ("october", "10"); ("oct", "10");
    ("november", "11"); ("nov", "11");
    ("december", "12"); ("dec", "12") ].

(** Lookup in a dict literal (its keys are distinct). *)
Fixpoint lookup (k : string) (m : list (string * string)) : option string :=
  match m with
  | [] => None
  | (k', v) :: m' => if String.eqb k' k then Some v else lookup k m'
  end.

Definition default_month : string := "06".
Definition default_day : string := "15".

(** The month step: [inr] is the [ValueError] of [int(month)], which
    is called outside the [try]. *)
Definition parse_month (month : option string) : string + exn :=
  if truthy month then
    match month with
    | Some m =>
        let month := lower (strip m) in
        match lookup month month_mapping with
        | Some month_num => inl month_num
        | None =>
            if isdigit month then
              match int_of_isdigit month with
              | inl n =>
                  if ((1 <=? n) && (n <=? 12))%Z then inl (fmt_02d n)
                  else inl default_month
              | inr e => inr e
              end
            else inl default_month
        end
    | None => inl default_month
    end
  else inl default_month.

(** The day step, with the [ValueError] of [int(day)]. *)
Definition parse_day (day : option string) : string + exn :=
  if truthy day then
    match day with
    | Some d0 =>
        let day := strip d0 in
        if isdigit day then
          match int_of_isdigit day with
          | inl n =>
              if ((1 <=? n) && (n <=? 31))%Z then inl (fmt_02d n)
              else inl default_day
          | inr e => inr e
          end
        else inl default_day
    | None => inl default_day
    end
  else inl default_day.

Definition is_leap (y : Z) : bool :=
  ((y mod 4 =? 0) && (negb (y mod 100 =? 0) || (y mod 400 =? 0)))%Z.

Definition days_in_month (y m : Z) : Z :=
  (if m =? 2 then (if is_leap y then 29 else 28)
   else if (m =? 4) || (m =? 6) || (m =? 9) || (m =? 11) then 30
   else 31)%Z.

(** The check made by the constructor [datetime(year, month, day)], by
    its documented contract: [true] when the date is built, [false]
    when [ValueError] is raised (year outside MINYEAR..MAXYEAR, month
    outside 1..12, or day outside the month). *)
Definition datetime_ok (year month day : Z) : bool :=
  ((1 <=? year) && (year <=? 9999)
   && (1 <=? month) && (month <=? 12)
   && (1 <=? day) && (day <=? days_in_month year month))%Z.

(** Whether a Python [int] fits a C [int], and a C [long]. *)
Definition fits_c_int (n : Z) : bool :=
  ((- 2 ^ 31 <=? n) && (n <? 2 ^ 31))%Z.

Definition fits_c_long (n : Z) : bool :=
  ((- 2 ^ 63 <=? n) && (n <? 2 ^ 63))%Z.

(** [datetime(year, month, day)] for a month from 1 to 12 and a day
    from 1 to 31: [inl tt] when the date is built.  The arguments are
    first converted to C [int]s, which raises [OverflowError] for a
    year that does not fit; then the check above is made. *)
Definition datetime (year month day : Z) : unit + exn :=
  if negb (fits_c_long year)
  then inr (OverflowError "Python int too large to convert to C long")
  else if negb (fits_c_int year)
  then inr (OverflowError (if (year <? 0)%Z
                           then "signed integer is less than minimum"
                           else "signed integer is greater than maximum"))
  else if datetime_ok year month day then inl tt
  else if ((1 <=? year) && (year <=? 9999))%Z
  then inr (ValueError "day is out of range for month")
  else inr (ValueError ("year " ++ str_of_int year ++ " is out of range")).

Definition mem_str (x : string) (l : list string) : bool :=
  existsb (String.eqb x) l.

Definition date_text (year : Z) (month_num day_num : string) : string :=
  (str_of_int year ++ "-" ++ month_num ++ "-" ++ day_num)%string.

(** [generate_publication_date]: [inl] is the value returned, [inr]
    the exception that leaves the function.  The month and the day are
    read before the [try]; inside it only [ValueError] is caught. *)
Definition generate_publication_date (year : option Z) (month day : option string)
  : option string + exn :=
  match year with
  | None => inl None
  | Some y =>
      if (y =? 0)%Z then inl None
      else
        match parse_month month with
        | inr e => inr e
        | inl month_num =>
            match parse_day day with
            | inr e => inr e
            | inl day_num =>
                match datetime y (int_of_digits month_num) (int_of_digits day_num) with
                | inl _ => inl (Some (date_text y month_num day_num))
                | inr (ValueError _) =>
                    let day_num :=
                      if mem_str month_num ["02"] then "28"
                      else if mem_str month_num ["04"; "06"; "09"; "11"] then "30"
                      else "31" in
                    inl (Some (date_text y month_num day_num))
                | inr e => inr e
                end
            end
        end
  end.

End Utils.

(* ================================================================== *)
(** ** models.py *)
(* ================================================================== *)

Module Models.
Import Py Re Utils.

Inductive CitationType : Type :=
| DOI | PMID | PMCID | ARXIV | ISBN | URL | WIKIDATA | RAW.

(** [citation_type.value] *)
Definition value (t : CitationType) : string :=
  match t with
  | DOI => "doi"
  | PMID => "pmid"
  | PMCID => "pmcid"
  | ARXIV => "arxiv"
  | ISBN => "isbn"
  | URL => "url"
  | WIKIDATA => "wikidata"
  | RAW => "raw"
  end.

(** *** Python's [int(s)] on text

    Surrounding white space is dropped (tab to carriage return, the
    space, the next-line character and the no-break space; the
    separators FS to US are not white space here), one sign is allowed,
    and the decimal digits may be separated by single underscores.  A
    literal of more than 4300 digits is refused.  [None] stands for
    [ValueError]. *)

Definition int_space (c : ascii) : bool :=
  between 9 13 c || (code c =? 32) || (code c =? 133) || (code c =? 160).

Fixpoint int_lstrip (s : string) : string :=
  match s with
  | EmptyString => EmptyString
  | String c s' => if int_space c then int_lstrip s' else s
  end.

Fixpoint int_rstrip (s : string) : string :=
  match s with
  | EmptyString => EmptyString
  | String c s' =>
      let r := int_rstrip s' in
      if is_empty r && int_space c then EmptyString else String c r
  end.

(** The digits of the literal: the value read and the number of
    digits, underscores not counted. *)
Fixpoint int_digits (acc : Z) (count : nat) (after_digit : bool) (s : string)
  : option (Z * nat) :=
  match s with
  | EmptyString => if after_digit then Some (acc, count) else None
  | String c s' =>
      if is_digit c then int_digits (10 * acc + digit_val c)%Z (S count) true s'
      else if (code c =? 95) && after_digit then int_digits acc count false s'
      else None
  end.

Definition within_limit (r : option (Z * nat)) : option Z :=
  match r with
  | Some (z, n) => if n <=? int_max_str_digits then Some z else None
  | None => None
  end.

Definition py_int (s : string) : option Z :=
  match int_rstrip (int_lstrip s) with
  | EmptyString => None
  | String c body =>
      if Ascii.eqb c "+" then within_limit (int_digits 0%Z 0 false body)
      else if Ascii.eqb c "-"
      then option_map Z.opp (within_limit (int_digits 0%Z 0 false body))
      else within_limit (int_digits 0%Z 0 false (String c body))
  end.

(** *** Field dictionaries

    A [Dict[str, str]] is the list of its items in insertion order. *)

Definition fields_t : Type := list (string * string).

(** [{k.lower(): v for k, v in fields.items()}]: the items with their
    keys lower-cased; a later item replaces an earlier one with the
    same key, so [get] returns the value of the last match. *)
Definition lower_keys (fields : fields_t) : fields_t :=
  map (fun kv => (lower (fst kv), snd kv)) fields.

Fixpoint get (k : string) (items : fields_t) : option string :=
  match items with
  | [] => None
  | (k', v) :: rest =>
      match get k rest with
      | Some v' => Some v'
      | None => if String.eqb k' k then Some v else None
      end
  end.

(** [a or b] on optional strings. *)
Definition py_or (a b : option string) : option string :=
  if truthy a then a else b.

(** [s.split(',', 1)] for a string that contains a comma: the text
    before the first comma and the text after it. *)
Fixpoint split_comma (s : string) : string * string :=
  match s with
  | EmptyString => (EmptyString, EmptyString)
  | String c s' =>
      if Ascii.eqb c "," then (EmptyString, s')
      else let (a, b) := split_comma s' in (String c a, b)
  end.

(** [\s+and\s+] *)
Definition and_separator : regex := seq [plus ws; Lit "and"; plus ws].

(** The body of the loop of [_parse_authors] for one segment: the name
    to append, if any. *)
Definition clean_author (author : string) : option string :=
  let author := strip author in
  if is_empty author then None
  else if contains_char "," author then
    let (last, first) := split_comma author in
    Some (strip first ++ " " ++ strip last)%string
  else Some author.

Fixpoint clean_authors_loop (authors : list string) (cleaned_authors : list string)
  : list string :=
  match authors with
  | [] => cleaned_authors
  | author :: rest =>
      match clean_author author with
      | Some a => clean_authors_loop rest (cleaned_authors ++ [a])
      | None => clean_authors_loop rest cleaned_authors
      end
  end.

Definition _parse_authors (author_string : string) : list string :=
  let authors := split and_separator author_string NOFLAGS in
  clean_authors_loop authors [].

Module BibTeXEntry.
Record t : Type := mk {
  key : string;
  entry_type : string;
  fields : fields_t;
  title : option string;
  authors : option (list string);
  journal : option string;
  booktitle : option string;
  year : option Z;
  volume : option string;
  number : option string;
  pages : option string;
  publisher : option string;
  doi : option string;
  pmid : option string;
  pmcid : option string;
  arxiv : option string;
  isbn : option string;
  url : option string;
  month : option string;
  day : option string
}.
End BibTeXEntry.

(** [self.year] after [_extract_common_fields]: left at [None] when the
    field is missing or [int] raises. *)
Definition parse_year (fields : fields_t) : option Z :=
  match get "year" fields with
  | Some y => py_int y
  | None => None
  end.

(** [BibTeXEntry(key=..., entry_type=..., fields=...)]: the constructor
    followed by [_extract_common_fields]. *)
Definition new_entry (key entry_type : string) (raw_fields : fields_t) : BibTeXEntry.t :=
  let fields := lower_keys raw_fields in
  {| BibTeXEntry.key := key;
     BibTeXEntry.entry_type := entry_type;
     BibTeXEntry.fields := raw_fields;
     BibTeXEntry.title := get "title" fields;
     BibTeXEntry.authors := option_map _parse_authors (get "author" fields);
     BibTeXEntry.journal := get "journal" fields;
     BibTeXEntry.booktitle := get "booktitle" fields;
     BibTeXEntry.year := parse_year fields;
     BibTeXEntry.volume := get "volume" fields;
     BibTeXEntry.number := get "number" fields;
     BibTeXEntry.pages := get "pages" fields;
     BibTeXEntry.publisher := get "publisher" fields;
     BibTeXEntry.doi := get "doi" fields;
     BibTeXEntry.pmid := get "pmid" fields;
     BibTeXEntry.pmcid := get "pmcid" fields;
     BibTeXEntry.arxiv := py_or (get "arxiv" fields) (get "eprint" fields);
     BibTeXEntry.isbn := get "isbn" fields;
     BibTeXEntry.url := get "url" fields;
     BibTeXEntry.month := get "month" fields;
     BibTeXEntry.day := get "day" fields |}.

Module ManubotCitation.
Record t : Type := mk {
  id : string;
  citation_type : CitationType;
  identifier : string;
  title : option string;
  authors : option (list string);
  journal : option string;
  year : option Z;
  date : option string;
  volume : option string;
  issue : option string;
  pages : option string;
  publisher : option string;
  link : option string;
  original_key : option string;
  bibtex_type : option string
}.
End ManubotCitation.

(** The [@validator('id')]: the error raised, if any. *)
Definition validate_manubot_id (v : string) : option string :=
  if negb (contains_char ":" v)
  then Some "Manubot ID must contain a colon separator"
  else None.

(** Building a [ManubotCitation] runs the validator: [inr] carries the
    message of the validation error. *)
Definition new_citation (c : ManubotCitation.t) : ManubotCitation.t + string :=
  match validate_manubot_id (ManubotCitation.id c) with
  | Some err => inr err
  | None => inl c
  end.

(** The dictionaries [to_dict] produces: a key that is absent is [None]. *)
Module CitationDict.
Record t : Type := mk {
  id : option string;
  type : option string;
  title : option string;
  authors : option (list string);
  publisher : option string;
  year : option Z;
  date : option string;
  link : option string
}.
End CitationDict.

Definition keep_if {A : Type} (cond : bool) (x : option A) : option A :=
  if cond then x else None.

Definition nonempty_list {A : Type} (x : option (list A)) : bool :=
  match x with
  | Some (_ :: _) => true
  | _ => false
  end.

(** [if x:] for an optional [int]. *)
Definition nonzero (x : option Z) : bool :=
  match x with
  | Some z => negb (z =? 0)%Z
  | None => false
  end.

Definition to_dict (self : ManubotCitation.t) (include_metadata : bool) : CitationDict.t :=
  {| CitationDict.id := Some (ManubotCitation.id self);
     CitationDict.type := Some (value (ManubotCitation.citation_type self));
     CitationDict.title :=
       keep_if (include_metadata && truthy (ManubotCitation.title self))
               (ManubotCitation.title self);
     CitationDict.authors :=
       keep_if (include_metadata && nonempty_list (ManubotCitation.authors self))
               (ManubotCitation.authors self);
     CitationDict.publisher :=
       keep_if (include_metadata && truthy (ManubotCitation.journal self))
               (ManubotCitation.journal self);
     CitationDict.year :=
       keep_if (include_metadata && nonzero (ManubotCitation.year self))
               (ManubotCitation.year self);
     CitationDict.date :=
       keep_if (include_metadata && truthy (ManubotCitation.date self))
               (ManubotCitation.date self);
     CitationDict.link :=
       keep_if (include_metadata && truthy (ManubotCitation.link self))
               (ManubotCitation.link self) |}.

Module ConversionResult.
Record t : Type := mk {
  original_key : string;
  success : bool;
  manubot_citation : option ManubotCitation.t;
  errors : list string;
  warnings : list string
}.
End ConversionResult.

(** [ConversionResult(original_key=k)] *)
Definition new_result (k : string) : ConversionResult.t :=
  {| ConversionResult.original_key := k;
     ConversionResult.success := false;
     ConversionResult.manubot_citation := None;
     ConversionResult.errors := [];
     ConversionResult.warnings := [] |}.

End Models.

(* ================================================================== *)
(** ** converter.py *)
(* ================================================================== *)

Module Converter.
Import Py Re Utils Models.

(** *** Title overlap and duplicate removal *)

(** [\b\w+\b] *)
Definition word_pattern : regex := seq [Wb; plus (cls is_word); Wb].

(** [re.findall(r'\b\w+\b', title.lower())] *)
Definition title_words (title : string) : list string :=
  findall word_pattern (lower title) NOFLAGS.

(** The [while] loop of [_find_title_overlap] started at [words1[i:]]
    and [words2[j:]]: the number of leading positions on which the two
    lists agree. *)
Fixpoint run_length (w1 w2 : list string) : nat :=
  match w1, w2 with
  | a :: w1', b :: w2' => if String.eqb a b then S (run_length w1' w2') else 0
  | _, _ => 0
  end.

(** [for j in range(len(words2))] for a fixed [i]. *)
Definition overlap_inner (words1 words2 : list string) (i : nat) (max_overlap : nat) : nat :=
  fold_left
    (fun max_overlap j =>
       Nat.max max_overlap (run_length (skipn i words1) (skipn j words2)))
    (List.seq 0 (List.length words2)) max_overlap.

(** [for i in range(len(words1))]. *)
Definition overlap_outer (words1 words2 : list string) : nat :=
  fold_left
    (fun max_overlap i => overlap_inner words1 words2 i max_overlap)
    (List.seq 0 (List.length words1)) 0.

Definition _find_title_overlap (title1 title2 : string) : nat :=
  if is_empty title1 || is_empty title2 then 0
  else overlap_outer (title_words title1) (title_words title2).

Definition is_CoRR (c : CitationDict.t) : bool :=
  opt_eqb (CitationDict.publisher c) (Some "CoRR").

(** [c.get('title', '')] *)
Definition title_of (c : CitationDict.t) : string :=
  match CitationDict.title c with
  | Some t => t
  | None => EmptyString
  end.

(** One line group printed when a duplicate is found. *)
Record removal : Type := mk_removal {
  removed_id : option string;
  arxiv_title : string;
  published_title : string;
  overlap_words : nat
}.

(** The inner loop over [non_arxiv_papers] for one arXiv paper:
    [Some] is the [break], with the paper that triggered it and the
    overlap found; [None] means the loop ran to its end. *)
Fixpoint scan_published (arxiv_title : string) (min_overlap : Z)
    (non_arxiv_papers : list CitationDict.t) : option (CitationDict.t * nat) :=
  match non_arxiv_papers with
  | [] => None
  | non_arxiv_paper :: rest =>
      let non_arxiv_title := title_of non_arxiv_paper in
      if is_empty non_arxiv_title then scan_published arxiv_title min_overlap rest
      else
        let overlap := _find_title_overlap arxiv_title non_arxiv_title in
        if (min_overlap <=? Z.of_nat overlap)%Z then Some (non_arxiv_paper, overlap)
        else scan_published arxiv_title min_overlap rest
  end.

(** The outer loop: the state is the set [arxiv_to_remove] (as the
    list of ids added, most recent first) and the lines printed. *)
Fixpoint mark_loop (arxiv_papers non_arxiv_papers : list CitationDict.t)
    (min_overlap : Z) (st : list (option string) * list removal)
  : list (option string) * list removal :=
  match arxiv_papers with
  | [] => st
  | arxiv_paper :: rest =>
      let arxiv_title := title_of arxiv_paper in
      if is_empty arxiv_title then mark_loop rest non_arxiv_papers min_overlap st
      else
        match scan_published arxiv_title min_overlap non_arxiv_papers with
        | Some (non_arxiv_paper, overlap) =>
            mark_loop rest non_arxiv_papers min_overlap
              (CitationDict.id arxiv_paper :: fst st,
               snd st ++ [mk_removal (CitationDict.id arxiv_paper) arxiv_title
                                     (title_of non_arxiv_paper) overlap])
        | None => mark_loop rest non_arxiv_papers min_overlap st
        end
  end.

(** Whether the iteration of the outer loop for [arxiv_paper] reaches
    [arxiv_to_remove.add]. *)
Definition marked (non_arxiv_papers : list CitationDict.t) (min_overlap : Z)
    (arxiv_paper : CitationDict.t) : bool :=
  negb (is_empty (title_of arxiv_paper))
  && match scan_published (title_of arxiv_paper) min_overlap non_arxiv_papers with
     | Some _ => true
     | None => false
     end.

Definition arxiv_papers_of (citations : list CitationDict.t) : list CitationDict.t :=
  filter is_CoRR citations.

Definition non_arxiv_papers_of (citations : list CitationDict.t) : list CitationDict.t :=
  filter (fun c => negb (is_CoRR c)) citations.

Definition arxiv_to_remove (citations : list CitationDict.t) (min_overlap : Z)
  : list (option string) :=
  fst (mark_loop (arxiv_papers_of citations) (non_arxiv_papers_of citations)
                 min_overlap ([], [])).

Definition removal_log (citations : list CitationDict.t) (min_overlap : Z)
  : list removal :=
  snd (mark_loop (arxiv_papers_of citations) (non_arxiv_papers_of citations)
                 min_overlap ([], [])).

(** [x in arxiv_to_remove] *)
Definition in_set (x : option string) (set : list (option string)) : bool :=
  existsb (opt_eqb x) set.

Definition _remove_arxiv_duplicates (citations : list CitationDict.t) (min_overlap : Z)
  : list CitationDict.t :=
  let to_remove := arxiv_to_remove citations min_overlap in
  filter (fun c => negb (in_set (CitationDict.id c) to_remove)) citations.

(** The default [min_overlap=6]. *)
Definition default_min_overlap : Z := 6%Z.

(** *** Sorting *)

(** The key of [save_yaml]'s sort:
    [(-(x.get('year', 0) or 0), x.get('title', '').lower())]. *)
Definition year_or_0 (c : CitationDict.t) : Z :=
  match CitationDict.year c with
  | Some y => y
  | None => 0%Z
  end.

Definition sort_key (x : CitationDict.t) : Z * string :=
  ((- year_or_0 x)%Z, lower (title_of x)).

(** Tuple comparison [a <= b]: first components, then strings by code
    point. *)
Definition key_leb (a b : Z * string) : bool :=
  (fst a <? fst b)%Z || ((fst a =? fst b)%Z && String.leb (snd a) (snd b)).

(** [list.sort(key=...)] is a stable sort; it is modelled by the stable
    insertion sort, which returns the same list as any stable sort. *)
Fixpoint insert_by {A : Type} (key : A -> Z * string) (x : A) (l : list A) : list A :=
  match l with
  | [] => [x]
  | y :: l' => if key_leb (key x) (key y) then x :: l else y :: insert_by key x l'
  end.

Definition sort_by {A : Type} (key : A -> Z * string) (l : list A) : list A :=
  fold_right (insert_by key) [] l.

(** *** Validation of the written citations *)

Record validation_result : Type := mk_validation {
  valid : bool;
  v_errors : list string;
  v_warnings : list string;
  citation_count : nat;
  citation_types : list (string * nat)
}.

Fixpoint bump (k : string) (counts : list (string * nat)) : list (string * nat) :=
  match counts with
  | [] => [(k, 1)]
  | (k', n) :: rest => if String.eqb k' k then (k', S n) :: rest else (k', n) :: bump k rest
  end.

Definition str_or_empty (x : option string) : string :=
  match x with Some s => s | None => EmptyString end.

Definition citation_label (i : nat) : string :=
  ("Citation " ++ str_of_int (Z.of_nat (i + 1)))%string.

(** The body of the loop of [validate_manubot_format] for citation
    number [i]. *)
Definition validate_one (i : nat) (citation : CitationDict.t) (r : validation_result)
  : validation_result :=
  let citation_id := str_or_empty (CitationDict.id citation) in
  let citation_type := str_or_empty (CitationDict.type citation) in
  let types := if is_empty citation_type then citation_types r
               else bump citation_type (citation_types r) in
  let '(valid1, errors1) :=
    if is_empty citation_id
    then (false, v_errors r ++ [(citation_label i ++ ": Missing 'id' field")%string])
    else if negb (contains_char ":" citation_id)
    then (false, v_errors r ++
                 [(citation_label i ++ ": Invalid ID format '" ++ citation_id ++ "'")%string])
    else (valid r, v_errors r) in
  let '(valid2, errors2) :=
    if is_empty citation_type
    then (false, errors1 ++ [(citation_label i ++ ": Missing 'type' field")%string])
    else (valid1, errors1) in
  let w1 := if truthy (CitationDict.title citation) then v_warnings r
            else v_warnings r ++ [(citation_label i ++ ": Missing title")%string] in
  let w2 := if nonempty_list (CitationDict.authors citation) then w1
            else w1 ++ [(citation_label i ++ ": Missing authors")%string] in
  let w3 := if nonzero (CitationDict.year citation) then w2
            else w2 ++ [(citation_label i ++ ": Missing year")%string] in
  mk_validation valid2 errors2 w3 (citation_count r) types.

Fixpoint validate_loop (i : nat) (citations : list CitationDict.t) (r : validation_result)
  : validation_result :=
  match citations with
  | [] => r
  | citation :: rest => validate_loop (S i) rest (validate_one i citation r)
  end.

(** [validate_manubot_format] on the list of citations read back. *)
Definition validate_citations (citations : list CitationDict.t) : validation_result :=
  validate_loop 0 citations
    (mk_validation true [] [] (List.length citations) []).

(** *** Conversion *)

(** The priority used when the configuration gives none. *)
Definition default_citation_priority : list string :=
  ["doi"; "pmid"; "pmcid"; "arxiv"; "isbn"; "url"].

Section WithEnvironment.

(** [clean_bibtex_field] only rewrites the text of the title, journal
    and publisher; nothing below depends on how. *)
Variable clean_bibtex_field : string -> string.

(** [urllib.parse.urlparse]: the scheme and the network location, or
    [None] when it raises. *)
Variable urlparse : string -> option (string * string).

(** [self.citation_priority] *)
Variable citation_priority : list string.

Definition validate_url (url : string) : bool :=
  if is_empty url then false
  else match urlparse (strip url) with
       | Some (scheme, netloc) =>
           (String.eqb scheme "http" || String.eqb scheme "https")
           && negb (is_empty netloc)
       | None => false
       end.

(** The body of the loop of [_extract_best_identifier] for one
    [identifier_type]: [Some] is the [return]. *)
Definition try_identifier (entry : BibTeXEntry.t) (identifier_type : string)
  : option (CitationType * string) :=
  if String.eqb identifier_type "doi" && truthy (BibTeXEntry.doi entry) then
    match extract_doi (str_or_empty (BibTeXEntry.doi entry)) with
    | Some clean_doi => if is_empty clean_doi then None else Some (DOI, clean_doi)
    | None => None
    end
  else if String.eqb identifier_type "pmid" && truthy (BibTeXEntry.pmid entry) then
    match extract_pmid (str_or_empty (BibTeXEntry.pmid entry)) with
    | Some clean_pmid => if is_empty clean_pmid then None else Some (PMID, clean_pmid)
    | None => None
    end
  else if String.eqb identifier_type "pmcid" && truthy (BibTeXEntry.pmcid entry) then
    match extract_pmcid (str_or_empty (BibTeXEntry.pmcid entry)) with
    | Some clean_pmcid => if is_empty clean_pmcid then None else Some (PMCID, clean_pmcid)
    | None => None
    end
  else if String.eqb identifier_type "arxiv" && truthy (BibTeXEntry.arxiv entry) then
    match extract_arxiv_id (str_or_empty (BibTeXEntry.arxiv entry)) with
    | Some clean_arxiv => if is_empty clean_arxiv then None else Some (ARXIV, clean_arxiv)
    | None => None
    end
  else if String.eqb identifier_type "isbn" && truthy (BibTeXEntry.isbn entry) then
    match extract_isbn (str_or_empty (BibTeXEntry.isbn entry)) with
    | Some clean_isbn => if is_empty clean_isbn then None else Some (ISBN, clean_isbn)
    | None => None
    end
  else if String.eqb identifier_type "url" && truthy (BibTeXEntry.url entry) then
    if validate_url (str_or_empty (BibTeXEntry.url entry))
    then Some (URL, str_or_empty (BibTeXEntry.url entry))
    else None
  else None.

Fixpoint priority_loop (entry : BibTeXEntry.t) (priority : list string)
  : option (CitationType * string) :=
  match priority with
  | [] => None
  | identifier_type :: rest =>
      match try_identifier entry identifier_type with
      | Some found => Some found
      | None => priority_loop entry rest
      end
  end.

(** The result is the pair [(citation_type, identifier)]; [(None, None)]
    when nothing was found. *)
Definition _extract_best_identifier (entry : BibTeXEntry.t)
  : option CitationType * option string :=
  match priority_loop entry citation_priority with
  | Some (t, v) => (Some t, Some v)
  | None =>
      if is_empty (BibTeXEntry.key entry) then (None, None)
      else (Some RAW, Some (BibTeXEntry.key entry))
  end.

Definition with_errors (r : ConversionResult.t) (errs : list string) : ConversionResult.t :=
  {| ConversionResult.original_key := ConversionResult.original_key r;
     ConversionResult.success := ConversionResult.success r;
     ConversionResult.manubot_citation := ConversionResult.manubot_citation r;
     ConversionResult.errors := ConversionResult.errors r ++ errs;
     ConversionResult.warnings := ConversionResult.warnings r |}.

Definition clean_opt (x : option string) : option string :=
  if truthy x then option_map clean_bibtex_field x else None.

Definition journal_or_conference (entry : BibTeXEntry.t) : option string :=
  if truthy (BibTeXEntry.journal entry)
  then option_map clean_bibtex_field (BibTeXEntry.journal entry)
  else if truthy (BibTeXEntry.booktitle entry)
  then option_map clean_bibtex_field (BibTeXEntry.booktitle entry)
  else None.

Definition entry_warnings (entry : BibTeXEntry.t) : list string :=
  (if truthy (BibTeXEntry.title entry) then [] else ["No title found"])
  ++ (if nonempty_list (BibTeXEntry.authors entry) then [] else ["No authors found"])
  ++ (if nonzero (BibTeXEntry.year entry) then [] else ["No publication year found"]).

(** What [str(e)] gives for the validation error a [ManubotCitation]
    raises. *)
Definition validation_error_text (msg : string) : string :=
  ("1 validation error for ManubotCitation" ++ String (ascii_of_nat 10) "id"
   ++ String (ascii_of_nat 10) "  " ++ msg ++ " (type=value_error)")%string.

Definition convert_entry (entry : BibTeXEntry.t) : ConversionResult.t :=
  let result := new_result (BibTeXEntry.key entry) in
  match _extract_best_identifier entry with
  | (_, None) => with_errors result ["No valid identifier found"]
  | (citation_type, Some identifier) =>
      if is_empty identifier then with_errors result ["No valid identifier found"]
      else
        match citation_type with
        | None =>
            with_errors result
              ["Conversion error: 'NoneType' object has no attribute 'value'"]
        | Some citation_type =>
            let manubot_id := (value citation_type ++ ":" ++ identifier)%string in
            match generate_publication_date (BibTeXEntry.year entry)
                    (BibTeXEntry.month entry) (BibTeXEntry.day entry) with
            | inr e =>
                with_errors result [("Conversion error: " ++ exn_text e)%string]
            | inl publication_date =>
            match new_citation
                    {| ManubotCitation.id := manubot_id;
                       ManubotCitation.citation_type := citation_type;
                       ManubotCitation.identifier := identifier;
                       ManubotCitation.title := clean_opt (BibTeXEntry.title entry);
                       ManubotCitation.authors := BibTeXEntry.authors entry;
                       ManubotCitation.journal := journal_or_conference entry;
                       ManubotCitation.year := BibTeXEntry.year entry;
                       ManubotCitation.date := publication_date;
                       ManubotCitation.volume := BibTeXEntry.volume entry;
                       ManubotCitation.issue := BibTeXEntry.number entry;
                       ManubotCitation.pages := BibTeXEntry.pages entry;
                       ManubotCitation.publisher := clean_opt (BibTeXEntry.publisher entry);
                       ManubotCitation.link := BibTeXEntry.url entry;
                       ManubotCitation.original_key := Some (BibTeXEntry.key entry);
                       ManubotCitation.bibtex_type := Some (BibTeXEntry.entry_type entry) |}
            with
            | inl manubot_citation =>
                {| ConversionResult.original_key := BibTeXEntry.key entry;
                   ConversionResult.success := true;
                   ConversionResult.manubot_citation := Some manubot_citation;
                   ConversionResult.errors := [];
                   ConversionResult.warnings := entry_warnings entry |}
            | inr msg =>
                with_errors result
                  [("Conversion error: " ++ validation_error_text msg)%string]
            end
            end
        end
  end.

(** [batch_convert].  Reading a file is done outside: an input is a
    path with what [parse_bibtex_file] gave for it, the entries or the
    text of the exception raised. *)
Definition parsed_file : Type := string * (list BibTeXEntry.t + string).

Definition failed_file (file_path err : string) : ConversionResult.t :=
  {| ConversionResult.original_key := ("FILE:" ++ file_path)%string;
     ConversionResult.success := false;
     ConversionResult.manubot_citation := None;
     ConversionResult.errors := [("Failed to parse file: " ++ err)%string];
     ConversionResult.warnings := [] |}.

(** The first loop: [all_entries] holds parsed entries and, for a file
    that could not be parsed, a failed result. *)
Fixpoint parse_loop (input_paths : list parsed_file)
    (all_entries : list (BibTeXEntry.t + ConversionResult.t))
  : list (BibTeXEntry.t + ConversionResult.t) :=
  match input_paths with
  | [] => all_entries
  | (file_path, inl entries) :: rest =>
      parse_loop rest (all_entries ++ map inl entries)
  | (file_path, inr err) :: rest =>
      parse_loop rest (all_entries ++ [inr (failed_file file_path err)])
  end.

(** The second loop. *)
Fixpoint convert_loop (all_entries : list (BibTeXEntry.t + ConversionResult.t))
    (conversion_results : list ConversionResult.t) : list ConversionResult.t :=
  match all_entries with
  | [] => conversion_results
  | inl entry :: rest => convert_loop rest (conversion_results ++ [convert_entry entry])
  | inr failed :: rest => convert_loop rest (conversion_results ++ [failed])
  end.

Record BatchConversionResult : Type := mk_batch {
  input_files : list string;
  total_entries : nat;
  successful_conversions : nat;
  failed_conversions : nat;
  conversions : list ConversionResult.t
}.

Definition batch_convert (input_paths : list parsed_file) : BatchConversionResult :=
  let all_entries := parse_loop input_paths [] in
  let conversion_results := convert_loop all_entries [] in
  let successful :=
    List.length (filter ConversionResult.success conversion_results) in
  {| input_files := map fst input_paths;
     total_entries := List.length conversion_results;
     successful_conversions := successful;
     failed_conversions := List.length conversion_results - successful;
     conversions := conversion_results |}.

End WithEnvironment.

(** The first loop of [save_yaml]. *)
Fixpoint successful_loop (include_metadata : bool) (conversions : list ConversionResult.t)
    (successful_citations : list CitationDict.t) : list CitationDict.t :=
  match conversions with
  | [] => successful_citations
  | result :: rest =>
      match ConversionResult.success result, ConversionResult.manubot_citation result with
      | true, Some c =>
          successful_loop include_metadata rest
            (successful_citations ++ [to_dict c include_metadata])
      | _, _ => successful_loop include_metadata rest successful_citations
      end
  end.

(** [save_yaml] up to the point where the file is written: the
    citations in the order they are written. *)
Definition save_yaml (include_metadata : bool) (conversions : list ConversionResult.t)
  : list CitationDict.t :=
  let successful_citations := successful_loop include_metadata conversions [] in
  let successful_citations :=
    _remove_arxiv_duplicates successful_citations default_min_overlap in
  sort_by sort_key successful_citations.

End Converter.

(* ================================================================== *)
(** ** Sample data *)
(* ================================================================== *)

Module Samples.
Import Py Re Utils Models Converter.

Definition paper (id title publisher : string) (year : option Z) : CitationDict.t :=
  {| CitationDict.id := Some id;
     CitationDict.type := Some "doi";
     CitationDict.title := Some title;
     CitationDict.authors := None;
     CitationDict.publisher := Some publisher;
     CitationDict.year := year;
     CitationDict.date := None;
     CitationDict.link := None |}.

Definition preprint5 : CitationDict.t :=
  paper "arxiv:2001.00001" "Deep Learning for Graph Neural Networks" "CoRR" (Some 2020%Z).
Definition published5 : CitationDict.t :=
  paper "doi:10.1234/gnn" "Deep Learning for Graph Neural Network Applications"
        "NeurIPS" (Some 2021%Z).
Definition preprint6 : CitationDict.t :=
  paper "arxiv:2001.00001" "Scalable Deep Learning for Graph Neural Networks" "CoRR"
        (Some 2020%Z).
Definition published6 : CitationDict.t :=
  paper "doi:10.1234/gnn" "Scalable Deep Learning for Graph Neural Network Applications"
        "NeurIPS" (Some 2021%Z).

(** Two letters above code point 127: [É] (201) and [é] (233). *)
Definition E_acute : ascii := ascii_of_nat 201.
Definition e_acute : ascii := ascii_of_nat 233.

(** The titles of a preprint and of its published version, which differ
    in case and in punctuation only: ["SCALABLE Deep-Learning: for
    ÉCOLE Graph_Net DATA"] and ["scalable deep learning for école
    graph_net data, revisited"]. *)
Definition preprint_caps : CitationDict.t :=
  paper "arxiv:2001.00002"
        ("SCALABLE Deep-Learning: for " ++ String E_acute "COLE Graph_Net DATA")
        "CoRR" (Some 2020%Z).
Definition published_caps : CitationDict.t :=
  paper "doi:10.1234/caps"
        ("scalable deep learning for " ++ String e_acute "cole graph_net data, revisited")
        "NeurIPS" (Some 2021%Z).

(** The environment the samples are run in: titles that need no
    cleaning, and URLs of the plain form [scheme://netloc/path]. *)
Definition clean_bibtex_field (field : string) : string := field.

Fixpoint until (stop : ascii) (s : string) : string :=
  match s with
  | EmptyString => EmptyString
  | String c s' => if Ascii.eqb c stop then EmptyString else String c (until stop s')
  end.

Definition urlparse (url : string) : option (string * string) :=
  let scheme := until ":" url in
  let rest := drop (String.length scheme + 1) url in
  if startswith "//" rest
  then Some (lower scheme, until "/" (drop 2 rest))
  else Some (EmptyString, EmptyString).

(** A record with a valid DOI and a valid PMID. *)
Definition both_ids : BibTeXEntry.t :=
  new_entry "smith2020" "article"
    [("title", "Test Paper"); ("doi", "10.1234/example"); ("pmid", "12345678")].

(** A record without identifiers whose key contains colons, as the keys
    of DBLP exports do. *)
Definition dblp_keyed : BibTeXEntry.t :=
  new_entry "DBLP:conf/nips/Smith17" "inproceedings"
    [("title", "Test Paper"); ("year", "2017")].

(** A record with neither identifiers nor a key. *)
Definition keyless : BibTeXEntry.t :=
  new_entry "" "misc" [("title", "Test Paper")].

(** A citation as [to_dict] writes it, with the given optional year
    and title. *)
Definition entry_of (year : option Z) (title : option string) : CitationDict.t :=
  {| CitationDict.id := Some "raw:k";
     CitationDict.type := Some "raw";
     CitationDict.title := title;
     CitationDict.authors := None;
     CitationDict.publisher := None;
     CitationDict.year := year;
     CitationDict.date := None;
     CitationDict.link := None |}.

(** A published entry that carries the id of [preprint6]. *)
Definition clash6 : CitationDict.t :=
  paper "arxiv:2001.00001" "An Unrelated Survey" "Nature" (Some 2019%Z).

End Samples.

(* ================================================================== *)
(** ** Notions the properties are stated with *)
(* ================================================================== *)

Module Spec.
Import Py Re Utils Models Converter.

(** *** Titles as word lists, in the words of the description

    A title is normalized to lower-case word tokens: the maximal runs
    of word characters (letters, digits, underscore) of the lower-cased
    title; every other character separates. *)

(** The word collected so far (most recent character first), if any. *)
Definition token_of (cur : list ascii) : list string :=
  match cur with
  | [] => []
  | _ :: _ => [rev_string cur EmptyString]
  end.

Fixpoint word_tokens_from (cur : list ascii) (s : string) : list string :=
  match s with
  | EmptyString => token_of cur
  | String c s' =>
      if is_word c then word_tokens_from (c :: cur) s'
      else token_of cur ++ word_tokens_from [] s'
  end.

Definition word_tokens (s : string) : list string := word_tokens_from [] s.

(** The number of word characters a string starts with. *)
Fixpoint word_run (s : string) : nat :=
  match s with
  | String c s' => if is_word c then S (word_run s') else 0
  | EmptyString => 0
  end.

Definition normalized_words (title : string) : list string :=
  word_tokens (lower title).

(** Two word lists share a run of [k] identical consecutive words. *)
Definition shares_run (w1 w2 : list string) (k : nat) : Prop :=
  exists i j,
    i + k <= List.length w1 /\ j + k <= List.length w2 /\
    firstn k (skipn i w1) = firstn k (skipn j w2).

(** [n] is the length of the longest run two word lists share. *)
Definition longest_run (w1 w2 : list string) (n : nat) : Prop :=
  shares_run w1 w2 n /\ forall k, shares_run w1 w2 k -> k <= n.

(** The number of colons in an id. *)
Fixpoint count_colons (s : string) : nat :=
  match s with
  | EmptyString => 0
  | String c s' => (if Ascii.eqb c ":" then 1 else 0) + count_colons s'
  end.

(** The text of an id before its first colon. *)
Fixpoint before_colon (s : string) : string :=
  match s with
  | EmptyString => EmptyString
  | String c s' => if Ascii.eqb c ":" then EmptyString else String c (before_colon s')
  end.

(** The family names a priority list may use. *)
Definition known_families : list string :=
  ["doi"; "pmid"; "pmcid"; "arxiv"; "isbn"; "url"].

(** The raw candidate [cand] is non-empty and [extract] returns the
    non-empty value [v] for it. *)
Definition candidate_yields (cand : option string) (extract : string -> option string)
    (v : string) : Prop :=
  exists raw, cand = Some raw /\ is_empty raw = false /\
              extract raw = Some v /\ is_empty v = false.

(** Equality of sort keys. *)
Definition key_eqb (a b : Z * string) : bool :=
  (fst a =? fst b)%Z && String.eqb (snd a) (snd b).

(** The order the sort establishes between two elements. *)
Definition key_le {A : Type} (key : A -> Z * string) (x y : A) : Prop :=
  key_leb (key x) (key y) = true.

(** In [l] no entry with a year follows an entry without one. *)
Definition absent_years_last (l : list CitationDict.t) : Prop :=
  forall l1 a l2 b l3,
    l = l1 ++ a :: l2 ++ b :: l3 ->
    CitationDict.year a = None -> CitationDict.year b = None.

(** In [l] no entry with a positive year follows an entry without a
    year. *)
Definition absent_years_after_positive (l : list CitationDict.t) : Prop :=
  forall l1 a l2 b l3,
    l = l1 ++ a :: l2 ++ b :: l3 ->
    CitationDict.year a = None -> (year_or_0 b <= 0)%Z.

(** A written citation with a non-empty id that contains a colon and
    a non-empty type. *)
Definition well_formed (d : CitationDict.t) : Prop :=
  exists i t,
    CitationDict.id d = Some i /\ is_empty i = false /\ 1 <= count_colons i /\
    CitationDict.type d = Some t /\ is_empty t = false.

(** *** Identifier grammars *)

(** A non-empty string of decimal digits (0 to 9). *)
Definition all_decimal (s : string) : bool :=
  negb (is_empty s) && forallb_s is_digit s.

(** The character at position [i] is a decimal digit or [X]. *)
Definition decimal_or_X_at (i : nat) (s : string) : bool :=
  match char_at i s with
  | Some c => is_digit c || is_X c
  | None => false
  end.

(** An ISBN: 13 digits, or 9 digits followed by a digit or [X]. *)
Definition isbn_grammar (v : string) : bool :=
  ((String.length v =? 13) && all_decimal v)
  || ((String.length v =? 10) && all_decimal (take 9 v) && decimal_or_X_at 9 v).

(** A PMID: 7 or 8 digits. *)
Definition pmid_grammar (v : string) : bool :=
  all_decimal v && (7 <=? String.length v) && (String.length v <=? 8).

(** A PMCID: [PMC] followed by digits. *)
Definition pmcid_grammar (v : string) : bool :=
  startswith "PMC" v && all_decimal (drop 3 v).

(** *** Years *)

(** The entry [e] with its year replaced. *)
Definition with_year (e : BibTeXEntry.t) (y : option Z) : BibTeXEntry.t :=
  {| BibTeXEntry.key := BibTeXEntry.key e;
     BibTeXEntry.entry_type := BibTeXEntry.entry_type e;
     BibTeXEntry.fields := BibTeXEntry.fields e;
     BibTeXEntry.title := BibTeXEntry.title e;
     BibTeXEntry.authors := BibTeXEntry.authors e;
     BibTeXEntry.journal := BibTeXEntry.journal e;
     BibTeXEntry.booktitle := BibTeXEntry.booktitle e;
     BibTeXEntry.year := y;
     BibTeXEntry.volume := BibTeXEntry.volume e;
     BibTeXEntry.number := BibTeXEntry.number e;
     BibTeXEntry.pages := BibTeXEntry.pages e;
     BibTeXEntry.publisher := BibTeXEntry.publisher e;
     BibTeXEntry.doi := BibTeXEntry.doi e;
     BibTeXEntry.pmid := BibTeXEntry.pmid e;
     BibTeXEntry.pmcid := BibTeXEntry.pmcid e;
     BibTeXEntry.arxiv := BibTeXEntry.arxiv e;
     BibTeXEntry.isbn := BibTeXEntry.isbn e;
     BibTeXEntry.url := BibTeXEntry.url e;
     BibTeXEntry.month := BibTeXEntry.month e;
     BibTeXEntry.day := BibTeXEntry.day e |}.

(** Groups of decimal digits joined by single underscores: the text,
    and the digits it holds. *)
Inductive digit_groups : string -> string -> Prop :=
| one_group (d : string) :
    all_decimal d = true -> digit_groups d d
| more_groups (d rest digits : string) :
    all_decimal d = true -> digit_groups rest digits ->
    digit_groups (d ++ "_" ++ rest) (d ++ digits).

(** The sign of a literal: none, plus or minus. *)
Inductive sign_of : string -> bool -> Prop :=
| no_sign : sign_of "" false
| plus_sign : sign_of "+" false
| minus_sign : sign_of "-" true.

(** What [int] accepts, with the value it gives: white space, an
    optional sign, groups of decimal digits joined by single
    underscores, white space; at most 4300 digits. *)
Definition int_literal (s : string) (z : Z) : Prop :=
  exists before sign body after digits negative,
    s = (before ++ sign ++ body ++ after)%string
    /\ forallb_s int_space before = true /\ forallb_s int_space after = true
    /\ sign_of sign negative
    /\ digit_groups body digits
    /\ String.length digits <= int_max_str_digits
    /\ z = (if negative then - int_of_digits digits else int_of_digits digits)%Z.

(** The year an entry built from a single [year] field gets. *)
Definition year_of_field (y : string) : option Z :=
  BibTeXEntry.year (new_entry "key" "article" [("year", y)]).

(** *** Author lists *)

(** A separator of the author string: white space, the lower-case word
    [and], white space. *)
Definition is_and_separator (sep : string) : Prop :=
  exists w1 w2,
    sep = (w1 ++ "and" ++ w2)%string /\ is_empty w1 = false /\ is_empty w2 = false /\
    forallb_s is_space w1 = true /\ forallb_s is_space w2 = true.

(** The segments put back together with the separators between them. *)
Fixpoint join_with (segs seps : list string) : string :=
  match segs, seps with
  | seg :: segs', sep :: seps' => (seg ++ sep ++ join_with segs' seps')%string
  | seg :: _, [] => seg
  | [], _ => EmptyString
  end.

(** No separator occurs inside [seg]. *)
Definition separator_free (seg : string) : Prop :=
  forall a sep b, seg = (a ++ sep ++ b)%string -> ~ is_and_separator sep.

(** While a segment is collected in [cur] (most recent character
    first): no suffix of it starts a separator in the text that
    follows. *)
Definition collecting (cur : list ascii) (ahead : string) : Prop :=
  forall a t, rev_string cur "" = (a ++ t)%string -> is_empty t = false ->
  forall sep b, (t ++ ahead)%string = (sep ++ b)%string -> ~ is_and_separator sep.

(** An author list that is non-empty and has no blank name. *)
Definition no_blank_names (names : list string) : Prop :=
  names <> [] /\ Forall (fun name => is_empty (strip name) = false) names.

(** The names a list of segments contributes. *)
Definition names_of (segments : list string) : list string :=
  flat_map (fun seg => match clean_author seg with
                       | Some a => [a]
                       | None => []
                       end) segments.

(** *** Publication dates, in the words of the description *)

(** A numeric string: decimal digits, at most the 4300 [int]
    converts. *)
Definition numeral (s : string) : bool :=
  all_decimal s && (String.length s <=? int_max_str_digits).



(** A leap year: divisible by 4 and not by 100, or divisible by 400. *)
Definition leap_year (y : Z) : Prop :=
  ((y mod 4 = 0 /\ y mod 100 <> 0) \/ y mod 400 = 0)%Z.

(** The day [d] exists in month [m] of year [y]. *)
Definition calendar_day (y m d : Z) : Prop :=
  (1 <= d)%Z /\
  ((In m [1; 3; 5; 7; 8; 10; 12]%Z /\ (d <= 31)%Z)
   \/ (In m [4; 6; 9; 11]%Z /\ (d <= 30)%Z)
   \/ (m = 2%Z /\ ((d <= 28)%Z \/ (d = 29%Z /\ leap_year y)))).

(** The month names accepted, with the month they denote: the full
    names and the three-letter names (and ["sept"], which the table of
    the program also lists). *)
Definition month_names : list (string * Z) :=
  [ ("january", 1); ("jan", 1); ("february", 2); ("feb", 2);
    ("march", 3); ("mar", 3); ("april", 4); ("apr", 4); ("may", 5);
    ("june", 6); ("jun", 6); ("july", 7); ("jul", 7);
    ("august", 8); ("aug", 8); ("september", 9); ("sep", 9); ("sept", 9);
    ("october", 10); ("oct", 10); ("november", 11); ("nov", 11);
    ("december", 12); ("dec", 12) ]%Z.

(** The month field reads as month [k]: a month name in any case, or a
    numeric string between 1 and 12 (surrounding white space is
    ignored). *)
Definition month_reads (month : option string) (k : Z) : Prop :=
  exists s, month = Some s /\
    (In (lower (strip s), k) month_names
     \/ (numeral (lower (strip s)) = true
         /\ (1 <= int_of_digits (lower (strip s)) <= 12)%Z
         /\ k = int_of_digits (lower (strip s)))).

(** The month used: the one read, or June when the field is absent or
    cannot be read. *)
Definition month_used (month : option string) (k : Z) : Prop :=
  month_reads month k \/ ((forall k', ~ month_reads month k') /\ k = 6%Z).

(** The day field reads as day [j]: a numeric string between 1 and 31. *)
Definition day_reads (day : option string) (j : Z) : Prop :=
  exists s, day = Some s /\
    numeral (strip s) = true /\ (1 <= int_of_digits (strip s) <= 31)%Z
    /\ j = int_of_digits (strip s).

(** The day used: the one read, or the 15th. *)
Definition day_used (day : option string) (j : Z) : Prop :=
  day_reads day j \/ ((forall j', ~ day_reads day j') /\ j = 15%Z).

(** The day a date that is not accepted is clamped to. *)
Definition last_day (month : Z) : Z :=
  (if month =? 2 then 28
   else if (month =? 4) || (month =? 6) || (month =? 9) || (month =? 11) then 30
   else 31)%Z.

(** What the [url] step of the resolver accepts. *)
Definition url_check (urlparse : string -> option (string * string)) (url : string)
  : option string :=
  if validate_url urlparse url then Some url else None.

(** A published (non-arXiv) citation with a non-blank title whose title
    shares a run of at least [min_overlap] words with [arxiv_title]. *)
Definition qualifies (arxiv_title : string) (min_overlap : Z) (p : CitationDict.t) : Prop :=
  is_CoRR p = false /\ is_empty (title_of p) = false /\
  exists k, (min_overlap <= Z.of_nat k)%Z /\
            shares_run (normalized_words arxiv_title)
                       (normalized_words (title_of p)) k.

End Spec.

(* ================================================================== *)
(** ** More of utils.py, models.py and config.py *)
(* ================================================================== *)

Module More.
Import Py Re Utils Models Converter.

(** *** Strings *)

(** [s.split()]: the maximal runs of characters that are not white
    space. *)
Fixpoint split_ws_go (cur : list ascii) (s : string) : list string :=
  match s with
  | EmptyString =>
      match cur with
      | [] => []
      | _ :: _ => [rev_string cur EmptyString]
      end
  | String c s' =>
      if is_space c then
        match cur with
        | [] => split_ws_go [] s'
        | _ :: _ => rev_string cur EmptyString :: split_ws_go [] s'
        end
      else split_ws_go (c :: cur) s'
  end.

Definition split_ws (s : string) : list string := split_ws_go [] s.

(** [' '.join(s.split())] *)
Definition squeeze (s : string) : string := String.concat " " (split_ws s).

(** [s.split(sep)] for a one-character separator: every occurrence
    cuts, empty pieces are kept. *)
Fixpoint split_on_go (sep : ascii) (cur : list ascii) (s : string) : list string :=
  match s with
  | EmptyString => [rev_string cur EmptyString]
  | String c s' =>
      if Ascii.eqb c sep then rev_string cur EmptyString :: split_on_go sep [] s'
      else split_on_go sep (c :: cur) s'
  end.

Definition split_on (sep : ascii) (s : string) : list string := split_on_go sep [] s.

(** [re.sub(r, repl, s)] for a pattern that cannot match the empty
    string and a replacement without group references. *)
Fixpoint sub_with_go (fl : flags) (r : regex) (repl : string) (skip : nat)
    (prev : option ascii) (s : string) : string :=
  match s with
  | EmptyString => EmptyString
  | String c s' =>
      match skip with
      | S n => sub_with_go fl r repl n (Some c) s'
      | O =>
          match match_len fl r prev s with
          | Some (S n) => (repl ++ sub_with_go fl r repl n (Some c) s')%string
          | _ => String c (sub_with_go fl r repl 0 (Some c) s')
          end
      end
  end.

Definition sub_with (r : regex) (repl s : string) (fl : flags) : string :=
  sub_with_go fl r repl 0 None s.

(** *** utils.py: author names *)

Definition suffixes : list string :=
  ["Jr."; "Sr."; "III"; "II"; "IV"; "V"; "Ph.D."; "Dr."; "Prof."].

(** [\s+<suffix>\s*$], the suffix escaped. *)
Definition suffix_pattern (suffix : string) : regex :=
  seq [plus ws; Lit suffix; star ws; Eol].

(** The loop over [suffixes]. *)
Fixpoint strip_suffixes (suffixes : list string) (author : string) : string :=
  match suffixes with
  | [] => author
  | suffix :: rest =>
      strip_suffixes rest (sub_empty (suffix_pattern suffix) author IGNORECASE)
  end.

(** The "Last, First Middle" step. *)
Definition reorder_name (author : string) : string :=
  if contains_char "," author then
    let (p0, p1) := split_comma author in
    let last := strip p0 in
    let first := strip p1 in
    if negb (is_empty first) && negb (is_empty last)
    then (first ++ " " ++ last)%string
    else author
  else author.

(** The body of the loop of [normalize_author_names] for one name: the
    name to append, if any. *)
Definition normalize_one (author : string) : option string :=
  let author := strip author in
  if is_empty author then None
  else
    let author := reorder_name author in
    let author := strip_suffixes suffixes author in
    let author := squeeze author in
    if is_empty author then None else Some author.

Fixpoint normalize_loop (authors : list string) (normalized : list string) : list string :=
  match authors with
  | [] => normalized
  | author :: rest =>
      match normalize_one author with
      | Some a => normalize_loop rest (normalized ++ [a])
      | None => normalize_loop rest normalized
      end
  end.

Definition normalize_author_names (authors : list string) : list string :=
  normalize_loop authors [].

(** *** utils.py: pages *)

Definition hyphen : cclass := cls (one_of "-").

(** [--+] *)
Definition double_hyphen : regex := seq [Lit "-"; plus hyphen].

(** [\s*-\s*] *)
Definition spaced_hyphen : regex := seq [star ws; Lit "-"; star ws].

Definition format_pages (pages_str : string) : option string :=
  if is_empty pages_str then None
  else
    let pages := strip pages_str in
    let pages := sub_with double_hyphen "-" pages NOFLAGS in
    let pages := sub_with spaced_hyphen "-" pages NOFLAGS in
    if is_empty pages then None else Some pages.

(** *** utils.py: Manubot ids *)

(** [create_manubot_id] *)
Definition create_manubot_id (citation_type identifier : string) : string :=
  (lower citation_type ++ ":" ++ identifier)%string.

(** [s.split(':', 1)] for a string that contains a colon. *)
Fixpoint split_colon (s : string) : string * string :=
  match s with
  | EmptyString => (EmptyString, EmptyString)
  | String c s' =>
      if Ascii.eqb c ":" then (EmptyString, s')
      else let (a, b) := split_colon s' in (String c a, b)
  end.

Section WithUrlparse.

Variable urlparse : string -> option (string * string).

(** [validate_manubot_id] of utils.py.  The arXiv pattern is the
    alternation of the anchored new-style and old-style patterns, which
    matches when one of the two does. *)
Definition validate_manubot_id (manubot_id : string) : bool :=
  if is_empty manubot_id || negb (contains_char ":" manubot_id) then false
  else
    let (citation_type, identifier) := split_colon manubot_id in
    if String.eqb citation_type "doi" then validate_doi identifier
    else if String.eqb citation_type "pmid" then
      isdigit identifier && ((7 <=? String.length identifier)
                             && (String.length identifier <=? 8))
    else if String.eqb citation_type "pmcid" then
      startswith "PMC" identifier && isdigit (drop 3 identifier)
    else if String.eqb citation_type "arxiv" then arxiv_valid identifier
    else if String.eqb citation_type "isbn" then
      let clean_id := sub_empty not_isbn_char (upper identifier) NOFLAGS in
      (String.length clean_id =? 10) || (String.length clean_id =? 13)
    else if String.eqb citation_type "url" then validate_url urlparse identifier
    else if String.eqb citation_type "raw" then negb (is_empty (strip identifier))
    else false.

End WithUrlparse.

(** *** models.py: results of a batch *)

(** [ConversionResult.citation_id] *)
Definition citation_id (r : ConversionResult.t) : option string :=
  option_map ManubotCitation.id (ConversionResult.manubot_citation r).

(** [BatchConversionResult.get_successful_citations] *)
Definition get_successful_citations (b : BatchConversionResult)
  : list ManubotCitation.t :=
  flat_map (fun result =>
              match ConversionResult.success result,
                    ConversionResult.manubot_citation result with
              | true, Some c => [c]
              | _, _ => []
              end) (conversions b).

(** *** config.py *)

(** A configuration value as [yaml.safe_load] gives it; a mapping is
    the list of its items, whose keys are distinct. *)
#[warnings="-register-all"]
Inductive config_value : Type :=
| CNull
| CBool (b : bool)
| CInt (n : Z)
| CStr (s : string)
| CList (l : list config_value)
| CDict (d : list (string * config_value)).

(** [value[key]] when [key in value]. *)
Fixpoint dict_lookup (key : string) (d : list (string * config_value))
  : option config_value :=
  match d with
  | [] => None
  | (k, v) :: d' => if String.eqb k key then Some v else dict_lookup key d'
  end.

Definition _get_default_config : config_value :=
  CDict
    [ ("citation_priority",
       CList [CStr "doi"; CStr "pmid"; CStr "pmcid"; CStr "arxiv"; CStr "isbn";
              CStr "url"]);
      ("bibtex", CDict [("encoding", CStr "utf-8"); ("strict_parsing", CBool false)]);
      ("output", CDict [("include_metadata", CBool true); ("format", CStr "yaml")]) ].

(** The loop of [Config.get]: [None] is the early [return default]. *)
Fixpoint walk (keys : list string) (value : config_value) : option config_value :=
  match keys with
  | [] => Some value
  | key :: rest =>
      match value with
      | CDict d =>
          match dict_lookup key d with
          | Some v => walk rest v
          | None => None
          end
      | _ => None
      end
  end.

(** [Config.get(key_path, default)] on the configuration [config]. *)
Definition config_get (config : config_value) (key_path : string)
    (default : config_value) : config_value :=
  match walk (split_on "." key_path) config with
  | Some v => v
  | None => default
  end.

End More.

(* ================================================================== *)
(** ** Notions for the further properties *)
(* ================================================================== *)

Module MoreSpec.
Import Py Re Utils Models Converter Spec More.

(** The keys the results of a batch carry, input by input. *)
Definition expected_keys (input_paths : list parsed_file) : list string :=
  flat_map (fun input =>
              match snd input with
              | inl entries => map BibTeXEntry.key entries
              | inr _ => [("FILE:" ++ fst input)%string]
              end) input_paths.

(** The number of input files that could not be parsed. *)
Definition unparsed (input_paths : list parsed_file) : nat :=
  List.length (filter (fun input => match snd input with
                                    | inl _ => false
                                    | inr _ => true
                                    end) input_paths).

(** The number of entries the parsed files hold. *)
Definition parsed_entries (input_paths : list parsed_file) : nat :=
  List.length (flat_map (fun input => match snd input with
                                      | inl entries => entries
                                      | inr _ => []
                                      end) input_paths).

(** What [all_entries] holds after the first loop of [batch_convert]. *)
Definition all_entries_of (input_paths : list parsed_file)
  : list (BibTeXEntry.t + ConversionResult.t) :=
  flat_map (fun input =>
              match snd input with
              | inl entries => map inl entries
              | inr err => [inr (failed_file (fst input) err)]
              end) input_paths.

(** The result recorded for one element of [all_entries]. *)
Definition result_of (clean_bibtex_field : string -> string)
    (urlparse : string -> option (string * string)) (priority : list string)
    (x : BibTeXEntry.t + ConversionResult.t) : ConversionResult.t :=
  match x with
  | inl entry => convert_entry clean_bibtex_field urlparse priority entry
  | inr failed => failed
  end.

Definition is_failed_file (x : BibTeXEntry.t + ConversionResult.t) : bool :=
  match x with
  | inl _ => false
  | inr _ => true
  end.

(** The entry [e] with its publisher, volume, number and pages
    replaced. *)
Definition with_unwritten (e : BibTeXEntry.t)
    (publisher volume number pages : option string) : BibTeXEntry.t :=
  {| BibTeXEntry.key := BibTeXEntry.key e;
     BibTeXEntry.entry_type := BibTeXEntry.entry_type e;
     BibTeXEntry.fields := BibTeXEntry.fields e;
     BibTeXEntry.title := BibTeXEntry.title e;
     BibTeXEntry.authors := BibTeXEntry.authors e;
     BibTeXEntry.journal := BibTeXEntry.journal e;
     BibTeXEntry.booktitle := BibTeXEntry.booktitle e;
     BibTeXEntry.year := BibTeXEntry.year e;
     BibTeXEntry.volume := volume;
     BibTeXEntry.number := number;
     BibTeXEntry.pages := pages;
     BibTeXEntry.publisher := publisher;
     BibTeXEntry.doi := BibTeXEntry.doi e;
     BibTeXEntry.pmid := BibTeXEntry.pmid e;
     BibTeXEntry.pmcid := BibTeXEntry.pmcid e;
     BibTeXEntry.arxiv := BibTeXEntry.arxiv e;
     BibTeXEntry.isbn := BibTeXEntry.isbn e;
     BibTeXEntry.url := BibTeXEntry.url e;
     BibTeXEntry.month := BibTeXEntry.month e;
     BibTeXEntry.day := BibTeXEntry.day e |}.

(** What [save_yaml] would write for one entry converted on its own. *)
Definition written_for (clean_bibtex_field : string -> string)
    (urlparse : string -> option (string * string)) (priority : list string)
    (include_metadata : bool) (entry : BibTeXEntry.t) : option CitationDict.t :=
  option_map (fun c => to_dict c include_metadata)
    (ConversionResult.manubot_citation
       (convert_entry clean_bibtex_field urlparse priority entry)).

(** *** What a pattern can match

    The texts a pattern can consume, whatever surrounds them: a sound
    description of the matcher, used to bound what it returns. *)

(** [m] has the characters of the literal [l], up to case under
    IGNORECASE. *)
Fixpoint lit_text (fl : flags) (l m : string) : Prop :=
  match l, m with
  | EmptyString, EmptyString => True
  | String a l', String c m' => chr_ok fl a c = true /\ lit_text fl l' m'
  | _, _ => False
  end.

Definition within (hi : option nat) (n : nat) : Prop :=
  match hi with
  | Some h => n <= h
  | None => True
  end.

Fixpoint matches_text (fl : flags) (r : regex) (m : string) : Prop :=
  match r with
  | Eps | Bol | Eol | Wb => m = EmptyString
  | Lit l => lit_text fl l m
  | Cls p => exists c, m = String c EmptyString /\ cls_ok fl p c = true
  | Rep p lo hi =>
      forallb_s (cls_ok fl p) m = true /\ lo <= String.length m
      /\ within hi (String.length m)
  | Opt r1 => m = EmptyString \/ matches_text fl r1 m
  | Cat r1 r2 =>
      exists m1 m2, m = (m1 ++ m2)%string /\ matches_text fl r1 m1
                    /\ matches_text fl r2 m2
  | Grp r1 => matches_text fl r1 m
  end.

(** Group 1 after a match of [r], given what it held before. *)
Fixpoint captures (fl : flags) (r : regex) (cap cap' : option string) : Prop :=
  match r with
  | Grp r1 => exists m, cap' = Some m /\ matches_text fl r1 m
  | Cat r1 r2 => exists c, captures fl r1 cap c /\ captures fl r2 c cap'
  | Opt r1 => cap' = cap \/ captures fl r1 cap cap'
  | _ => cap' = cap
  end.

(** A character an ISBN may hold: a digit or the letter x in either
    case. *)
Definition isbn_char (c : ascii) : bool :=
  is_digit c || is_X c || is_X (upper_char c).

(** A word: not empty, no white space in it. *)
Definition is_name_word (w : string) : Prop :=
  is_empty w = false /\ existsb_s is_space w = false.

(** The year, when there is one, is in the range of a C [int], which
    is what the date constructor takes. *)
Definition year_fits (year : option Z) : Prop :=
  match year with
  | Some y => (- 2 ^ 31 <= y < 2 ^ 31)%Z
  | None => True
  end.

End MoreSpec.

(* ================================================================== *)
(** ** Duplicate removal *)
(* ================================================================== *)

Module DuplicateFacts.
Import Py Re Utils Models Converter Spec.

Lemma opt_eqb_spec (a b : option string) : opt_eqb a b = true <-> a = b.
Proof.
  destruct a as [x|], b as [y|]; simpl; try (split; congruence).
  rewrite String.eqb_eq. split; congruence.
Qed.

Lemma in_set_In (x : option string) (l : list (option string)) :
  in_set x l = true <-> In x l.
Proof.
  unfold in_set. rewrite existsb_exists. split.
  - intros (y & Hy & E). apply opt_eqb_spec in E. now subst.
  - intros H. exists x. split; [assumption | now apply opt_eqb_spec].
Qed.

Lemma run_length_spec (w1 w2 : list string) (k : nat) :
  k <= run_length w1 w2 <->
  k <= List.length w1 /\ k <= List.length w2 /\ firstn k w1 = firstn k w2.
Proof.
  revert w2 k. induction w1 as [|a w1 IH]; intros w2 k.
  - simpl. destruct k; simpl; [split; intros; repeat split; lia|].
    split; [lia | intros (H & _); lia].
  - destruct w2 as [|b w2].
    + simpl. destruct k; simpl; [split; intros; repeat split; lia|].
      split; [lia | intros (_ & H & _); lia].
    + simpl. destruct k as [|k].
      * simpl. split; intros; repeat split; lia.
      * destruct (String.eqb_spec a b) as [E|NE].
        -- subst b. rewrite <- Nat.succ_le_mono, IH. simpl.
           split.
           ++ intros (H1 & H2 & H3). repeat split; try lia. now rewrite H3.
           ++ intros (H1 & H2 & H3). injection H3 as H3. repeat split; try lia; assumption.
        -- simpl. split; [lia|]. intros (_ & _ & H). injection H as H _. contradiction.
Qed.

(** The two nested [for] loops compute a maximum. *)
Lemma fold_max_lower (A : Type) (f : A -> nat) (l : list A) (m : nat) :
  m <= fold_left (fun acc x => Nat.max acc (f x)) l m.
Proof.
  revert m. induction l as [|x l IH]; intros m; simpl; [lia|].
  specialize (IH (Nat.max m (f x))). lia.
Qed.

Lemma fold_max_elem (A : Type) (f : A -> nat) (l : list A) (m : nat) (x : A) :
  In x l -> f x <= fold_left (fun acc x => Nat.max acc (f x)) l m.
Proof.
  revert m. induction l as [|y l IH]; intros m H; simpl; [contradiction|].
  destruct H as [->|H].
  - pose proof (fold_max_lower A f l (Nat.max m (f x))). lia.
  - now apply IH.
Qed.

Lemma fold_max_attained (A : Type) (f : A -> nat) (l : list A) (m : nat) :
  fold_left (fun acc x => Nat.max acc (f x)) l m = m \/
  exists x, In x l /\ fold_left (fun acc x => Nat.max acc (f x)) l m = f x.
Proof.
  revert m. induction l as [|y l IH]; intros m; simpl; [now left|].
  destruct (IH (Nat.max m (f y))) as [E|(x & Hx & E)].
  - rewrite E. destruct (Nat.max_spec m (f y)) as [[_ ->]|[_ ->]].
    + right. exists y. auto.
    + now left.
  - right. exists x. auto.
Qed.

Lemma overlap_outer_lower (w1 w2 : list string) (l : list nat) (m : nat) :
  m <= fold_left (fun acc i => overlap_inner w1 w2 i acc) l m.
Proof.
  revert m. induction l as [|i l IH]; intros m; simpl; [lia|].
  specialize (IH (overlap_inner w1 w2 i m)).
  assert (H : m <= overlap_inner w1 w2 i m)
    by (unfold overlap_inner; apply fold_max_lower).
  lia.
Qed.

Lemma overlap_outer_elem (w1 w2 : list string) (l : list nat) (m i j : nat) :
  In i l -> j < List.length w2 ->
  run_length (skipn i w1) (skipn j w2)
  <= fold_left (fun acc i => overlap_inner w1 w2 i acc) l m.
Proof.
  revert m. induction l as [|i' l IH]; intros m Hi Hj; simpl; [contradiction|].
  destruct Hi as [->|Hi].
  - pose proof (overlap_outer_lower w1 w2 l (overlap_inner w1 w2 i m)) as H1.
    assert (H2 : run_length (skipn i w1) (skipn j w2) <= overlap_inner w1 w2 i m).
    { unfold overlap_inner.
      apply (fold_max_elem nat (fun j => run_length (skipn i w1) (skipn j w2))).
      apply in_seq. lia. }
    lia.
  - now apply IH.
Qed.

Lemma overlap_outer_attained (w1 w2 : list string) (l : list nat) (m : nat) :
  fold_left (fun acc i => overlap_inner w1 w2 i acc) l m = m \/
  exists i j, In i l /\ j < List.length w2 /\
    fold_left (fun acc i => overlap_inner w1 w2 i acc) l m
    = run_length (skipn i w1) (skipn j w2).
Proof.
  revert m. induction l as [|i l IH]; intros m; simpl; [now left|].
  destruct (IH (overlap_inner w1 w2 i m)) as [E|(i' & j & Hi & Hj & E)].
  - rewrite E.
    destruct (fold_max_attained nat (fun j => run_length (skipn i w1) (skipn j w2))
                (List.seq 0 (List.length w2)) m) as [E'|(j & Hj & E')].
    + left. exact E'.
    + right. exists i, j. rewrite in_seq in Hj. repeat split; auto; lia.
  - right. exists i', j. auto.
Qed.

(** [overlap_outer] is the length of the longest shared run. *)
Lemma overlap_outer_shares (w1 w2 : list string) (k : nat) :
  shares_run w1 w2 k <-> k <= overlap_outer w1 w2.
Proof.
  unfold shares_run, overlap_outer. split.
  - intros (i & j & Hi & Hj & E).
    destruct k as [|k]; [lia|].
    assert (Hr : S k <= run_length (skipn i w1) (skipn j w2)).
    { apply run_length_spec. rewrite !length_skipn. repeat split; try lia; assumption. }
    pose proof (overlap_outer_elem w1 w2 (List.seq 0 (List.length w1)) 0 i j) as H.
    rewrite in_seq in H. lia.
  - intros H.
    destruct (overlap_outer_attained w1 w2 (List.seq 0 (List.length w1)) 0)
      as [E|(i & j & Hi & Hj & E)].
    + rewrite E in H. assert (k = 0) by lia. subst k.
      exists 0, 0. simpl. repeat split; lia.
    + rewrite E in H. apply run_length_spec in H. rewrite !length_skipn in H.
      rewrite in_seq in Hi. exists i, j. repeat split; try lia. tauto.
Qed.

Lemma overlap_outer_longest (w1 w2 : list string) :
  longest_run w1 w2 (overlap_outer w1 w2).
Proof.
  split.
  - apply overlap_outer_shares. lia.
  - intros k. apply overlap_outer_shares.
Qed.

Lemma title_words_empty : title_words EmptyString = [].
Proof. reflexivity. Qed.

(** [\w+\b] takes the whole run of word characters ahead. *)
Lemma rep_word (s : string) :
  forall n prev cap,
    (1 <= n -> word_before prev = true) ->
    rep_go NOFLAGS (cls is_word) 1 None n prev s cap
      (fun p' s' c' => run NOFLAGS Wb p' s' c' (fun _ s'' c'' => Some (s'', c'')))
    = if (1 <=? n) || word_ahead s then Some (drop (word_run s) s, cap) else None.
Proof.
  induction s as [|c s IH]; intros n prev cap Hn.
  - cbn [rep_go word_ahead word_run drop]. rewrite orb_false_r.
    destruct (1 <=? n) eqn:E; [|reflexivity].
    apply Nat.leb_le in E. cbn. rewrite (Hn E). reflexivity.
  - cbn [rep_go word_ahead word_run]. unfold cls_ok. cbn [negated members cls below].
    destruct (is_word c) eqn:Ec.
    + cbn [xorb andb]. rewrite IH by (intros _; cbn; exact Ec).
      cbn. rewrite orb_true_r. reflexivity.
    + cbn [xorb andb]. rewrite orb_false_r. destruct (1 <=? n) eqn:E; [|reflexivity].
      apply Nat.leb_le in E. cbn. rewrite (Hn E), Ec. reflexivity.
Qed.

Lemma length_drop_word_run (s : string) :
  String.length s - String.length (drop (word_run s) s) = word_run s.
Proof.
  assert (H : String.length (drop (word_run s) s) + word_run s = String.length s).
  { induction s as [|c s IH]; [reflexivity|]. cbn [word_run].
    destruct (is_word c); cbn; lia. }
  lia.
Qed.

(** [\b\w+\b] matches where a word starts, and takes the whole word. *)
Lemma match_len_word (prev : option ascii) (s : string) :
  match_len NOFLAGS word_pattern prev s
  = if negb (word_before prev) && word_ahead s then Some (word_run s) else None.
Proof.
  unfold match_len, match_here, word_pattern, plus. cbn [seq run].
  destruct (word_before prev) eqn:Ep, (word_ahead s) eqn:Es; cbn [xorb negb andb];
    try reflexivity.
  - rewrite rep_word by lia. cbn. rewrite Es. reflexivity.
  - rewrite rep_word by lia. cbn. rewrite Es, length_drop_word_run. reflexivity.
Qed.

(** A word in progress ends where the run of word characters ends. *)
Lemma word_tokens_from_run (s : string) :
  forall cur,
    cur <> [] \/ word_ahead s = true ->
    word_tokens_from cur s
    = rev_string cur (take (word_run s) s) :: word_tokens (drop (word_run s) s).
Proof.
  induction s as [|c s IH]; intros cur H.
  - destruct H as [H|H]; [|discriminate]. destruct cur; [congruence|reflexivity].
  - cbn [word_tokens_from word_run]. destruct (is_word c) eqn:Ec.
    + rewrite IH by (left; discriminate). cbn [take drop rev_string]. reflexivity.
    + destruct H as [H|H]; [|cbn in H; congruence].
      destruct cur as [|a cur]; [congruence|]. cbn [take drop token_of].
      unfold word_tokens. cbn [word_tokens_from]. rewrite Ec. reflexivity.
Qed.

(** The scan of [findall] with [\b\w+\b] yields the word tokens: from a
    position that does not follow a word character, and from inside a
    word whose remaining characters are being skipped. *)
Lemma findall_word_tokens (s : string) :
  (forall prev, word_before prev = false ->
     findall_go NOFLAGS word_pattern 0 prev s = word_tokens s)
  /\ (forall prev,
        findall_go NOFLAGS word_pattern (word_run s) prev s
        = word_tokens (drop (word_run s) s)).
Proof.
  induction s as [|c s (IH1 & IH2)]; [split; reflexivity|].
  assert (Hstep : is_word c = false -> forall prev,
            findall_go NOFLAGS word_pattern 0 prev (String c s)
            = word_tokens (String c s)).
  { intros Ec prev. cbn [findall_go]. rewrite match_len_word. cbn [word_ahead].
    rewrite Ec, andb_false_r. rewrite IH1 by (cbn; exact Ec).
    unfold word_tokens. cbn [word_tokens_from]. rewrite Ec. reflexivity. }
  split; intros prev.
  - intros Hp. destruct (is_word c) eqn:Ec; [|now apply Hstep].
    cbn [findall_go]. rewrite match_len_word, Hp. cbn [word_ahead negb andb word_run].
    rewrite Ec, IH2. unfold word_tokens at 2. cbn [word_tokens_from]. rewrite Ec.
    rewrite word_tokens_from_run by (left; discriminate). reflexivity.
  - cbn [word_run]. destruct (is_word c) eqn:Ec.
    + cbn [findall_go drop]. apply IH2.
    + cbn [drop]. now apply Hstep.
Qed.

(** The code's tokenizer computes the normalized words of a title. *)
Lemma title_words_normalized (t : string) : title_words t = normalized_words t.
Proof.
  unfold title_words, normalized_words, findall.
  apply (proj1 (findall_word_tokens (lower t))). reflexivity.
Qed.

Lemma overlap_outer_no_words (w : list string) (l : list nat) (m : nat) :
  fold_left (fun acc i => overlap_inner w [] i acc) l m = m.
Proof.
  revert m. induction l as [|i l IH]; intros m; simpl; [reflexivity|].
  rewrite IH. reflexivity.
Qed.

Lemma find_title_overlap_words (t1 t2 : string) :
  _find_title_overlap t1 t2 = overlap_outer (title_words t1) (title_words t2).
Proof.
  unfold _find_title_overlap.
  destruct t1 as [|c1 t1]; [reflexivity|].
  destruct t2 as [|c2 t2]; [|reflexivity].
  simpl. rewrite title_words_empty. unfold overlap_outer.
  symmetry. apply overlap_outer_no_words.
Qed.

Lemma qualifies_overlap (arxiv_title : string) (min_overlap : Z) (p : CitationDict.t) :
  qualifies arxiv_title min_overlap p <->
  is_CoRR p = false /\ is_empty (title_of p) = false /\
  (min_overlap <= Z.of_nat (_find_title_overlap arxiv_title (title_of p)))%Z.
Proof.
  unfold qualifies. rewrite find_title_overlap_words, <- !title_words_normalized. split.
  - intros (H1 & H2 & k & Hk & Hr). apply overlap_outer_shares in Hr.
    repeat split; auto. lia.
  - intros (H1 & H2 & H3). repeat split; auto.
    eexists. split; [exact H3|]. apply overlap_outer_shares. lia.
Qed.

(** The inner loop stops at the first published paper that qualifies. *)
Lemma scan_published_first (arxiv_title : string) (min_overlap : Z)
    (l : list CitationDict.t) (p : CitationDict.t) (n : nat) :
  Forall (fun q => is_CoRR q = false) l ->
  scan_published arxiv_title min_overlap l = Some (p, n) ->
  exists before after,
    l = before ++ p :: after /\
    (forall q, In q before -> ~ qualifies arxiv_title min_overlap q) /\
    qualifies arxiv_title min_overlap p /\
    n = _find_title_overlap arxiv_title (title_of p).
Proof.
  induction l as [|q l IH]; intros Hl H; simpl in H; [discriminate|].
  inversion Hl as [|? ? Hq Hl']; subst.
  destruct (is_empty (title_of q)) eqn:Et.
  - destruct (IH Hl' H) as (before & after & -> & Hb & Hp & Hn).
    exists (q :: before), after. split; [reflexivity|]. split; [|now split].
    intros q' [<-|Hq']; [|now apply Hb].
    rewrite qualifies_overlap. intros (_ & E & _). congruence.
  - destruct (Z.leb_spec min_overlap
                (Z.of_nat (_find_title_overlap arxiv_title (title_of q)))) as [Hle|Hlt].
    + injection H as <- <-. exists [], l. split; [reflexivity|].
      split; [intros q' []|]. split; [|reflexivity].
      apply qualifies_overlap. auto.
    + destruct (IH Hl' H) as (before & after & -> & Hb & Hp & Hn).
      exists (q :: before), after. split; [reflexivity|]. split; [|now split].
      intros q' [<-|Hq']; [|now apply Hb].
      rewrite qualifies_overlap. intros (_ & _ & E). lia.
Qed.

Lemma scan_published_none (arxiv_title : string) (min_overlap : Z)
    (l : list CitationDict.t) :
  scan_published arxiv_title min_overlap l = None <->
  forall q, In q l ->
    is_empty (title_of q) = true \/
    (Z.of_nat (_find_title_overlap arxiv_title (title_of q)) < min_overlap)%Z.
Proof.
  induction l as [|q l IH]; simpl.
  - split; [intros _ q [] | reflexivity].
  - destruct (is_empty (title_of q)) eqn:Et.
    + rewrite IH. split.
      * intros H q' [<-|Hq']; [now left | now apply H].
      * intros H q' Hq'. apply H. now right.
    + destruct (Z.leb_spec min_overlap
                  (Z.of_nat (_find_title_overlap arxiv_title (title_of q)))) as [Hle|Hlt].
      * split; [discriminate|]. intros H.
        destruct (H q (or_introl eq_refl)) as [E|E]; [congruence | lia].
      * rewrite IH. split.
        -- intros H q' [<-|Hq']; [now right | now apply H].
        -- intros H q' Hq'. apply H. now right.
Qed.

Lemma marked_iff (citations : list CitationDict.t) (min_overlap : Z) (a : CitationDict.t) :
  marked (non_arxiv_papers_of citations) min_overlap a = true <->
  is_empty (title_of a) = false /\
  exists p, In p citations /\ qualifies (title_of a) min_overlap p.
Proof.
  unfold marked. rewrite andb_true_iff, negb_true_iff.
  apply and_iff_compat_l.
  destruct (scan_published (title_of a) min_overlap (non_arxiv_papers_of citations))
    as [[p n]|] eqn:E.
  - split; [intros _ | reflexivity].
    apply scan_published_first in E.
    + destruct E as (before & after & Hl & _ & Hp & _).
      exists p. split; [|assumption].
      assert (Hin : In p (non_arxiv_papers_of citations))
        by (rewrite Hl; apply in_or_app; right; now left).
      unfold non_arxiv_papers_of in Hin. apply filter_In in Hin. tauto.
    + apply Forall_forall. intros q Hq. unfold non_arxiv_papers_of in Hq.
      apply filter_In in Hq. destruct Hq as (_ & Hq). now apply negb_true_iff in Hq.
  - split; [discriminate|]. intros (p & Hin & Hp).
    apply qualifies_overlap in Hp. destruct Hp as (Hc & Ht & Ho).
    rewrite scan_published_none in E.
    destruct (E p) as [E'|E'].
    + unfold non_arxiv_papers_of. apply filter_In. split; [assumption|].
      now apply negb_true_iff.
    + congruence.
    + lia.
Qed.

(** The ids the outer loop adds are those of the papers it marks. *)
Lemma mark_loop_ids (arxiv non_arxiv : list CitationDict.t) (min_overlap : Z)
    (st : list (option string) * list removal) (i : option string) :
  In i (fst (mark_loop arxiv non_arxiv min_overlap st)) <->
  In i (fst st) \/
  exists a, In a arxiv /\ marked non_arxiv min_overlap a = true /\ CitationDict.id a = i.
Proof.
  revert st. induction arxiv as [|a arxiv IH]; intros st; simpl.
  - split; [now left | intros [H|(a & [] & _)]; assumption].
  - destruct (is_empty (title_of a)) eqn:Et.
    + assert (Hm : marked non_arxiv min_overlap a = false)
        by (unfold marked; rewrite Et; reflexivity).
      rewrite IH. split.
      * intros [H|(a' & H1 & H2)]; [now left | right; exists a'; tauto].
      * intros [H|(a' & [<-|H1] & H2 & H3)];
          [now left | congruence | right; exists a'; tauto].
    + destruct (scan_published (title_of a) min_overlap non_arxiv) as [[p n]|] eqn:E.
      * assert (Hm : marked non_arxiv min_overlap a = true)
          by (unfold marked; rewrite Et, E; reflexivity).
        rewrite IH. simpl fst. simpl In. split.
        -- intros [[H|H]|(a' & H1 & H2)].
           ++ right. exists a. tauto.
           ++ now left.
           ++ right. exists a'. tauto.
        -- intros [H|(a' & [<-|H1] & H2 & H3)].
           ++ left. now right.
           ++ left. now left.
           ++ right. exists a'. tauto.
      * assert (Hm : marked non_arxiv min_overlap a = false)
          by (unfold marked; rewrite Et, E; reflexivity).
        rewrite IH. split.
        -- intros [H|(a' & H1 & H2)]; [now left | right; exists a'; tauto].
        -- intros [H|(a' & [<-|H1] & H2 & H3)];
             [now left | congruence | right; exists a'; tauto].
Qed.

Lemma arxiv_to_remove_iff (citations : list CitationDict.t) (min_overlap : Z)
    (i : option string) :
  In i (arxiv_to_remove citations min_overlap) <->
  exists a, In a citations /\ is_CoRR a = true /\
            marked (non_arxiv_papers_of citations) min_overlap a = true /\
            CitationDict.id a = i.
Proof.
  unfold arxiv_to_remove. rewrite mark_loop_ids. simpl. split.
  - intros [[]|(a & Ha & Hm & Hi)]. exists a.
    unfold arxiv_papers_of in Ha. apply filter_In in Ha. tauto.
  - intros (a & Ha & Hc & Hm & Hi). right. exists a. repeat split; auto.
    unfold arxiv_papers_of. apply filter_In. tauto.
Qed.

Lemma map_NoDup_inj (A B : Type) (f : A -> B) (l : list A) (x y : A) :
  NoDup (map f l) -> In x l -> In y l -> f x = f y -> x = y.
Proof.
  induction l as [|z l IH]; simpl; intros Hnd Hx Hy E; [contradiction|].
  inversion Hnd as [|? ? Hnot Hnd']; subst.
  destruct Hx as [->|Hx], Hy as [->|Hy]; auto.
  - exfalso. apply Hnot. rewrite E. now apply in_map.
  - exfalso. apply Hnot. rewrite <- E. now apply in_map.
Qed.

Lemma filter_ext_in_list (A : Type) (f g : A -> bool) (l : list A) :
  (forall x, In x l -> f x = g x) -> filter f l = filter g l.
Proof.
  induction l as [|x l IH]; intros H; simpl; [reflexivity|].
  rewrite (H x (or_introl eq_refl)), IH; [reflexivity|].
  intros y Hy. apply H. now right.
Qed.

(** C1. Duplicate removal ([_remove_arxiv_duplicates], default
    [min_overlap] 6).  "Blank" is read as Python reads [if not title]:
    absent or the empty string.
    - An arXiv citation (publisher equal to ["CoRR"]) with a non-blank
      title is marked for removal exactly when some non-arXiv citation
      with a non-blank title shares with it a run of at least
      [min_overlap] identical consecutive words, both titles being
      normalized to lower-case word tokens: the maximal runs of word
      characters of the lower-cased title, which is what the code's
      [title_words] computes.  Example: a preprint whose title
      differs from that of its published version in case and
      punctuation only has the same seven leading tokens, and is
      removed.
    - The scan for an arXiv citation stops at the first published
      citation that qualifies, and the overlap it reports is the length
      of the longest shared run.
    - The ids collected are those of the marked arXiv citations; the
      output is the input with the citations carrying a collected id
      filtered out: order is kept and the remaining entries are the
      input's own.  When the ids of the input are pairwise distinct,
      the entries dropped are exactly the marked arXiv citations.
    - A shared run of 5 words removes nothing under the default
      threshold; a shared run of 6 words removes the arXiv entry. *)
Theorem remove_arxiv_duplicates_spec (citations : list CitationDict.t) (min_overlap : Z) :
  let published := non_arxiv_papers_of citations in
  let removed := arxiv_to_remove citations min_overlap in
  (forall a, In a citations -> is_CoRR a = true -> is_empty (title_of a) = false ->
     (marked published min_overlap a = true <->
      exists p, In p citations /\ qualifies (title_of a) min_overlap p))
  /\ (forall a p n,
        scan_published (title_of a) min_overlap published = Some (p, n) ->
        exists before after,
          published = before ++ p :: after /\
          (forall q, In q before -> ~ qualifies (title_of a) min_overlap q) /\
          qualifies (title_of a) min_overlap p /\
          longest_run (normalized_words (title_of a)) (normalized_words (title_of p)) n)
  /\ (forall t, title_words t = word_tokens (lower t))
  /\ (normalized_words (title_of Samples.preprint_caps)
      = ["scalable"; "deep"; "learning"; "for"; String Samples.e_acute "cole";
         "graph_net"; "data"]
      /\ normalized_words (title_of Samples.published_caps)
         = ["scalable"; "deep"; "learning"; "for"; String Samples.e_acute "cole";
            "graph_net"; "data"; "revisited"]
      /\ _remove_arxiv_duplicates [Samples.preprint_caps; Samples.published_caps]
           default_min_overlap
         = [Samples.published_caps])
  /\ (forall i, In i removed <->
        exists a, In a citations /\ is_CoRR a = true /\
                  marked published min_overlap a = true /\ CitationDict.id a = i)
  /\ _remove_arxiv_duplicates citations min_overlap
     = filter (fun c => negb (in_set (CitationDict.id c) removed)) citations
  /\ (NoDup (map CitationDict.id citations) ->
      _remove_arxiv_duplicates citations min_overlap
      = filter (fun c => negb (is_CoRR c && marked published min_overlap c)) citations)
  /\ (_find_title_overlap (title_of Samples.preprint5) (title_of Samples.published5) = 5
      /\ _remove_arxiv_duplicates [Samples.preprint5; Samples.published5] default_min_overlap
         = [Samples.preprint5; Samples.published5])
  /\ (_find_title_overlap (title_of Samples.preprint6) (title_of Samples.published6) = 6
      /\ _remove_arxiv_duplicates [Samples.preprint6; Samples.published6] default_min_overlap
         = [Samples.published6]).
Proof.
  intros published removed. subst published removed.
  split; [|split; [|split; [|split; [|split; [|split; [|split; [|split]]]]]]].
  - intros a Ha Hc Ht. rewrite marked_iff. tauto.
  - intros a p n H.
    apply scan_published_first in H.
    + destruct H as (before & after & Hl & Hb & Hp & Hn).
      exists before, after. split; [assumption|]. split; [assumption|].
      split; [assumption|]. subst n.
      rewrite find_title_overlap_words, <- !title_words_normalized.
      apply overlap_outer_longest.
    + apply Forall_forall. intros q Hq. unfold non_arxiv_papers_of in Hq.
      apply filter_In in Hq. destruct Hq as (_ & Hq). now apply negb_true_iff in Hq.
  - exact title_words_normalized.
  - repeat split; vm_compute; reflexivity.
  - intros i. apply arxiv_to_remove_iff.
  - reflexivity.
  - intros Hnd. unfold _remove_arxiv_duplicates.
    apply filter_ext_in_list. intros c Hc. f_equal.
    apply eq_true_iff_eq. rewrite in_set_In, arxiv_to_remove_iff, andb_true_iff.
    split.
    + intros (a & Ha & Hco & Hm & Hi).
      assert (a = c) by (eapply map_NoDup_inj; eauto). subst a. tauto.
    + intros (Hco & Hm). exists c. tauto.
  - split; vm_compute; reflexivity.
  - split; vm_compute; reflexivity.
Qed.

Lemma remove_arxiv_duplicates_witness :
  _remove_arxiv_duplicates [Samples.preprint6; Samples.published6] default_min_overlap
  = filter (fun c => negb (is_CoRR c
                           && marked (non_arxiv_papers_of [Samples.preprint6; Samples.published6])
                                     default_min_overlap c))
           [Samples.preprint6; Samples.published6].
Proof.
  destruct (remove_arxiv_duplicates_spec [Samples.preprint6; Samples.published6]
              default_min_overlap) as (_ & _ & _ & _ & _ & _ & H & _).
  apply H. simpl.
  repeat constructor; simpl; intuition discriminate.
Defined.

(** C10. The filter of [_remove_arxiv_duplicates] compares ids: a
    citation is kept exactly when its id is not the id of a marked
    arXiv entry, so a non-arXiv citation that shares its id with a
    removed arXiv citation is dropped as well. *)
Theorem removal_is_by_id (citations : list CitationDict.t) (min_overlap : Z) :
  let published := non_arxiv_papers_of citations in
  (forall c, In c (_remove_arxiv_duplicates citations min_overlap) <->
     In c citations /\
     ~ exists a, In a citations /\ is_CoRR a = true /\
                 marked published min_overlap a = true /\
                 CitationDict.id a = CitationDict.id c)
  /\ (forall a p, In a citations -> is_CoRR a = true ->
        marked published min_overlap a = true ->
        is_CoRR p = false -> CitationDict.id p = CitationDict.id a ->
        ~ In p (_remove_arxiv_duplicates citations min_overlap))
  /\ (is_CoRR Samples.clash6 = false
      /\ _remove_arxiv_duplicates
           [Samples.preprint6; Samples.published6; Samples.clash6] default_min_overlap
         = [Samples.published6]).
Proof.
  intros published. subst published.
  assert (Hgen : forall c, In c (_remove_arxiv_duplicates citations min_overlap) <->
     In c citations /\
     ~ exists a, In a citations /\ is_CoRR a = true /\
                 marked (non_arxiv_papers_of citations) min_overlap a = true /\
                 CitationDict.id a = CitationDict.id c).
  { intros c. unfold _remove_arxiv_duplicates.
    rewrite filter_In, negb_true_iff, <- not_true_iff_false, in_set_In,
      arxiv_to_remove_iff. reflexivity. }
  split; [exact Hgen|]. split.
  - intros a p' Ha Hc Hm Hp Hid Hin. apply Hgen in Hin.
    destruct Hin as (_ & Hno). apply Hno. exists a. auto.
  - split; vm_compute; reflexivity.
Qed.

Lemma removal_is_by_id_witness :
  ~ In Samples.clash6
       (_remove_arxiv_duplicates
          [Samples.preprint6; Samples.published6; Samples.clash6] default_min_overlap).
Proof.
  apply (proj1 (proj2 (removal_is_by_id
                         [Samples.preprint6; Samples.published6; Samples.clash6]
                         default_min_overlap)) Samples.preprint6 Samples.clash6).
  - simpl. auto.
  - reflexivity.
  - vm_compute. reflexivity.
  - reflexivity.
  - reflexivity.
Defined.

End DuplicateFacts.

(* ================================================================== *)
(** ** Strings and the matcher *)
(* ================================================================== *)

Module StringFacts.
Import Py Re.

Lemma sapp_nil_r (s : string) : (s ++ "")%string = s.
Proof. induction s as [|c s IH]; simpl; [reflexivity | now rewrite IH]. Qed.

Lemma sapp_assoc (a b c : string) : ((a ++ b) ++ c)%string = (a ++ (b ++ c))%string.
Proof. induction a as [|x a IH]; simpl; [reflexivity | now rewrite IH]. Qed.

Lemma length_sapp (a b : string) :
  String.length (a ++ b) = String.length a + String.length b.
Proof. induction a as [|x a IH]; simpl; [reflexivity | now rewrite IH]. Qed.

Lemma take_sapp (a b : string) : take (String.length a) (a ++ b) = a.
Proof. induction a as [|x a IH]; simpl; [now destruct b | now rewrite IH]. Qed.

Lemma drop_sapp (a b : string) : drop (String.length a) (a ++ b) = b.
Proof. induction a as [|x a IH]; simpl; [reflexivity | exact IH]. Qed.

Lemma take_drop (n : nat) (s : string) : (take n s ++ drop n s)%string = s.
Proof.
  revert s. induction n as [|n IH]; intros [|c s]; simpl; try reflexivity.
  now rewrite IH.
Qed.

Lemma forallb_sapp (p : ascii -> bool) (a b : string) :
  forallb_s p (a ++ b) = forallb_s p a && forallb_s p b.
Proof.
  induction a as [|x a IH]; simpl; [reflexivity|]. now rewrite IH, andb_assoc.
Qed.

Lemma existsb_sapp (p : ascii -> bool) (a b : string) :
  existsb_s p (a ++ b) = existsb_s p a || existsb_s p b.
Proof.
  induction a as [|x a IH]; simpl; [reflexivity|]. now rewrite IH, orb_assoc.
Qed.

Lemma rev_string_app (acc : list ascii) (t : string) :
  rev_string acc t = (rev_string acc "" ++ t)%string.
Proof.
  revert t. induction acc as [|c acc IH]; intros t; simpl; [reflexivity|].
  rewrite (IH (String c t)), (IH (String c "")), sapp_assoc. reflexivity.
Qed.

(** A greedy repetition consumes a run of characters of the class and
    hands the rest to its continuation. *)
Lemma rep_go_consumes (fl : flags) (p : cclass) (lo : nat) (hi : option nat)
    (s : string) (n : nat) (prev : option ascii) (cap : option string)
    (k : kont) (o : outcome) :
  rep_go fl p lo hi n prev s cap k = Some o ->
  exists w s' prev',
    s = (w ++ s')%string /\ forallb_s (cls_ok fl p) w = true /\
    lo <= n + String.length w /\ k prev' s' cap = Some o.
Proof.
  revert n prev. induction s as [|c s IH]; intros n prev; simpl.
  - destruct (Nat.leb_spec lo n) as [Hle|Hgt]; [|discriminate].
    intros H. exists "", "", prev. simpl. repeat split; auto; lia.
  - assert (Hstop : (if lo <=? n then k prev (String c s) cap else None) = Some o ->
                    exists w s' prev',
                      String c s = (w ++ s')%string /\
                      forallb_s (cls_ok fl p) w = true /\
                      lo <= n + String.length w /\ k prev' s' cap = Some o).
    { destruct (Nat.leb_spec lo n) as [Hle|Hgt]; [|discriminate].
      intros H. exists "", (String c s), prev. simpl. repeat split; auto; lia. }
    destruct (cls_ok fl p c && below hi n) eqn:E; [|exact Hstop].
    unfold or_else.
    destruct (rep_go fl p lo hi (S n) (Some c) s cap k) as [o'|] eqn:Er; [|exact Hstop].
    intros H. injection H as ->.
    destruct (IH _ _ Er) as (w & s' & prev' & -> & Hw & Hn & Hk).
    apply andb_true_iff in E. destruct E as (E & _).
    exists (String c w), s', prev'. simpl. rewrite E, Hw.
    repeat split; auto; lia.
Qed.

(** A literal, matched with no flag, consumes exactly its text. *)
Lemma lit_go_consumes (l s : string) (prev : option ascii) (cap : option string)
    (k : kont) (o : outcome) :
  lit_go NOFLAGS l prev s cap k = Some o ->
  exists s' prev', s = (l ++ s')%string /\ k prev' s' cap = Some o.
Proof.
  revert s prev. induction l as [|a l IH]; intros s prev; simpl.
  - intros H. now exists s, prev.
  - destruct s as [|c s]; [discriminate|].
    destruct (Ascii.eqb_spec a c) as [->|NE]; [|discriminate].
    intros H. destruct (IH _ _ H) as (s' & prev' & -> & Hk).
    now exists s', prev'.
Qed.

(** A greedy repetition without upper bound succeeds whenever it can
    stop after a run [w] of the class with a continuation that accepts
    the rest. *)
Lemma rep_go_succeeds (fl : flags) (p : cclass) (lo : nat) (w t : string)
    (cap : option string) (k : kont) :
  forallb_s (cls_ok fl p) w = true ->
  (forall prev, exists o, k prev t cap = Some o) ->
  forall n prev, lo <= n + String.length w ->
    exists o, rep_go fl p lo None n prev (w ++ t) cap k = Some o.
Proof.
  intros Hw Hk. induction w as [|c w IH]; intros n prev Hn.
  - simpl in Hn. rewrite Nat.add_0_r in Hn. apply Nat.leb_le in Hn.
    destruct t as [|c t]; simpl; rewrite Hn; [apply Hk|].
    destruct (cls_ok fl p c); simpl; [|apply Hk].
    destruct (rep_go fl p lo None (S n) (Some c) t cap k) as [o|];
      [now exists o | apply Hk].
  - simpl in Hw. apply andb_true_iff in Hw. destruct Hw as (Hc & Hw).
    simpl. rewrite Hc. simpl.
    destruct (IH Hw (S n) (Some c)) as (o & Ho); [simpl in Hn; lia|].
    rewrite Ho. now exists o.
Qed.

Lemma sapp_snoc_split (x : string) (c : ascii) (a t : string) :
  (x ++ String c "")%string = (a ++ t)%string -> is_empty t = false ->
  exists t0, t = (t0 ++ String c "")%string /\ x = (a ++ t0)%string.
Proof.
  revert a. induction x as [|d x IH]; intros a H Ht.
  - simpl in H. destruct a as [|e a].
    + simpl in H. subst t. now exists "".
    + simpl in H. injection H as _ H. destruct a; destruct t; discriminate.
  - destruct a as [|e a].
    + simpl in H. subst t. exists (String d x). auto.
    + simpl in H. injection H as <- H.
      destruct (IH a H Ht) as (t0 & -> & ->). now exists t0.
Qed.

End StringFacts.

(* ================================================================== *)
(** ** Author parsing *)
(* ================================================================== *)

Module AuthorFacts.
Import Py Re Utils Models Converter Spec StringFacts.

(** What a match of the separator pattern consumes. *)
Lemma and_separator_match (prev : option ascii) (s rest : string) (cap : option string) :
  match_here NOFLAGS and_separator prev s = Some (rest, cap) ->
  exists sep, s = (sep ++ rest)%string /\ is_and_separator sep.
Proof.
  unfold match_here, and_separator, plus. cbn [seq run].
  intros H.
  apply rep_go_consumes in H. destruct H as (w1 & s1 & p1 & -> & Hw1 & Hn1 & H).
  apply lit_go_consumes in H. destruct H as (s2 & p2 & -> & H).
  apply rep_go_consumes in H. destruct H as (w2 & s3 & p3 & -> & Hw2 & Hn2 & H).
  injection H as <- _.
  exists (w1 ++ "and" ++ w2)%string. split.
  - rewrite !sapp_assoc. reflexivity.
  - exists w1, w2. split; [reflexivity|].
    split; [destruct w1; [simpl in Hn1; lia | reflexivity]|].
    split; [destruct w2; [simpl in Hn2; lia | reflexivity]|].
    split; assumption.
Qed.

Lemma and_separator_len (prev : option ascii) (s : string) (n : nat) :
  match_len NOFLAGS and_separator prev s = Some n ->
  n <= String.length s /\ is_and_separator (take n s).
Proof.
  unfold match_len.
  destruct (match_here NOFLAGS and_separator prev s) as [[rest cap]|] eqn:E;
    [|discriminate].
  intros H. injection H as <-.
  apply and_separator_match in E. destruct E as (sep & -> & Hsep).
  rewrite length_sapp.
  replace (String.length sep + String.length rest - String.length rest)
    with (String.length sep) by lia.
  rewrite take_sapp. split; [lia | assumption].
Qed.

(** The segments of the split, joined by the separators cut out, are
    the text that was split. *)
Lemma split_go_joins (s : string) (skip : nat) (prev : option ascii) (cur : list ascii) :
  skip <= String.length s ->
  exists seps,
    List.length (split_go NOFLAGS and_separator skip prev cur s) = S (List.length seps)
    /\ join_with (split_go NOFLAGS and_separator skip prev cur s) seps
       = (rev_string cur "" ++ drop skip s)%string
    /\ Forall is_and_separator seps.
Proof.
  revert skip prev cur. induction s as [|c s IH]; intros skip prev cur Hskip.
  - exists []. simpl. destruct skip; simpl; rewrite sapp_nil_r; auto.
  - cbn [split_go]. destruct skip as [|skip].
    + destruct (match_len NOFLAGS and_separator prev (String c s)) as [[|n]|] eqn:E.
      * destruct (IH 0 (Some c) (c :: cur)) as (seps & Hl & Hj & Hs); [lia|].
        exists seps. split; [exact Hl|]. split; [|exact Hs].
        rewrite Hj. simpl. rewrite (rev_string_app cur (String c "")), sapp_assoc.
        reflexivity.
      * apply and_separator_len in E. destruct E as (Hn & Hsep). simpl in Hn.
        destruct (IH n (Some c) []) as (seps & Hl & Hj & Hs); [lia|].
        exists (take (S n) (String c s) :: seps).
        split; [simpl; now rewrite Hl|]. split; [|now constructor].
        cbn [join_with]. rewrite Hj. simpl.
        rewrite take_drop. reflexivity.
      * destruct (IH 0 (Some c) (c :: cur)) as (seps & Hl & Hj & Hs); [lia|].
        exists seps. split; [exact Hl|]. split; [|exact Hs].
        rewrite Hj. simpl. rewrite (rev_string_app cur (String c "")), sapp_assoc.
        reflexivity.
    + simpl in Hskip.
      destruct (IH skip (Some c) cur) as (seps & Hl & Hj & Hs); [lia|].
      exists seps. auto.
Qed.

(** The separator pattern matches wherever a separator starts. *)
Lemma and_separator_found (prev : option ascii) (sep rest : string) :
  is_and_separator sep ->
  exists n, match_len NOFLAGS and_separator prev (sep ++ rest) = Some (S n).
Proof.
  intros (w1 & w2 & -> & Hn1 & Hn2 & Hw1 & Hw2).
  assert (Hm : exists o, match_here NOFLAGS and_separator prev
                           ((w1 ++ "and" ++ w2) ++ rest) = Some o).
  { unfold match_here, and_separator, plus. cbn [seq run].
    rewrite !sapp_assoc.
    apply rep_go_succeeds; [exact Hw1| |destruct w1; [discriminate | simpl; lia]].
    intros prev1. simpl.
    apply rep_go_succeeds; [exact Hw2| |destruct w2; [discriminate | simpl; lia]].
    intros prev2. eexists. reflexivity. }
  destruct Hm as ([rest' cap] & Hm). unfold match_len. rewrite Hm.
  apply and_separator_match in Hm. destruct Hm as (sep' & E & Hsep').
  rewrite E, length_sapp.
  destruct Hsep' as (v1 & v2 & -> & Hv1 & _).
  destruct v1 as [|c v1]; [discriminate|].
  exists (String.length (v1 ++ "and" ++ v2)). f_equal.
  rewrite Nat.add_sub. reflexivity.
Qed.

Lemma split_go_separator_free (s : string) (skip : nat) (prev : option ascii)
    (cur : list ascii) :
  collecting cur (drop skip s) ->
  Forall separator_free (split_go NOFLAGS and_separator skip prev cur s).
Proof.
  revert skip prev cur. induction s as [|c s IH]; intros skip prev cur Hcur.
  - assert (Hd : drop skip "" = "") by (destruct skip; reflexivity).
    rewrite Hd in Hcur. simpl. constructor; [|constructor].
    intros a sep b E Hsep.
    destruct sep as [|x sep];
      [destruct Hsep as (w1 & w2 & Hs & _); destruct w1; discriminate|].
    apply (Hcur a (String x sep ++ b)%string E eq_refl (String x sep) b); [|exact Hsep].
    now rewrite sapp_nil_r.
  - cbn [split_go]. destruct skip as [|skip]; [|apply IH; exact Hcur].
    simpl in Hcur.
    assert (Hstep : (forall n, match_len NOFLAGS and_separator prev (String c s)
                               <> Some (S n)) ->
                    collecting (c :: cur) (drop 0 s)).
    { intros Hno a t E Ht sep b E' Hsep. simpl in E, E'.
      rewrite (rev_string_app cur (String c "")) in E.
      destruct (sapp_snoc_split _ _ _ _ E Ht) as (t0 & -> & E0).
      rewrite sapp_assoc in E'. simpl in E'.
      destruct t0 as [|x t0].
      - simpl in E'. destruct (and_separator_found prev sep b Hsep) as (n & Hn).
        rewrite <- E' in Hn. exact (Hno n Hn).
      - exact (Hcur a (String x t0) E0 eq_refl sep b E' Hsep). }
    destruct (match_len NOFLAGS and_separator prev (String c s)) as [[|n]|] eqn:E.
    + apply IH. apply Hstep. intros n. discriminate.
    + constructor.
      * intros a sep b Es Hsep.
        destruct sep as [|x sep];
          [destruct Hsep as (w1 & w2 & Hs & _); destruct w1; discriminate|].
        apply (Hcur a (String x sep ++ b)%string Es eq_refl (String x sep)
                 (b ++ String c s)%string); [|exact Hsep].
        now rewrite sapp_assoc.
      * apply IH. intros a t Ea Ht. destruct a; destruct t; discriminate.
    + apply IH. apply Hstep. intros n. discriminate.
Qed.

Lemma clean_authors_loop_names (authors : list string) (acc : list string) :
  clean_authors_loop authors acc = acc ++ names_of authors.
Proof.
  revert acc. induction authors as [|a authors IH]; intros acc; simpl.
  - now rewrite app_nil_r.
  - destruct (clean_author a) as [n|]; rewrite IH; [|reflexivity].
    now rewrite <- app_assoc.
Qed.

Lemma split_comma_app (last first : string) :
  contains_char "," last = false ->
  split_comma (last ++ String "," first) = (last, first).
Proof.
  unfold contains_char. induction last as [|c last IH]; cbn [existsb_s]; intros H.
  - reflexivity.
  - apply orb_false_iff in H. destruct H as (Hc & Hl).
    cbn [append split_comma]. rewrite (Ascii.eqb_sym c ","), Hc, (IH Hl). reflexivity.
Qed.

Lemma clean_author_nonempty (seg a : string) :
  clean_author seg = Some a -> is_empty a = false.
Proof.
  unfold clean_author. destruct (is_empty (strip seg)) eqn:E; [discriminate|].
  destruct (contains_char "," (strip seg)).
  - destruct (split_comma (strip seg)) as [last first].
    intros H. injection H as <-. destruct (strip first); reflexivity.
  - intros H. injection H as <-. exact E.
Qed.

(** C8, as the claim states it, fails: an upper-case [AND] does not
    separate two authors, a lone comma yields a blank name, and an
    empty author field yields an empty list. *)
Lemma and_is_case_sensitive :
  _parse_authors "John Doe AND Jane Smith" = ["John Doe AND Jane Smith"]
  /\ ~ no_blank_names (_parse_authors ",")
  /\ BibTeXEntry.authors (new_entry "k" "misc" [("author", "")]) = Some [].
Proof.
  split; [vm_compute; reflexivity|]. split; [|vm_compute; reflexivity].
  intros (_ & H). inversion H as [|? ? Hb _]. vm_compute in Hb. discriminate.
Qed.

(** C8 (amended).  Author parsing cuts the author string at separators
    made of white space, the lower-case word [and], and white space
    (upper-case letters do not make a separator): the segments joined
    by the separators cut out give back the string, and no separator is
    left inside a segment.  Each segment is
    trimmed; a segment that is empty after trimming is dropped; a
    trimmed segment ["Last,First"] (split at its first comma) gives the
    trimmed [First], a space, and the trimmed [Last]; a segment without
    a comma gives its trimmed text unchanged.  Every name of the
    resulting list is a non-empty string; the list itself is empty when
    every segment is dropped. *)
Theorem parse_authors_spec (author_string : string) :
  let segments := split and_separator author_string NOFLAGS in
  (exists seps,
     List.length segments = S (List.length seps)
     /\ join_with segments seps = author_string
     /\ Forall is_and_separator seps)
  /\ Forall separator_free segments
  /\ _parse_authors author_string = names_of segments
  /\ (forall seg, is_empty (strip seg) = true -> clean_author seg = None)
  /\ (forall seg last first,
        strip seg = (last ++ "," ++ first)%string -> contains_char "," last = false ->
        clean_author seg = Some (strip first ++ " " ++ strip last)%string)
  /\ (forall seg,
        is_empty (strip seg) = false -> contains_char "," (strip seg) = false ->
        clean_author seg = Some (strip seg))
  /\ (forall a, In a (_parse_authors author_string) -> is_empty a = false)
  /\ _parse_authors "John Doe and Jane Smith" = ["John Doe"; "Jane Smith"]
  /\ _parse_authors "Doe, John and  Smith, Jane" = ["John Doe"; "Jane Smith"].
Proof.
  intros segments. subst segments.
  assert (Hnames : _parse_authors author_string
                   = names_of (split and_separator author_string NOFLAGS)).
  { unfold _parse_authors. now rewrite clean_authors_loop_names. }
  split.
  { unfold split.
    destruct (split_go_joins author_string 0 None []) as (seps & Hl & Hj & Hs); [lia|].
    exists seps. auto. }
  split.
  { unfold split. apply split_go_separator_free.
    intros a t Ea Ht. destruct a; destruct t; discriminate. }
  split; [exact Hnames|].
  split.
  { intros seg H. unfold clean_author. now rewrite H. }
  split.
  { intros seg last first E Hl. unfold clean_author. rewrite E.
    assert (Hne : is_empty (last ++ "," ++ first) = false) by (destruct last; reflexivity).
    assert (Hc : contains_char "," (last ++ "," ++ first) = true).
    { unfold contains_char. rewrite existsb_sapp. simpl. apply orb_true_r. }
    rewrite Hne, Hc.
    change (last ++ "," ++ first)%string with (last ++ String "," first)%string.
    now rewrite (split_comma_app last first Hl). }
  split.
  { intros seg Hne Hc. unfold clean_author. now rewrite Hne, Hc. }
  split.
  { intros a Ha. rewrite Hnames in Ha. unfold names_of in Ha.
    apply in_flat_map in Ha. destruct Ha as (seg & _ & Ha).
    destruct (clean_author seg) as [a'|] eqn:E; [|contradiction].
    destruct Ha as [<-|[]]. now apply clean_author_nonempty in E. }
  split; vm_compute; reflexivity.
Qed.

Lemma parse_authors_witness :
  clean_author "  Lovelace, Ada " = Some "Ada Lovelace".
Proof.
  destruct (parse_authors_spec "") as (_ & _ & _ & _ & H & _).
  apply (H "  Lovelace, Ada " "Lovelace" " Ada"); reflexivity.
Defined.

End AuthorFacts.

(* ================================================================== *)
(** ** Year parsing *)
(* ================================================================== *)

Module YearFacts.
Import Py Re Utils Models Converter Spec StringFacts.

Lemma digit_not_int_space (c : ascii) : is_digit c = true -> int_space c = false.
Proof.
  unfold is_digit, int_space, between.
  rewrite andb_true_iff, !orb_false_iff, andb_false_iff, !Nat.leb_le, !Nat.leb_gt,
    !Nat.eqb_neq. lia.
Qed.

Lemma digit_not_sign (c : ascii) :
  is_digit c = true -> Ascii.eqb c "+" = false /\ Ascii.eqb c "-" = false
                       /\ Ascii.eqb c "_" = false.
Proof.
  intros H. repeat split; apply Ascii.eqb_neq; intros ->; discriminate H.
Qed.

Lemma underscore_code (c : ascii) : (code c =? 95) = true -> c = "_"%char.
Proof.
  intros E. apply Nat.eqb_eq in E.
  rewrite <- (ascii_nat_embedding c). unfold code in E. now rewrite E.
Qed.

Lemma all_space_lstrip (w s : string) :
  forallb_s int_space w = true -> int_lstrip (w ++ s) = int_lstrip s.
Proof.
  induction w as [|c w IH]; simpl; [reflexivity|].
  rewrite andb_true_iff. intros (-> & Hw). auto.
Qed.

Lemma all_space_rstrip (w : string) :
  forallb_s int_space w = true -> int_rstrip w = EmptyString.
Proof.
  induction w as [|c w IH]; simpl; [reflexivity|].
  rewrite andb_true_iff. intros (-> & Hw). now rewrite (IH Hw).
Qed.

Lemma int_lstrip_split (s : string) :
  exists before, s = (before ++ int_lstrip s)%string
                 /\ forallb_s int_space before = true.
Proof.
  induction s as [|c s (before & E & Hb)]; [exists EmptyString; auto|].
  simpl. destruct (int_space c) eqn:Ec.
  - exists (String c before). simpl. rewrite Ec, Hb. split; [now f_equal | reflexivity].
  - exists EmptyString. auto.
Qed.

Lemma int_rstrip_split (s : string) :
  exists after, s = (int_rstrip s ++ after)%string
                /\ forallb_s int_space after = true.
Proof.
  induction s as [|c s (after & E & Ha)]; [exists EmptyString; auto|].
  simpl. destruct (is_empty (int_rstrip s) && int_space c) eqn:Ec.
  - apply andb_true_iff in Ec. destruct Ec as (E1 & E2).
    destruct (int_rstrip s); [|discriminate]. simpl in E.
    exists (String c after). simpl. rewrite E2, Ha. split; [now f_equal | reflexivity].
  - exists after. simpl. split; [now f_equal | assumption].
Qed.

(** White space after a text that ends in another character is all
    that the right strip removes. *)
Lemma int_rstrip_keeps (x after : string) :
  is_empty x = false -> int_rstrip x = x -> forallb_s int_space after = true ->
  int_rstrip (x ++ after) = x.
Proof.
  induction x as [|c x IH]; [discriminate|]. intros _ Hx Ha. simpl in Hx |- *.
  destruct (is_empty (int_rstrip x) && int_space c) eqn:Ec; [discriminate|].
  injection Hx as Hx. destruct x as [|c' x].
  - simpl in Ec |- *. rewrite (all_space_rstrip _ Ha). simpl. now rewrite Ec.
  - rewrite (IH eq_refl Hx Ha). reflexivity.
Qed.

Lemma int_rstrip_after (x y : string) :
  is_empty y = false -> int_rstrip y = y -> int_rstrip (x ++ y) = (x ++ y)%string.
Proof.
  intros Hy E. induction x as [|c x IH]; [exact E|].
  simpl. rewrite IH. destruct (x ++ y)%string eqn:Exy; [|reflexivity].
  destruct x; [simpl in Exy; subst y|]; discriminate.
Qed.

Lemma int_rstrip_digits (s : string) : forallb_s is_digit s = true -> int_rstrip s = s.
Proof.
  induction s as [|c s IH]; simpl; [reflexivity|].
  rewrite andb_true_iff. intros (Hc & Hs).
  rewrite (IH Hs), (digit_not_int_space c Hc), andb_false_r. reflexivity.
Qed.

Lemma int_digits_all (s : string) (acc : Z) (count : nat) (after_digit : bool) :
  forallb_s is_digit s = true -> (is_empty s = false \/ after_digit = true) ->
  int_digits acc count after_digit s
  = Some (digits_value acc s, count + String.length s).
Proof.
  revert acc count after_digit. induction s as [|c s IH]; intros acc n b Hs Hb; simpl.
  - destruct Hb as [Hb| ->]; [discriminate | now rewrite Nat.add_0_r].
  - simpl in Hs. apply andb_true_iff in Hs. destruct Hs as (Hc & Hs).
    rewrite Hc, IH by auto. do 2 f_equal. lia.
Qed.

Lemma all_decimal_parts (d : string) :
  all_decimal d = true -> is_empty d = false /\ forallb_s is_digit d = true.
Proof.
  unfold all_decimal. rewrite andb_true_iff, negb_true_iff. auto.
Qed.

Lemma digits_value_sapp (a b : string) (acc : Z) :
  digits_value acc (a ++ b) = digits_value (digits_value acc a) b.
Proof.
  revert acc. induction a as [|c a IH]; intros acc; simpl; [reflexivity | apply IH].
Qed.

Lemma int_digits_digit (c : ascii) (s : string) (acc : Z) (count : nat) (b : bool) :
  is_digit c = true ->
  int_digits acc count b (String c s)
  = int_digits (10 * acc + digit_val c)%Z (S count) true s.
Proof. intros H. cbn [int_digits]. now rewrite H. Qed.

Lemma int_digits_underscore (s : string) (acc : Z) (count : nat) :
  int_digits acc count true (String "_" s) = int_digits acc count false s.
Proof. reflexivity. Qed.

(** The digit loop of [int] on groups of digits. *)
Lemma int_digits_of_groups (body digits : string) :
  digit_groups body digits ->
  forall acc count after_digit,
    int_digits acc count after_digit body
    = Some (digits_value acc digits, count + String.length digits).
Proof.
  induction 1 as [d Hd | d rest digits Hd Hg IH]; intros acc count b.
  - apply all_decimal_parts in Hd. destruct Hd as (Hne & Hd).
    apply int_digits_all; auto.
  - apply all_decimal_parts in Hd. destruct Hd as (Hne & Hd).
    revert acc count b. induction d as [|c d IHd]; [discriminate|].
    intros acc count b. simpl in Hd. apply andb_true_iff in Hd. destruct Hd as (Hc & Hd).
    cbn [append]. rewrite (int_digits_digit _ _ _ _ _ Hc). destruct d as [|c' d].
    + cbn [append]. rewrite int_digits_underscore, IH.
      cbn [digits_value String.length]. do 2 f_equal. lia.
    + rewrite (IHd eq_refl Hd). cbn [append digits_value String.length].
      do 2 f_equal. lia.
Qed.

(** What the digit loop accepts is made of groups of digits; [pre] is
    the part of the current group already read. *)
Lemma int_digits_groups (s : string) :
  forall pre acc count after_digit z n,
    forallb_s is_digit pre = true -> after_digit = negb (is_empty pre) ->
    int_digits acc count after_digit s = Some (z, n) ->
    exists digits,
      digit_groups (pre ++ s) (pre ++ digits)
      /\ z = digits_value acc digits /\ n = count + String.length digits.
Proof.
  induction s as [|c s IH]; intros pre acc count b z n Hpre Hb.
  - cbn. destruct b; [|discriminate]. intros [= <- <-]. exists EmptyString.
    split; [|split; [reflexivity | cbn; lia]].
    apply one_group. rewrite sapp_nil_r. unfold all_decimal.
    rewrite Hpre, <- Hb. reflexivity.
  - cbn [int_digits]. destruct (is_digit c) eqn:Ec.
    + intros H. apply (IH (pre ++ String c "")%string) in H.
      * destruct H as (digits & Hg & Hz & Hn). exists (String c digits).
        rewrite !sapp_assoc in Hg. split; [exact Hg|].
        split; [exact Hz | cbn; lia].
      * rewrite forallb_sapp, Hpre. cbn. now rewrite Ec.
      * destruct pre; reflexivity.
    + destruct (code c =? 95) eqn:Eu; cbn [andb]; [|discriminate].
      destruct b; [|discriminate]. intros H.
      apply (IH EmptyString) in H; [|reflexivity|reflexivity].
      destruct H as (digits & Hg & Hz & Hn). exists digits.
      apply underscore_code in Eu. subst c.
      split; [|split; assumption].
      apply (more_groups pre s digits); [|exact Hg].
      unfold all_decimal. rewrite Hpre, <- Hb. reflexivity.
Qed.

Lemma groups_start (body digits : string) :
  digit_groups body digits ->
  exists c rest, body = String c rest /\ is_digit c = true.
Proof.
  intros H. assert (Hd : exists d t, body = (d ++ t)%string /\ all_decimal d = true).
  { destruct H as [d Hd | d rest digits Hd _].
    - exists d, EmptyString. now rewrite sapp_nil_r.
    - eauto. }
  destruct Hd as (d & t & -> & Hd). apply all_decimal_parts in Hd.
  destruct Hd as (Hne & Hd). destruct d as [|c d]; [discriminate|].
  simpl in Hd. apply andb_true_iff in Hd. exists c, (d ++ t)%string. tauto.
Qed.

Lemma groups_end (body digits : string) :
  digit_groups body digits -> int_rstrip body = body.
Proof.
  induction 1 as [d Hd | d rest digits Hd Hg IH].
  - apply all_decimal_parts in Hd. now apply int_rstrip_digits.
  - destruct (groups_start _ _ Hg) as (c & r & E & _).
    apply int_rstrip_after.
    + reflexivity.
    + change ("_" ++ rest)%string with (String "_" rest).
      change (String "_" rest) with ("_" ++ rest)%string.
      apply (int_rstrip_after "_" rest); [now rewrite E | exact IH].
Qed.

Lemma groups_length (body digits : string) :
  digit_groups body digits -> String.length digits <= String.length body.
Proof.
  induction 1 as [d Hd | d rest digits Hd Hg IH]; [lia|].
  rewrite !length_sapp. cbn. lia.
Qed.

(** [int] accepts exactly the literals of the grammar, with their
    value. *)
Lemma py_int_literal (s : string) (z : Z) : py_int s = Some z <-> int_literal s z.
Proof.
  split.
  - unfold py_int. intros H.
    destruct (int_lstrip_split s) as (before & Es & Hb).
    destruct (int_rstrip_split (int_lstrip s)) as (after & Ec & Ha).
    destruct (int_rstrip (int_lstrip s)) as [|c body] eqn:Ecore; [discriminate|].
    assert (Hlim : forall b z', within_limit (int_digits 0 0 false b) = Some z' ->
              exists digits, digit_groups b digits
                             /\ String.length digits <= int_max_str_digits
                             /\ z' = int_of_digits digits).
    { intros b z' Hw. unfold within_limit in Hw.
      destruct (int_digits 0 0 false b) as [[v n]|] eqn:Ed; [|discriminate].
      destruct (n <=? int_max_str_digits) eqn:En; [|discriminate].
      injection Hw as <-. apply Nat.leb_le in En.
      apply (int_digits_groups b EmptyString) in Ed; [|reflexivity|reflexivity].
      destruct Ed as (digits & Hg & Hz & Hn). exists digits.
      cbn in Hg, Hn. subst n. auto. }
    destruct (Ascii.eqb_spec c "+") as [->|N1].
    { apply Hlim in H. destruct H as (digits & Hg & Hl & ->).
      exists before, "+"%string, body, after, digits, false.
      rewrite Es at 1. rewrite Ec. repeat split; auto. constructor. }
    destruct (Ascii.eqb_spec c "-") as [->|N2].
    { destruct (within_limit (int_digits 0 0 false body)) as [z'|] eqn:Ew; [|discriminate].
      injection H as <-. apply Hlim in Ew. destruct Ew as (digits & Hg & Hl & ->).
      exists before, "-"%string, body, after, digits, true.
      rewrite Es at 1. rewrite Ec. repeat split; auto. constructor. }
    apply Hlim in H. destruct H as (digits & Hg & Hl & ->).
    exists before, EmptyString, (String c body), after, digits, false.
    rewrite Es at 1. rewrite Ec. repeat split; auto. constructor.
  - intros (before & sign & body & after & digits & negative
            & -> & Hb & Ha & Hs & Hg & Hl & ->).
    destruct (groups_start _ _ Hg) as (c & rest & Ebody & Hc).
    pose proof (groups_end _ _ Hg) as Hend.
    pose proof (int_digits_of_groups _ _ Hg 0%Z 0 false) as Hd.
    assert (Hw : within_limit (int_digits 0 0 false body) = Some (int_of_digits digits)).
    { rewrite Hd. unfold within_limit. cbn [Nat.add].
      apply Nat.leb_le in Hl. now rewrite Hl. }
    assert (Hcore : int_rstrip (int_lstrip (before ++ sign ++ body ++ after))
                    = (sign ++ body)%string).
    { rewrite all_space_lstrip by exact Hb.
      assert (Hfirst : int_lstrip (sign ++ body ++ after) = (sign ++ body ++ after)%string).
      { destruct Hs; cbn [append]; try reflexivity.
        rewrite Ebody. cbn [append int_lstrip].
        now rewrite (digit_not_int_space c Hc). }
      rewrite Hfirst, <- sapp_assoc. apply int_rstrip_keeps; [| |exact Ha].
      - destruct Hs; [rewrite Ebody| |]; reflexivity.
      - apply int_rstrip_after; [now rewrite Ebody | exact Hend]. }
    unfold py_int. rewrite Hcore.
    destruct Hs; cbn [append].
    + rewrite Ebody. destruct (digit_not_sign c Hc) as (-> & -> & _).
      rewrite <- Ebody. exact Hw.
    + cbn. exact Hw.
    + cbn. rewrite Hw. reflexivity.
Qed.

(** A string of digits within the limit is read as its value. *)
Lemma py_int_digits (s : string) : numeral s = true -> py_int s = Some (int_of_digits s).
Proof.
  unfold numeral. rewrite andb_true_iff, Nat.leb_le. intros (Hd & Hl).
  apply py_int_literal.
  exists EmptyString, EmptyString, s, EmptyString, s, false.
  cbn [append]. rewrite sapp_nil_r. repeat split; auto; constructor. exact Hd.
Qed.

Lemma resolver_ignores_year (urlparse : string -> option (string * string))
    (priority : list string) (e : BibTeXEntry.t) (y : option Z) :
  _extract_best_identifier urlparse priority (with_year e y)
  = _extract_best_identifier urlparse priority e.
Proof.
  unfold _extract_best_identifier.
  assert (H : priority_loop urlparse (with_year e y) priority
              = priority_loop urlparse e priority).
  { induction priority as [|f rest IH]; simpl; [reflexivity|].
    now rewrite IH. }
  now rewrite H.
Qed.

(** Without a year the date step returns no date, whatever the month
    and day fields hold. *)
Lemma no_year_no_date (year : option Z) (month day : option string) :
  nonzero year = false -> generate_publication_date year month day = inl None.
Proof.
  unfold nonzero, generate_publication_date.
  destruct year as [y|]; [|reflexivity].
  destruct (Z.eqb_spec y 0) as [->|N]; [reflexivity|].
  destruct y; [congruence|discriminate|discriminate].
Qed.

(** An entry that converts with some year converts without one. *)
Lemma missing_year_succeeds (clean_bibtex_field : string -> string)
    (urlparse : string -> option (string * string)) (priority : list string)
    (e : BibTeXEntry.t) (y : option Z) :
  nonzero (BibTeXEntry.year e) = false ->
  ConversionResult.success
    (convert_entry clean_bibtex_field urlparse priority (with_year e y)) = true ->
  ConversionResult.success (convert_entry clean_bibtex_field urlparse priority e) = true.
Proof.
  intros Hy. unfold convert_entry. rewrite resolver_ignores_year.
  destruct (_extract_best_identifier urlparse priority e) as [ot [v|]]; [|auto].
  destruct (is_empty v); [auto|].
  destruct ot as [t|]; [|auto].
  rewrite (no_year_no_date _ _ _ Hy).
  destruct (generate_publication_date _ _ _) as [d|ex]; [|discriminate].
  unfold new_citation. cbn [ManubotCitation.id].
  destruct (validate_manubot_id (value t ++ ":" ++ v)); auto.
Qed.

Lemma missing_year_warns (clean_bibtex_field : string -> string)
    (urlparse : string -> option (string * string)) (priority : list string)
    (e : BibTeXEntry.t) :
  nonzero (BibTeXEntry.year e) = false ->
  ConversionResult.success (convert_entry clean_bibtex_field urlparse priority e) = true ->
  ConversionResult.errors (convert_entry clean_bibtex_field urlparse priority e) = []
  /\ In "No publication year found"
        (ConversionResult.warnings (convert_entry clean_bibtex_field urlparse priority e)).
Proof.
  intros Hy. unfold convert_entry.
  destruct (_extract_best_identifier urlparse priority e) as [ot [v|]]; [|discriminate].
  destruct (is_empty v); [discriminate|].
  destruct ot as [t|]; [|discriminate].
  destruct (generate_publication_date _ _ _) as [d|ex]; [|discriminate].
  destruct (new_citation _) as [c|msg]; [|discriminate].
  intros _. split; [reflexivity|]. simpl. unfold entry_warnings. rewrite Hy.
  apply in_or_app. right. apply in_or_app. right. now left.
Qed.

Lemma year_of_field_int (y : string) : year_of_field y = py_int y.
Proof. reflexivity. Qed.

(** C9, as the claim states it, fails: a year field with a sign and
    surrounding white space is not left absent. *)
Lemma year_accepts_sign_and_space :
  isdigit " +2020 " = false /\ year_of_field " +2020 " = Some 2020%Z.
Proof. split; reflexivity. Qed.

(** C9 (amended).  Record normalization reads the year with Python's
    [int], which accepts exactly: optional white space, an optional
    sign, decimal digits in groups joined by single underscores,
    optional white space, with at most 4300 digits; the year is then
    the value of the digits, negated after a minus sign.  So a string
    fully composed of decimal digits is accepted with its value, and so
    is one with surrounding white space, a leading sign or single
    underscores between digits.  Every other form of the field leaves
    the year absent: words, mixed text, digits separated by a space, a
    leading, trailing or doubled underscore, two signs, a sign apart
    from its digits, a superscript digit; so does a missing field.  A
    missing year is never an error, only a warning: the date step then
    returns no date, an entry that converts with some year converts
    without one, and the successful result has no error and carries
    the warning ["No publication year found"]. *)
Theorem year_parsing_spec :
  (forall y z, year_of_field y = Some z <-> int_literal y z)
  /\ (forall y, all_decimal y = true -> String.length y <= 4300 ->
        year_of_field y = Some (int_of_digits y))
  /\ (year_of_field "+2020" = Some 2020%Z
      /\ year_of_field " 2020 " = Some 2020%Z
      /\ year_of_field "-44" = Some (-44)%Z
      /\ year_of_field "2_020" = Some 2020%Z)
  /\ (year_of_field "in press" = None
      /\ year_of_field "2020a" = None
      /\ year_of_field "c. 2020" = None
      /\ year_of_field "" = None
      /\ year_of_field "20 20" = None
      /\ year_of_field "2020_" = None
      /\ year_of_field "_2020" = None
      /\ year_of_field "5__0" = None
      /\ year_of_field "+-5" = None
      /\ year_of_field "- 5" = None
      /\ year_of_field (String (ascii_of_nat 178) "") = None)
  /\ (forall key entry_type fields,
        get "year" (lower_keys fields) = None ->
        BibTeXEntry.year (new_entry key entry_type fields) = None)
  /\ (forall year month day,
        nonzero year = false -> generate_publication_date year month day = inl None)
  /\ (forall clean_bibtex_field urlparse priority e y,
        nonzero (BibTeXEntry.year e) = false ->
        ConversionResult.success
          (convert_entry clean_bibtex_field urlparse priority (with_year e y)) = true ->
        ConversionResult.success
          (convert_entry clean_bibtex_field urlparse priority e) = true)
  /\ (forall clean_bibtex_field urlparse priority e,
        nonzero (BibTeXEntry.year e) = false ->
        ConversionResult.success
          (convert_entry clean_bibtex_field urlparse priority e) = true ->
        ConversionResult.errors
          (convert_entry clean_bibtex_field urlparse priority e) = []
        /\ In "No publication year found"
              (ConversionResult.warnings
                 (convert_entry clean_bibtex_field urlparse priority e))).
Proof.
  split; [intros y z; rewrite year_of_field_int; apply py_int_literal|].
  split; [intros y Hy Hl; rewrite year_of_field_int; apply py_int_digits;
          unfold numeral; rewrite Hy; now apply Nat.leb_le|].
  split; [repeat split|].
  split; [repeat split|].
  split; [intros key entry_type fields H; simpl; unfold parse_year; now rewrite H|].
  split; [exact no_year_no_date|].
  split; [intros; eapply missing_year_succeeds; eauto|].
  intros. now apply missing_year_warns.
Qed.

Lemma year_parsing_witness :
  year_of_field "1999" = Some 1999%Z
  /\ In "No publication year found"
        (ConversionResult.warnings
           (convert_entry Samples.clean_bibtex_field Samples.urlparse ["doi"]
              Samples.both_ids)).
Proof.
  destruct year_parsing_spec as (_ & H1 & _ & _ & _ & _ & _ & H2). split.
  - apply (H1 "1999"); [reflexivity | cbn; lia].
  - apply (H2 Samples.clean_bibtex_field Samples.urlparse ["doi"] Samples.both_ids);
      reflexivity.
Defined.

End YearFacts.

(* ================================================================== *)
(** ** Publication dates *)
(* ================================================================== *)

Module DateFacts.
Import Py Re Utils Models Converter Spec.

(** A property checked on a whole range of integers by evaluation. *)
Lemma range_forallb (P : Z -> bool) (lo : Z) (n : nat) :
  forallb P (map (fun i => (lo + Z.of_nat i)%Z) (List.seq 0 n)) = true ->
  forall k, (lo <= k < lo + Z.of_nat n)%Z -> P k = true.
Proof.
  intros H k Hk. rewrite forallb_forall in H. apply H.
  apply in_map_iff. exists (Z.to_nat (k - lo)). split; [lia|].
  apply in_seq. lia.
Qed.

Lemma lookup_In (k v : string) (m : list (string * string)) :
  lookup k m = Some v -> In (k, v) m.
Proof.
  induction m as [|[k' v'] m IH]; simpl; [discriminate|].
  destruct (String.eqb_spec k' k) as [->|NE].
  - intros H. injection H as ->. now left.
  - intros H. right. now apply IH.
Qed.

Lemma In_lookup (k v : string) (m : list (string * string)) :
  NoDup (map fst m) -> In (k, v) m -> lookup k m = Some v.
Proof.
  induction m as [|[k' v'] m IH]; simpl; [contradiction|].
  intros Hnd [H|H]; inversion Hnd as [|? ? Hnot Hnd']; subst.
  - injection H as -> ->. now rewrite String.eqb_refl.
  - destruct (String.eqb_spec k' k) as [->|NE]; [|now apply IH].
    exfalso. apply Hnot. change k with (fst (k, v)). now apply in_map.
Qed.

Lemma month_mapping_names :
  month_mapping = map (fun nk => (fst nk, fmt_02d (snd nk))) month_names.
Proof. reflexivity. Qed.

Lemma month_mapping_keys : NoDup (map fst month_mapping).
Proof.
  assert (H : forall l : list string,
             (fix nodup (l : list string) : bool :=
                match l with
                | [] => true
                | x :: l' => negb (mem_str x l') && nodup l'
                end) l = true -> NoDup l).
  { induction l as [|x l IH]; intros E; constructor.
    - apply andb_true_iff in E. destruct E as (E & _). apply negb_true_iff in E.
      intros Hin. unfold mem_str in E.
      assert (E' : existsb (String.eqb x) l = true).
      { apply existsb_exists. exists x. split; [assumption|apply String.eqb_refl]. }
      congruence.
    - apply IH. apply andb_true_iff in E. tauto. }
  apply H. vm_compute. reflexivity.
Qed.

Lemma month_names_range (name : string) (k : Z) :
  In (name, k) month_names -> (1 <= k <= 12)%Z.
Proof.
  intros H.
  assert (F : Forall (fun nk => (1 <= snd nk <= 12)%Z) month_names)
    by (repeat constructor; simpl; lia).
  rewrite Forall_forall in F. apply (F (name, k) H).
Qed.

Lemma lookup_month_name (name : string) (k : Z) :
  In (name, k) month_names -> lookup name month_mapping = Some (fmt_02d k).
Proof.
  intros H. apply In_lookup; [apply month_mapping_keys|].
  rewrite month_mapping_names. apply in_map_iff. now exists (name, k).
Qed.

Lemma lookup_month_found (name v : string) :
  lookup name month_mapping = Some v ->
  exists k, In (name, k) month_names /\ v = fmt_02d k.
Proof.
  intros H. apply lookup_In in H. rewrite month_mapping_names in H.
  apply in_map_iff in H. destruct H as ([n k] & E & Hin). simpl in E.
  injection E as -> <-. now exists k.
Qed.

Lemma month_name_not_empty (k : Z) : ~ In (EmptyString, k) month_names.
Proof.
  intros H. apply (in_map fst) in H. simpl in H.
  repeat (destruct H as [H|H]; [discriminate|]). exact H.
Qed.

Lemma numeral_isdigit (s : string) : numeral s = true -> isdigit s = true.
Proof.
  unfold numeral, all_decimal, isdigit.
  rewrite !andb_true_iff. intros ((Hne & Hd) & _). split; [exact Hne|].
  clear Hne. induction s as [|c s IH]; [reflexivity|].
  simpl in Hd |- *. apply andb_true_iff in Hd. destruct Hd as (Hc & Hd).
  rewrite (IH Hd), andb_true_r. unfold is_digit_like. now rewrite Hc.
Qed.

Lemma leading_digits_all (s : string) :
  forallb_s is_digit s = true -> leading_digits s = String.length s.
Proof.
  induction s as [|c s IH]; simpl; [reflexivity|].
  rewrite andb_true_iff. intros (-> & Hs). now rewrite IH.
Qed.

(** [int] on a string that passed [isdigit]: the value of a numeric
    string, an exception otherwise. *)
Lemma int_of_isdigit_numeral (s : string) :
  numeral s = true -> int_of_isdigit s = inl (int_of_digits s).
Proof.
  unfold numeral, all_decimal. rewrite !andb_true_iff, Nat.leb_le.
  intros ((_ & Hd) & Hl). unfold int_of_isdigit.
  rewrite (leading_digits_all _ Hd), Hd.
  destruct (Nat.ltb_spec int_max_str_digits (String.length s)); [lia | reflexivity].
Qed.

Lemma int_of_isdigit_raises (s : string) :
  isdigit s = true -> numeral s = false -> exists e, int_of_isdigit s = inr e.
Proof.
  intros Hi Hn. unfold int_of_isdigit.
  destruct (int_max_str_digits <? leading_digits s) eqn:El; [eauto|].
  destruct (forallb_s is_digit s) eqn:Hd; [|eauto].
  exfalso. unfold numeral, all_decimal in Hn. rewrite Hd in Hn.
  unfold isdigit in Hi. apply andb_true_iff in Hi. destruct Hi as (Hne & _).
  rewrite Hne in Hn.
  rewrite (leading_digits_all _ Hd) in El. apply Nat.ltb_ge in El.
  apply Nat.leb_le in El. cbn [andb] in Hn. congruence.
Qed.

(** A string that passes [isdigit] is no month name. *)
Lemma isdigit_no_month (t : string) :
  isdigit t = true -> lookup t month_mapping = None.
Proof.
  intros Hd. destruct (lookup t month_mapping) as [v|] eqn:E; [|reflexivity].
  exfalso. apply lookup_In in E. apply (in_map fst) in E. simpl in E.
  destruct t as [|a t]; [discriminate|].
  unfold isdigit in Hd. simpl in Hd. apply andb_true_iff in Hd.
  destruct Hd as (Hd & _).
  repeat (destruct E as [E|E]; [injection E as <- _; discriminate|]).
  exact E.
Qed.

Lemma parse_month_reads (month : option string) (k : Z) :
  month_reads month k -> parse_month month = inl (fmt_02d k).
Proof.
  intros (s & -> & H). unfold parse_month.
  destruct s as [|c s].
  - exfalso. destruct H as [H|(H & _)].
    + now apply month_name_not_empty in H.
    + discriminate.
  - cbn [truthy is_empty negb].
    destruct H as [H|(Hd & Hr & ->)].
    + now rewrite (lookup_month_name _ _ H).
    + rewrite (isdigit_no_month _ (numeral_isdigit _ Hd)), (numeral_isdigit _ Hd),
        (int_of_isdigit_numeral _ Hd).
      destruct Hr as (H1 & H2).
      apply Z.leb_le in H1, H2. now rewrite H1, H2.
Qed.

(** The month step returns June for a field that does not read as a
    month, unless it is misread. *)
Lemma parse_month_default (month : option string) (v : string) :
  (forall k, ~ month_reads month k) -> parse_month month = inl v -> v = fmt_02d 6.
Proof.
  intros H. unfold parse_month. destruct month as [s|]; [|now intros [= <-]].
  destruct (truthy (Some s)); [|now intros [= <-]].
  destruct (lookup (lower (strip s)) month_mapping) as [w|] eqn:E.
  - exfalso. apply lookup_month_found in E. destruct E as (k & Hin & _).
    apply (H k). exists s. auto.
  - destruct (isdigit (lower (strip s))) eqn:Ed; [|now intros [= <-]].
    destruct (numeral (lower (strip s))) eqn:En.
    + rewrite (int_of_isdigit_numeral _ En).
      destruct (Z.leb_spec 1 (int_of_digits (lower (strip s))));
        destruct (Z.leb_spec (int_of_digits (lower (strip s))) 12);
        cbn [andb]; try (now intros [= <-]).
      exfalso. apply (H (int_of_digits (lower (strip s)))). exists s.
      split; [reflexivity|]. right. auto.
    + destruct (int_of_isdigit_raises _ Ed En) as (e & ->). discriminate.
Qed.


Lemma parse_day_reads (day : option string) (j : Z) :
  day_reads day j -> parse_day day = inl (fmt_02d j).
Proof.
  intros (s & -> & Hd & (H1 & H2) & ->). unfold parse_day.
  destruct s as [|c s]; [discriminate|].
  cbn [truthy is_empty negb].
  rewrite (numeral_isdigit _ Hd), (int_of_isdigit_numeral _ Hd).
  apply Z.leb_le in H1, H2. now rewrite H1, H2.
Qed.

Lemma parse_day_default (day : option string) (v : string) :
  (forall j, ~ day_reads day j) -> parse_day day = inl v -> v = fmt_02d 15.
Proof.
  intros H. unfold parse_day. destruct day as [s|]; [|now intros [= <-]].
  destruct (truthy (Some s)); [|now intros [= <-]].
  destruct (isdigit (strip s)) eqn:Ed; [|now intros [= <-]].
  destruct (numeral (strip s)) eqn:En.
  - rewrite (int_of_isdigit_numeral _ En).
    destruct (Z.leb_spec 1 (int_of_digits (strip s)));
      destruct (Z.leb_spec (int_of_digits (strip s)) 31);
      cbn [andb]; try (now intros [= <-]).
    exfalso. apply (H (int_of_digits (strip s))). exists s. auto.
  - destruct (int_of_isdigit_raises _ Ed En) as (e & ->). discriminate.
Qed.


(** The month used is between 1 and 12, and it is what the month step
    returns whenever it returns. *)
Lemma month_used_range (month : option string) (k : Z) :
  month_used month k ->
  (1 <= k <= 12)%Z /\ (forall v, parse_month month = inl v -> v = fmt_02d k).
Proof.
  intros [H|(H & ->)].
  - split; [|intros v Hv; rewrite (parse_month_reads _ _ H) in Hv; congruence].
    destruct H as (s & _ & [H|(_ & H & ->)]); [|exact H].
    now apply month_names_range in H.
  - split; [lia | intros v; now apply parse_month_default].
Qed.

Lemma day_used_range (day : option string) (j : Z) :
  day_used day j ->
  (1 <= j <= 31)%Z /\ (forall v, parse_day day = inl v -> v = fmt_02d j).
Proof.
  intros [H|(H & ->)].
  - split; [|intros v Hv; rewrite (parse_day_reads _ _ H) in Hv; congruence].
    destruct H as (s & _ & _ & H & ->). exact H.
  - split; [lia | intros v; now apply parse_day_default].
Qed.

Lemma int_of_fmt_02d (k : Z) : (1 <= k <= 31)%Z -> int_of_digits (fmt_02d k) = k.
Proof.
  intros H. apply Z.eqb_eq.
  apply (range_forallb (fun k => (int_of_digits (fmt_02d k) =? k)%Z) 1 31);
    [vm_compute; reflexivity | lia].
Qed.

(** The three-way choice of the [except] branch, by month number. *)
Lemma clamp_by_month (k : Z) :
  (1 <= k <= 12)%Z ->
  (if mem_str (fmt_02d k) ["02"] then "28"
   else if mem_str (fmt_02d k) ["04"; "06"; "09"; "11"] then "30"
   else "31") = fmt_02d (last_day k).
Proof.
  intros H. apply String.eqb_eq.
  apply (range_forallb
           (fun k => String.eqb
                       (if mem_str (fmt_02d k) ["02"] then "28"
                        else if mem_str (fmt_02d k) ["04"; "06"; "09"; "11"] then "30"
                        else "31")
                       (fmt_02d (last_day k))) 1 12);
    [vm_compute; reflexivity | lia].
Qed.

Lemma month_used_total (month : option string) : exists k, month_used month k.
Proof.
  destruct month as [s|].
  - destruct (lookup (lower (strip s)) month_mapping) as [v|] eqn:E.
    + apply lookup_month_found in E. destruct E as (k & Hin & _).
      exists k. left. exists s. auto.
    + destruct (numeral (lower (strip s))) eqn:Ed.
      * destruct (Z.leb_spec 1 (int_of_digits (lower (strip s)))) as [H1|H1].
        -- destruct (Z.leb_spec (int_of_digits (lower (strip s))) 12) as [H2|H2].
           ++ exists (int_of_digits (lower (strip s))). left. exists s.
              split; [reflexivity|]. right. auto.
           ++ exists 6%Z. right. split; [|reflexivity].
              intros k (s' & Es & [Hin|(_ & Hr & _)]); injection Es as <-.
              ** apply lookup_month_name in Hin. congruence.
              ** lia.
        -- exists 6%Z. right. split; [|reflexivity].
           intros k (s' & Es & [Hin|(_ & Hr & _)]); injection Es as <-.
           ++ apply lookup_month_name in Hin. congruence.
           ++ lia.
      * exists 6%Z. right. split; [|reflexivity].
        intros k (s' & Es & [Hin|(Hd & _)]); injection Es as <-.
        -- apply lookup_month_name in Hin. congruence.
        -- congruence.
  - exists 6%Z. right. split; [|reflexivity]. intros k (s & Es & _). discriminate.
Qed.

Lemma day_used_total (day : option string) : exists j, day_used day j.
Proof.
  destruct day as [s|].
  - destruct (numeral (strip s)) eqn:Ed.
    + destruct (Z.leb_spec 1 (int_of_digits (strip s))) as [H1|H1].
      * destruct (Z.leb_spec (int_of_digits (strip s)) 31) as [H2|H2].
        -- exists (int_of_digits (strip s)). left. exists s. auto.
        -- exists 15%Z. right. split; [|reflexivity].
           intros j (s' & Es & _ & Hr & _). injection Es as <-. lia.
      * exists 15%Z. right. split; [|reflexivity].
        intros j (s' & Es & _ & Hr & _). injection Es as <-. lia.
    + exists 15%Z. right. split; [|reflexivity].
      intros j (s' & Es & Hd & _). injection Es as <-. congruence.
  - exists 15%Z. right. split; [|reflexivity]. intros j (s & Es & _). discriminate.
Qed.

(** The date constructor on a year that fits a C [int]: the date is
    built, or [ValueError] is raised. *)
Lemma datetime_fits (y m d : Z) :
  fits_c_int y = true ->
  datetime y m d = inl tt /\ datetime_ok y m d = true
  \/ (exists msg, datetime y m d = inr (ValueError msg)) /\ datetime_ok y m d = false.
Proof.
  intros Hy. unfold datetime. rewrite Hy.
  assert (Hl : fits_c_long y = true).
  { unfold fits_c_int, fits_c_long in *. apply andb_true_iff in Hy.
    destruct Hy as (H1 & H2). apply Z.leb_le in H1. apply Z.ltb_lt in H2.
    apply andb_true_iff. split; [apply Z.leb_le | apply Z.ltb_lt].
    - assert (- 2 ^ 63 <= - 2 ^ 31)%Z by (vm_compute; discriminate). lia.
    - assert (2 ^ 31 <= 2 ^ 63)%Z by (vm_compute; discriminate). lia. }
  rewrite Hl. cbn [negb].
  destruct (datetime_ok y m d); [left; auto|right].
  split; [|reflexivity]. destruct ((1 <=? y) && (y <=? 9999))%Z; eauto.
Qed.

(** The date constructor raises [OverflowError] exactly for a year
    that does not fit a C [int]. *)
Lemma datetime_overflows (y m d : Z) :
  fits_c_int y = false -> exists msg, datetime y m d = inr (OverflowError msg).
Proof.
  intros Hy. unfold datetime. rewrite Hy.
  destruct (fits_c_long y); cbn [negb]; eauto.
Qed.

(** Whatever date the function returns is the year with the month and
    the day used, the day replaced when the constructor rejects the
    date. *)
Lemma date_when_returned (y : Z) (month day : option string) (k j : Z)
    (r : option string) :
  y <> 0%Z -> month_used month k -> day_used day j ->
  generate_publication_date (Some y) month day = inl r ->
  r = Some (date_text y (fmt_02d k)
              (fmt_02d (if datetime_ok y k j then j else last_day k))).
Proof.
  intros Hy Hm Hd.
  apply month_used_range in Hm. destruct Hm as (Hk & Em).
  apply day_used_range in Hd. destruct Hd as (Hj & Ed).
  unfold generate_publication_date.
  destruct (Z.eqb_spec y 0) as [E|_]; [contradiction|].
  destruct (parse_month month) as [v|e]; [|discriminate].
  destruct (parse_day day) as [w|e]; [|discriminate].
  rewrite (Em v eq_refl), (Ed w eq_refl), (clamp_by_month k Hk).
  rewrite (int_of_fmt_02d k) by lia. rewrite (int_of_fmt_02d j) by lia.
  destruct (fits_c_int y) eqn:Ef.
  - destruct (datetime_fits y k j Ef) as [(-> & ->)|((msg & ->) & ->)];
      now intros [= <-].
  - destruct (datetime_overflows y k j Ef) as (msg & ->). discriminate.
Qed.




(** C6, as the claim states it, fails.  For the year 10000 the 15th of
    June is a day of the calendar, yet the day is replaced by the 30th.
    The year 0 is not absent, yet there is no date.  A month field that
    holds a superscript two is not parseable, yet June does not stand
    in for it: the function raises. *)
Lemma publication_date_claim_fails :
  (calendar_day 10000 6 15
   /\ generate_publication_date (Some 10000%Z) None None = inl (Some "10000-06-30"))
  /\ generate_publication_date (Some 0%Z) None (Some "15") = inl None
  /\ generate_publication_date (Some 2021%Z) (Some (String (ascii_of_nat 178) "")) None
     = inr (ValueError ("invalid literal for int() with base 10: '"
                        ++ String (ascii_of_nat 178) "'")).
Proof.
  split; [split; [|reflexivity]|split; reflexivity].
  split; [lia|]. right. left. split; [simpl; tauto | lia].
Qed.



End DateFacts.

(* ================================================================== *)
(** ** Ordering of the written citations *)
(* ================================================================== *)

Module SortFacts.
Import Py Re Utils Models Converter Spec.

Lemma ascii_compare_refl (a : ascii) : Ascii.compare a a = Eq.
Proof. unfold Ascii.compare. apply N.compare_refl. Qed.

Lemma ascii_compare_lt_trans (a b c : ascii) :
  Ascii.compare a b = Lt -> Ascii.compare b c = Lt -> Ascii.compare a c = Lt.
Proof.
  unfold Ascii.compare. rewrite !N.compare_lt_iff. apply N.lt_trans.
Qed.

Lemma string_compare_refl (s : string) : String.compare s s = Eq.
Proof.
  induction s as [|c s IH]; simpl; [reflexivity|].
  now rewrite ascii_compare_refl.
Qed.

Lemma string_compare_lt_trans (s1 s2 s3 : string) :
  String.compare s1 s2 = Lt -> String.compare s2 s3 = Lt -> String.compare s1 s3 = Lt.
Proof.
  revert s2 s3. induction s1 as [|a s1 IH]; intros [|b s2] [|c s3]; simpl;
    try discriminate; try reflexivity.
  destruct (Ascii.compare a b) eqn:Eab; try discriminate.
  - apply Ascii.compare_eq_iff in Eab. subst b.
    destruct (Ascii.compare a c) eqn:Eac; try discriminate; try reflexivity.
    apply IH.
  - destruct (Ascii.compare b c) eqn:Ebc; try discriminate.
    + apply Ascii.compare_eq_iff in Ebc. subst c. now rewrite Eab.
    + now rewrite (ascii_compare_lt_trans a b c Eab Ebc).
Qed.

Lemma string_leb_refl (s : string) : String.leb s s = true.
Proof. unfold String.leb. now rewrite string_compare_refl. Qed.

Lemma string_leb_trans (s1 s2 s3 : string) :
  String.leb s1 s2 = true -> String.leb s2 s3 = true -> String.leb s1 s3 = true.
Proof.
  unfold String.leb.
  destruct (String.compare s1 s2) eqn:E12; try discriminate; intros _;
    destruct (String.compare s2 s3) eqn:E23; try discriminate; intros _.
  - apply String.compare_eq_iff in E12, E23. subst. now rewrite string_compare_refl.
  - apply String.compare_eq_iff in E12. subst. now rewrite E23.
  - apply String.compare_eq_iff in E23. subst. now rewrite E12.
  - now rewrite (string_compare_lt_trans s1 s2 s3 E12 E23).
Qed.

Lemma key_leb_refl (a : Z * string) : key_leb a a = true.
Proof.
  unfold key_leb. rewrite Z.eqb_refl, string_leb_refl. apply orb_true_r.
Qed.

Lemma key_leb_total (a b : Z * string) : key_leb a b = false -> key_leb b a = true.
Proof.
  unfold key_leb. destruct a as [x s], b as [y t]. simpl.
  rewrite orb_false_iff. intros (H1 & H2).
  apply Z.ltb_ge in H1.
  destruct (Z.eqb_spec x y) as [->|NE].
  - simpl in H2. rewrite Z.ltb_irrefl, Z.eqb_refl. simpl.
    destruct (String.leb_total s t) as [H|H]; congruence.
  - assert (Hlt : (y <? x)%Z = true) by (apply Z.ltb_lt; lia). now rewrite Hlt.
Qed.

Lemma key_leb_trans (a b c : Z * string) :
  key_leb a b = true -> key_leb b c = true -> key_leb a c = true.
Proof.
  unfold key_leb. destruct a as [x s], b as [y t], c as [z u]. simpl.
  rewrite !orb_true_iff, !andb_true_iff, !Z.ltb_lt, !Z.eqb_eq.
  intros [H1|(H1 & H1')] [H2|(H2 & H2')].
  - left. lia.
  - left. lia.
  - left. lia.
  - right. split; [lia|]. eapply string_leb_trans; eauto.
Qed.

Lemma key_eqb_eq (a b : Z * string) : key_eqb a b = true <-> a = b.
Proof.
  unfold key_eqb. destruct a as [x s], b as [y t]. simpl.
  rewrite andb_true_iff, Z.eqb_eq, String.eqb_eq. split.
  - intros (-> & ->). reflexivity.
  - intros H. injection H as -> ->. auto.
Qed.

Section Sorting.

Variable A : Type.
Variable key : A -> Z * string.

Lemma insert_by_perm (x : A) (l : list A) : Permutation (insert_by key x l) (x :: l).
Proof.
  induction l as [|y l IH]; simpl; [apply Permutation_refl|].
  destruct (key_leb (key x) (key y)); [apply Permutation_refl|].
  eapply Permutation_trans; [apply perm_skip, IH | apply perm_swap].
Qed.

Lemma sort_by_perm (l : list A) : Permutation (sort_by key l) l.
Proof.
  induction l as [|x l IH]; simpl; [apply perm_nil|].
  eapply Permutation_trans; [apply insert_by_perm | now apply perm_skip].
Qed.

Lemma insert_by_sorted (x : A) (l : list A) :
  StronglySorted (key_le key) l -> StronglySorted (key_le key) (insert_by key x l).
Proof.
  induction l as [|y l IH]; intros Hs; simpl.
  - constructor; constructor.
  - inversion Hs as [|? ? Hs' Hall]; subst.
    destruct (key_leb (key x) (key y)) eqn:E.
    + constructor; [assumption|]. constructor; [exact E|].
      eapply Forall_impl; [|exact Hall]. intros z Hz.
      unfold key_le in *. eapply key_leb_trans; eauto.
    + constructor; [now apply IH|].
      apply Forall_forall. intros z Hz.
      apply (Permutation_in _ (insert_by_perm x l)) in Hz.
      destruct Hz as [<-|Hz].
      * now apply key_leb_total.
      * rewrite Forall_forall in Hall. now apply Hall.
Qed.

Lemma sort_by_sorted (l : list A) : StronglySorted (key_le key) (sort_by key l).
Proof.
  induction l as [|x l IH]; simpl; [constructor|]. now apply insert_by_sorted.
Qed.

(** Stability: the entries with a given key keep their relative order. *)
Lemma insert_by_stable (k : Z * string) (x : A) (l : list A) :
  filter (fun y => key_eqb (key y) k) (insert_by key x l)
  = filter (fun y => key_eqb (key y) k) (x :: l).
Proof.
  induction l as [|y l IH]; [reflexivity|].
  cbn [insert_by]. destruct (key_leb (key x) (key y)) eqn:E; [reflexivity|].
  cbn [filter] in *. rewrite IH.
  destruct (key_eqb (key x) k) eqn:Ex; [|reflexivity].
  destruct (key_eqb (key y) k) eqn:Ey; [|reflexivity].
  apply key_eqb_eq in Ex, Ey. rewrite Ex, Ey, key_leb_refl in E. discriminate.
Qed.

Lemma sort_by_stable (k : Z * string) (l : list A) :
  filter (fun y => key_eqb (key y) k) (sort_by key l)
  = filter (fun y => key_eqb (key y) k) l.
Proof.
  induction l as [|x l IH]; [reflexivity|].
  cbn [sort_by fold_right]. rewrite insert_by_stable.
  cbn [filter]. fold (sort_by key l). now rewrite IH.
Qed.

Lemma sorted_before (R : A -> A -> Prop) (l1 l2 l3 : list A) (a b : A) :
  StronglySorted R (l1 ++ a :: l2 ++ b :: l3) -> R a b.
Proof.
  induction l1 as [|x l1 IH]; simpl; intros H; inversion H as [|? ? Hs Hall]; subst.
  - rewrite Forall_forall in Hall. apply Hall. apply in_or_app. right. now left.
  - now apply IH.
Qed.

End Sorting.

Lemma sort_key_order (a b : CitationDict.t) :
  key_leb (sort_key a) (sort_key b) = true <->
  (year_or_0 b < year_or_0 a)%Z
  \/ (year_or_0 a = year_or_0 b
      /\ String.leb (lower (title_of a)) (lower (title_of b)) = true).
Proof.
  unfold key_leb, sort_key. simpl.
  rewrite orb_true_iff, andb_true_iff, Z.ltb_lt, Z.eqb_eq.
  split; (intros [H|(H & H')]; [left; lia | right; split; [lia|exact H']]).
Qed.

Lemma string_ltb_not_leb (s t : string) :
  String.ltb s t = true -> String.leb t s = false.
Proof.
  unfold String.ltb, String.leb. rewrite (String.compare_antisym t s).
  destruct (String.compare s t); simpl; congruence.
Qed.

(** C7, as the claim states it, fails: an entry without a year is
    sorted before an entry whose year is negative. *)
Lemma absent_year_not_last :
  ~ absent_years_last
      (sort_by sort_key
         [Samples.entry_of None (Some "Fragments");
          Samples.entry_of (Some (-350)%Z) (Some "Physics")]).
Proof.
  intros H.
  specialize (H [] (Samples.entry_of None (Some "Fragments")) []
                (Samples.entry_of (Some (-350)%Z) (Some "Physics")) [] eq_refl eq_refl).
  discriminate H.
Qed.

(** C7 (amended).  [save_yaml] sorts the citations that survive
    duplicate removal with a stable sort on the key
    [(-(year or 0), lower-cased title)]: the result is a permutation of
    its input, ordered by descending year (an absent year counting as
    0) and then by ascending lower-cased title, and entries with equal
    keys keep their relative order.  An entry without a year therefore
    comes after every entry with a positive year (not after entries
    with a negative year).  Years [2019, 2021, 2020] come out as
    [2021, 2020, 2019] whatever the titles, and two entries of the same
    year are ordered by ascending lower-cased title. *)
Theorem written_order (l : list CitationDict.t) :
  let out := sort_by sort_key l in
  Permutation out l
  /\ StronglySorted (key_le sort_key) out
  /\ (forall a b,
        key_le sort_key a b <->
        (year_or_0 b < year_or_0 a)%Z
        \/ (year_or_0 a = year_or_0 b
            /\ String.leb (lower (title_of a)) (lower (title_of b)) = true))
  /\ (forall k,
        filter (fun x => key_eqb (sort_key x) k) out
        = filter (fun x => key_eqb (sort_key x) k) l)
  /\ absent_years_after_positive out
  /\ (forall include_metadata conversions,
        save_yaml include_metadata conversions
        = sort_by sort_key
            (_remove_arxiv_duplicates (successful_loop include_metadata conversions [])
                                      default_min_overlap))
  /\ (forall t1 t2 t3,
        sort_by sort_key
          [Samples.entry_of (Some 2019%Z) t1; Samples.entry_of (Some 2021%Z) t2;
           Samples.entry_of (Some 2020%Z) t3]
        = [Samples.entry_of (Some 2021%Z) t2; Samples.entry_of (Some 2020%Z) t3;
           Samples.entry_of (Some 2019%Z) t1])
  /\ (forall y t1 t2,
        String.ltb (lower t1) (lower t2) = true ->
        sort_by sort_key [Samples.entry_of y (Some t2); Samples.entry_of y (Some t1)]
        = [Samples.entry_of y (Some t1); Samples.entry_of y (Some t2)]
        /\ sort_by sort_key [Samples.entry_of y (Some t1); Samples.entry_of y (Some t2)]
           = [Samples.entry_of y (Some t1); Samples.entry_of y (Some t2)]).
Proof.
  intros out. subst out.
  split; [apply sort_by_perm|].
  split; [apply sort_by_sorted|].
  split; [intros a b; apply sort_key_order|].
  split; [intros k; apply sort_by_stable|].
  split.
  { intros l1 a l2 b l3 E Ha.
    pose proof (sort_by_sorted _ sort_key l) as Hs. rewrite E in Hs.
    apply sorted_before in Hs. apply sort_key_order in Hs.
    unfold year_or_0 in Hs at 2 3. rewrite Ha in Hs. lia. }
  split; [reflexivity|].
  split.
  - intros t1 t2 t3. reflexivity.
  - intros y t1 t2 Hlt.
    pose proof (string_ltb_not_leb _ _ Hlt) as Hnle.
    assert (Hle : String.leb (lower t1) (lower t2) = true).
    { unfold String.ltb in Hlt. unfold String.leb.
      destruct (String.compare (lower t1) (lower t2)); congruence. }
    unfold sort_by. cbn [fold_right insert_by]. unfold key_leb, sort_key.
    cbn [fst snd title_of Samples.entry_of CitationDict.title].
    assert (Hy : forall t, year_or_0 (Samples.entry_of y (Some t))
                           = year_or_0 (Samples.entry_of y None)) by reflexivity.
    rewrite (Hy t1), (Hy t2), Z.ltb_irrefl, Z.eqb_refl, Hnle, Hle.
    split; reflexivity.
Qed.

Lemma written_order_witness :
  sort_by sort_key
    [Samples.entry_of (Some 2020%Z) (Some "beta"); Samples.entry_of (Some 2020%Z) (Some "Alpha")]
  = [Samples.entry_of (Some 2020%Z) (Some "Alpha"); Samples.entry_of (Some 2020%Z) (Some "beta")].
Proof.
  destruct (written_order []) as (_ & _ & _ & _ & _ & _ & _ & H).
  apply (H (Some 2020%Z) "Alpha" "beta"). reflexivity.
Defined.

End SortFacts.

(* ================================================================== *)
(** ** What the matcher can return *)
(* ================================================================== *)

Module EngineFacts.
Import Py Re Utils Models Converter Spec More MoreSpec.
Import StringFacts.

Lemma or_else_some (a b : option outcome) (o : outcome) :
  or_else a b = Some o -> a = Some o \/ b = Some o.
Proof. destruct a; simpl; auto. Qed.

Lemma lit_go_sound (fl : flags) (l s : string) (prev : option ascii)
    (cap : option string) (k : kont) (o : outcome) :
  lit_go fl l prev s cap k = Some o ->
  exists m s' prev', s = (m ++ s')%string /\ lit_text fl l m /\ k prev' s' cap = Some o.
Proof.
  revert s prev. induction l as [|a l IH]; intros s prev; simpl.
  - intros H. exists EmptyString, s, prev. simpl. auto.
  - destruct s as [|c s]; [discriminate|].
    destruct (chr_ok fl a c) eqn:E; [|discriminate].
    intros H. destruct (IH _ _ H) as (m & s' & prev' & -> & Hm & Hk).
    exists (String c m), s', prev'. simpl. auto.
Qed.

Lemma rep_go_sound (fl : flags) (p : cclass) (lo : nat) (hi : option nat)
    (s : string) (n : nat) (prev : option ascii) (cap : option string)
    (k : kont) (o : outcome) :
  rep_go fl p lo hi n prev s cap k = Some o ->
  exists w s' prev',
    s = (w ++ s')%string /\ forallb_s (cls_ok fl p) w = true /\
    lo <= n + String.length w /\
    (within hi n -> within hi (n + String.length w)) /\
    k prev' s' cap = Some o.
Proof.
  revert n prev. induction s as [|c s IH]; intros n prev; simpl.
  - destruct (Nat.leb_spec lo n) as [Hle|Hgt]; [|discriminate].
    intros H. exists EmptyString, EmptyString, prev. simpl.
    rewrite Nat.add_0_r. auto.
  - assert (Hstop : (if lo <=? n then k prev (String c s) cap else None) = Some o ->
                    exists w s' prev',
                      String c s = (w ++ s')%string
                      /\ forallb_s (cls_ok fl p) w = true
                      /\ lo <= n + String.length w
                      /\ (within hi n -> within hi (n + String.length w))
                      /\ k prev' s' cap = Some o).
    { destruct (Nat.leb_spec lo n) as [Hle|Hgt]; [|discriminate].
      intros H. exists EmptyString, (String c s), prev. simpl.
      rewrite Nat.add_0_r. auto. }
    destruct (cls_ok fl p c) eqn:Ec; [|exact Hstop].
    destruct (below hi n) eqn:Eb; [|exact Hstop]. cbn [andb].
    intros H. apply or_else_some in H. destruct H as [H|H]; [|now apply Hstop].
    destruct (IH _ _ H) as (w & s' & prev' & -> & Hw & Hlo & Hhi & Hk).
    exists (String c w), s', prev'. simpl. rewrite Ec, Hw.
    repeat split; auto; try lia.
    intros _. rewrite Nat.add_succ_r. apply Hhi.
    unfold below in Eb. unfold within. destruct hi as [h|]; [|exact I].
    apply Nat.ltb_lt in Eb. lia.
Qed.

(** Soundness of the matcher: a successful run consumed a text the
    pattern can match, and left group 1 as the pattern can leave it. *)
Lemma run_sound (fl : flags) (r : regex) :
  forall (prev : option ascii) (s : string) (cap : option string) (k : kont)
         (o : outcome),
    run fl r prev s cap k = Some o ->
    exists m s' prev' cap',
      s = (m ++ s')%string /\ matches_text fl r m /\ captures fl r cap cap'
      /\ k prev' s' cap' = Some o.
Proof.
  induction r as [| | | |l|p|p lo hi|r1 IH1|r1 IH1 r2 IH2|r1 IH1];
    intros prev s cap k o; cbn [run matches_text captures].
  - intros H. exists EmptyString, s, prev, cap. simpl. auto.
  - destruct prev; [discriminate|].
    intros H. exists EmptyString, s, None, cap. simpl. auto.
  - destruct (at_eol s); [|discriminate].
    intros H. exists EmptyString, s, prev, cap. simpl. auto.
  - destruct (xorb (word_before prev) (word_ahead s)); [|discriminate].
    intros H. exists EmptyString, s, prev, cap. simpl. auto.
  - intros H. apply lit_go_sound in H. destruct H as (m & s' & prev' & -> & Hm & Hk).
    exists m, s', prev', cap. auto.
  - destruct s as [|c s]; [discriminate|].
    destruct (cls_ok fl p c) eqn:E; [|discriminate].
    intros H. exists (String c EmptyString), s, (Some c), cap. simpl.
    repeat split; auto. exists c. auto.
  - intros H. apply rep_go_sound in H.
    destruct H as (w & s' & prev' & -> & Hw & Hlo & Hhi & Hk).
    exists w, s', prev', cap. repeat split; auto.
    apply Hhi. unfold within. destruct hi; [lia | exact I].
  - intros H. apply or_else_some in H. destruct H as [H|H].
    + destruct (IH1 _ _ _ _ _ H) as (m & s' & prev' & cap' & -> & Hm & Hc & Hk).
      exists m, s', prev', cap'. auto.
    + exists EmptyString, s, prev, cap. simpl. auto.
  - intros H. destruct (IH1 _ _ _ _ _ H) as (m1 & s1 & prev1 & cap1 & -> & Hm1 & Hc1 & Hk1).
    destruct (IH2 _ _ _ _ _ Hk1) as (m2 & s2 & prev2 & cap2 & -> & Hm2 & Hc2 & Hk2).
    exists (m1 ++ m2)%string, s2, prev2, cap2.
    split; [now rewrite sapp_assoc|]. split; [now exists m1, m2|].
    split; [now exists cap1 | exact Hk2].
  - intros H. destruct (IH1 _ _ _ _ _ H) as (m & s' & prev' & cap' & -> & Hm & Hc & Hk).
    exists m, s', prev', (Some m). split; [reflexivity|]. split; [exact Hm|].
    split; [now exists m|].
    rewrite length_sapp, Nat.add_sub, take_sapp in Hk. exact Hk.
Qed.

Lemma match_here_sound (fl : flags) (r : regex) (prev : option ascii) (s : string)
    (o : outcome) :
  match_here fl r prev s = Some o ->
  exists m, s = (m ++ fst o)%string /\ matches_text fl r m
            /\ captures fl r None (snd o).
Proof.
  unfold match_here. intros H. apply run_sound in H.
  destruct H as (m & s' & prev' & cap' & -> & Hm & Hc & Hk).
  injection Hk as <-. exists m. auto.
Qed.

Lemma search_go_sound (fl : flags) (r : regex) (s : string) :
  forall (prev : option ascii) (o : outcome),
    search_go fl r prev s = Some o ->
    exists before m, s = (before ++ m ++ fst o)%string /\ matches_text fl r m
                     /\ captures fl r None (snd o).
Proof.
  induction s as [|c s IH]; intros prev o; cbn [search_go].
  - destruct (match_here fl r prev EmptyString) as [o'|] eqn:E; [|discriminate].
    intros H. injection H as <-. apply match_here_sound in E.
    destruct E as (m & E & Hm & Hc). exists EmptyString, m. auto.
  - destruct (match_here fl r prev (String c s)) as [o'|] eqn:E.
    + intros H. injection H as <-. apply match_here_sound in E.
      destruct E as (m & E & Hm & Hc). exists EmptyString, m. auto.
    + intros H. destruct (IH _ _ H) as (before & m & -> & Hm & Hc).
      exists (String c before), m. auto.
Qed.

Lemma first_pattern_found (patterns : list regex) (subject : string) (fl : flags)
    (check : string -> option string) (v : string) :
  first_pattern patterns subject fl check = Some v ->
  exists r o, In r patterns /\ search r subject fl = Some o
              /\ check (group1 o) = Some v.
Proof.
  induction patterns as [|r rest IH]; simpl; [discriminate|].
  destruct (search r subject fl) as [m|] eqn:Es.
  - destruct (check (group1 m)) as [v'|] eqn:E.
    + intros H. injection H as <-. exists r, m. auto.
    + intros H. destruct (IH H) as (r' & o & Hin & Hs & Hc). exists r', o. auto.
  - intros H. destruct (IH H) as (r' & o & Hin & Hs & Hc). exists r', o. auto.
Qed.

End EngineFacts.

(* ================================================================== *)
(** ** Extractors: what a returned value has passed *)
(* ================================================================== *)

Module ExtractorFacts.
Import Py Re Utils Models Converter Spec More MoreSpec.
Import StringFacts EngineFacts.

(** A value returned by the pattern loop was produced by its check. *)
Lemma first_pattern_checked (patterns : list regex) (subject : string) (fl : flags)
    (check : string -> option string) (v : string) :
  first_pattern patterns subject fl check = Some v ->
  exists g, check g = Some v.
Proof.
  induction patterns as [|r rest IH]; simpl; [discriminate|].
  destruct (search r subject fl) as [m|]; [|exact IH].
  destruct (check (group1 m)) as [v'|] eqn:E; [|exact IH].
  intros H. injection H as <-. now exists (group1 m).
Qed.

Lemma forallb_s_impl (p q : ascii -> bool) (s : string) :
  (forall c, p c = true -> q c = true) -> forallb_s p s = true -> forallb_s q s = true.
Proof.
  intros H. induction s as [|c s IH]; simpl; [reflexivity|].
  intros E. apply andb_true_iff in E. destruct E as (E1 & E2).
  now rewrite (H c E1), IH.
Qed.

(** [\d] under IGNORECASE matches the decimal digits only. *)
Lemma digit_class (c : ascii) : cls_ok IGNORECASE d c = true -> is_digit c = true.
Proof.
  destruct c as [[] [] [] [] [] [] [] []]; vm_compute; intros H;
    (reflexivity || discriminate H).
Qed.

Lemma upper_digit (c : ascii) : is_digit c = true -> upper_text c = String c "".
Proof.
  destruct c as [[] [] [] [] [] [] [] []]; vm_compute; intros H;
    (reflexivity || discriminate H).
Qed.

Lemma upper_digits (s : string) : forallb_s is_digit s = true -> upper s = s.
Proof.
  induction s as [|c s IH]; [reflexivity|]. cbn.
  intros H. apply andb_true_iff in H. destruct H as (Hc & Hs).
  now rewrite (upper_digit c Hc), IH.
Qed.

Lemma upper_sapp (a b : string) : upper (a ++ b) = (upper a ++ upper b)%string.
Proof.
  induction a as [|c a IH]; [reflexivity|]. cbn [append upper].
  now rewrite IH, sapp_assoc.
Qed.

(** The text that [PMC] matches under IGNORECASE is [PMC] once
    upper-cased. *)
Lemma upper_of_pmc (a b c : ascii) :
  chr_ok IGNORECASE "P" a = true -> chr_ok IGNORECASE "M" b = true ->
  chr_ok IGNORECASE "C" c = true ->
  upper (String a (String b (String c ""))) = "PMC"%string.
Proof.
  intros Ha Hb Hc.
  assert (Ea : upper_text a = "P"%string).
  { revert Ha. destruct a as [[] [] [] [] [] [] [] []]; vm_compute; intros H;
      (reflexivity || discriminate H). }
  assert (Eb : upper_text b = "M"%string).
  { revert Hb. destruct b as [[] [] [] [] [] [] [] []]; vm_compute; intros H;
      (reflexivity || discriminate H). }
  assert (Ec : upper_text c = "C"%string).
  { revert Hc. destruct c as [[] [] [] [] [] [] [] []]; vm_compute; intros H;
      (reflexivity || discriminate H). }
  cbn [upper]. now rewrite Ea, Eb, Ec.
Qed.

(** The group of a PMID pattern holds decimal digits. *)
Lemma pmid_group_digits (r : regex) (o : outcome) (subject : string) :
  In r pmid_patterns -> search r subject IGNORECASE = Some o ->
  forallb_s is_digit (group1 o) = true.
Proof.
  intros Hin Hs. unfold search in Hs. apply search_go_sound in Hs.
  destruct Hs as (_ & _ & _ & _ & Hc). unfold group1.
  assert (Hd : exists m, snd o = Some m /\ forallb_s (cls_ok IGNORECASE d) m = true).
  { cbn in Hin. destruct Hin as [<-|[<-|[<-|[<-|[]]]]]; cbn [seq captures plus star] in Hc.
    - destruct Hc as (c1 & _ & c2 & _ & c3 & _ & m & -> & Hm & _). eauto.
    - destruct Hc as (c1 & _ & c2 & _ & c3 & _ & c4 & _ & c5 & _ & m & -> & Hm & _).
      eauto.
    - destruct Hc as (c1 & _ & c2 & _ & c3 & _ & m & -> & Hm & _). eauto.
    - destruct Hc as (c1 & _ & c2 & (m & -> & Hm & _) & ->). eauto. }
  destruct Hd as (m & -> & Hm). exact (forallb_s_impl _ _ m digit_class Hm).
Qed.

Lemma extract_pmid_checked (text v : string) :
  extract_pmid text = Some v ->
  all_decimal v = true /\ 7 <= String.length v <= 8.
Proof.
  unfold extract_pmid. destruct (is_empty text); [discriminate|].
  intros H. apply first_pattern_found in H. destruct H as (r & o & Hin & Hs & H).
  destruct (isdigit (group1 o) && (7 <=? String.length (group1 o))
            && (String.length (group1 o) <=? 8)) eqn:E; [|discriminate].
  injection H as <-.
  apply andb_true_iff in E. destruct E as (E & E3).
  apply andb_true_iff in E. destruct E as (E1 & E2).
  apply Nat.leb_le in E2, E3. split; [|auto].
  unfold all_decimal. rewrite (pmid_group_digits r o _ Hin Hs).
  unfold isdigit in E1. apply andb_true_iff in E1. destruct E1 as (-> & _). reflexivity.
Qed.

(** The group of a PMCID pattern is [PMC] in some case followed by
    decimal digits, so its upper-case form is [PMC] and the digits. *)
Lemma pmc_body_upper (m : string) :
  matches_text IGNORECASE pmc_body m ->
  exists ds, upper m = ("PMC" ++ ds)%string /\ all_decimal ds = true.
Proof.
  cbn. intros (m1 & m2 & -> & H1 & H2 & Hlo & _).
  destruct m1 as [|a [|b [|c [|]]]]; cbn [lit_text] in H1; try tauto.
  destruct H1 as (Ha & Hb & Hc & _).
  pose proof (forallb_s_impl _ _ m2 digit_class H2) as Hd.
  exists m2. rewrite upper_sapp, (upper_of_pmc a b c Ha Hb Hc), (upper_digits _ Hd).
  split; [reflexivity|]. unfold all_decimal. rewrite Hd.
  destruct m2; [cbn in Hlo; lia | reflexivity].
Qed.

Lemma pmcid_group_upper (r : regex) (o : outcome) (subject : string) :
  In r pmcid_patterns -> search r subject IGNORECASE = Some o ->
  exists ds, upper (group1 o) = ("PMC" ++ ds)%string /\ all_decimal ds = true.
Proof.
  intros Hin Hs. unfold search in Hs. apply search_go_sound in Hs.
  destruct Hs as (_ & _ & _ & _ & Hc). unfold group1.
  assert (Hd : exists m, snd o = Some m /\ matches_text IGNORECASE pmc_body m).
  { cbn [pmcid_patterns In] in Hin.
    destruct Hin as [<-|[<-|[<-|[<-|[]]]]]; cbn [seq captures plus star] in Hc.
    - destruct Hc as (c1 & _ & c2 & _ & c3 & _ & m & -> & Hm). eauto.
    - destruct Hc as (c1 & _ & c2 & _ & c3 & _ & m & -> & Hm). eauto.
    - destruct Hc as (c1 & _ & c2 & (m & -> & Hm) & ->). eauto.
    - destruct Hc as (m & -> & Hm). eauto. }
  destruct Hd as (m & -> & Hm). now apply pmc_body_upper.
Qed.

Lemma extract_pmcid_checked (text v : string) :
  extract_pmcid text = Some v ->
  startswith "PMC" v = true /\ all_decimal (drop 3 v) = true.
Proof.
  unfold extract_pmcid. destruct (is_empty text); [discriminate|].
  intros H. apply first_pattern_found in H. destruct H as (r & o & Hin & Hs & H).
  destruct (startswith "PMC" (upper (group1 o))
            && isdigit (drop 3 (upper (group1 o)))) eqn:E; [|discriminate].
  injection H as <-.
  destruct (pmcid_group_upper r o _ Hin Hs) as (ds & -> & Hd).
  split; [reflexivity | exact Hd].
Qed.

Lemma extract_doi_checked (text v : string) :
  extract_doi text = Some v -> validate_doi v = true.
Proof.
  unfold extract_doi. destruct (is_empty text); [discriminate|].
  intros H. apply first_pattern_checked in H. destruct H as (g & H).
  destruct (validate_doi (sub_empty trailing_punct g NOFLAGS)) eqn:E; [|discriminate].
  injection H as <-. exact E.
Qed.

Lemma extract_arxiv_id_checked (text v : string) :
  extract_arxiv_id text = Some v -> arxiv_valid v = true.
Proof.
  unfold extract_arxiv_id. destruct (is_empty text); [discriminate|].
  intros H. apply first_pattern_checked in H. destruct H as (g & H).
  destruct (arxiv_valid g) eqn:E; [|discriminate].
  injection H as <-. exact E.
Qed.

Lemma extract_empty :
  extract_doi EmptyString = None /\ extract_pmid EmptyString = None /\
  extract_pmcid EmptyString = None /\ extract_arxiv_id EmptyString = None /\
  extract_isbn EmptyString = None.
Proof. repeat split. Qed.

Lemma digit_like_or_X (c : ascii) :
  is_digit_like c = true -> either is_digit is_X c = true -> is_digit c = true.
Proof.
  destruct c as [[] [] [] [] [] [] [] []]; vm_compute; intros H1 H2;
    (reflexivity || discriminate).
Qed.

(** What [re.sub(r'[^\dX]', '', s)] leaves is made of digits and [X]. *)
Lemma sub_go_not_isbn (s : string) :
  forall prev,
    forallb_s (either is_digit is_X) (sub_go NOFLAGS not_isbn_char 0 prev s) = true.
Proof.
  induction s as [|c s IH]; intros prev; [reflexivity|].
  cbn [sub_go]. unfold match_len, match_here, not_isbn_char. cbn [run].
  unfold cls_ok. cbn [negated members ncls xorb]. unfold NOFLAGS at 1.
  destruct (either is_digit is_X c) eqn:Ec; cbn [negb].
  - cbn [forallb_s]. rewrite Ec. apply IH.
  - replace (String.length (String c s) - String.length s) with 1
      by (cbn [String.length]; lia).
    apply IH.
Qed.

Lemma isdigit_clean (s : string) :
  forallb_s (either is_digit is_X) s = true -> isdigit s = true -> all_decimal s = true.
Proof.
  unfold isdigit, all_decimal. intros Hx H. apply andb_true_iff in H.
  destruct H as (-> & Hd). cbn [andb]. clear -Hx Hd.
  induction s as [|c s IH]; [reflexivity|]. cbn in Hx, Hd |- *.
  apply andb_true_iff in Hx, Hd. destruct Hx as (Hx & Hxs), Hd as (Hd & Hds).
  now rewrite (digit_like_or_X c Hd Hx), IH.
Qed.

Lemma forallb_s_take (p : ascii -> bool) (n : nat) (s : string) :
  forallb_s p s = true -> forallb_s p (take n s) = true.
Proof.
  revert s. induction n as [|n IH]; intros [|c s]; cbn; auto.
  intros H. apply andb_true_iff in H. destruct H as (-> & H). now apply IH.
Qed.

Lemma char_at_forallb (p : ascii -> bool) (s : string) :
  forall n c, forallb_s p s = true -> char_at n s = Some c -> p c = true.
Proof.
  unfold char_at. induction s as [|a s IH]; intros n c H E; [discriminate|].
  cbn in H. apply andb_true_iff in H. destruct H as (Ha & Hs).
  destruct n as [|n]; cbn in E; [now injection E as <- | eauto].
Qed.

(** Among digits and [X], what [isdigit] accepts is a decimal digit. *)
Lemma decimal_or_X_clean (n : nat) (s : string) :
  forallb_s (either is_digit is_X) s = true ->
  digit_or_X_at n s = true -> decimal_or_X_at n s = true.
Proof.
  unfold digit_or_X_at, decimal_or_X_at. intros Hs.
  destruct (char_at n s) as [c|] eqn:E; [|discriminate].
  intros _. exact (char_at_forallb _ s n c Hs E).
Qed.

Lemma decimal_or_X_digit (n : nat) (s : string) :
  decimal_or_X_at n s = true -> digit_or_X_at n s = true.
Proof.
  unfold digit_or_X_at, decimal_or_X_at, is_digit_like.
  destruct (char_at n s) as [c|]; [|discriminate].
  destruct (is_digit c); [reflexivity|]. cbn [orb]. intros ->. apply orb_true_r.
Qed.

Lemma extract_isbn_direct (text v : string) :
  extract_isbn text = Some v ->
  isbn_grammar v = true
  \/ first_pattern isbn_patterns text IGNORECASE (fun g => Some g) = Some v.
Proof.
  unfold extract_isbn, isbn_grammar. destruct (is_empty text); [discriminate|].
  set (clean_text := sub_empty not_isbn_char (upper text) NOFLAGS).
  assert (Hc : forallb_s (either is_digit is_X) clean_text = true)
    by apply sub_go_not_isbn.
  destruct ((String.length clean_text =? 13) && isdigit clean_text) eqn:E13.
  - intros H. injection H as <-. left.
    apply andb_true_iff in E13. destruct E13 as (-> & Hd).
    now rewrite (isdigit_clean _ Hc Hd).
  - destruct ((String.length clean_text =? 10)
              && (isdigit (take 9 clean_text) && digit_or_X_at 9 clean_text)) eqn:E10.
    + intros H. injection H as <-. left.
      apply andb_true_iff in E10. destruct E10 as (-> & E10).
      apply andb_true_iff in E10. destruct E10 as (Hd & Hx).
      rewrite (isdigit_clean _ (forallb_s_take _ 9 _ Hc) Hd),
        (decimal_or_X_clean 9 _ Hc Hx). apply orb_true_r.
    + intros H. now right.
Qed.

(** C3.  The extractors are total functions, and a value returned by
    [extract_pmid], [extract_pmcid], [extract_doi] or [extract_arxiv_id]
    has passed that family's check (7 or 8 digits; [PMC] and digits;
    the DOI validator; the new-style or old-style arXiv pattern).
    [extract_isbn] does so on its direct path, but its pattern loop
    returns the matched text unchecked: for the input below the value
    returned ends in a lower-case [x] and is not an ISBN of 13 digits or
    of 9 digits and a digit or [X]. *)
Theorem isbn_fallback_unchecked :
  (forall text v, extract_pmid text = Some v -> pmid_grammar v = true)
  /\ (forall text v, extract_pmcid text = Some v -> pmcid_grammar v = true)
  /\ (forall text v, extract_doi text = Some v -> validate_doi v = true)
  /\ (forall text v, extract_arxiv_id text = Some v -> arxiv_valid v = true)
  /\ (forall text v, extract_isbn text = Some v ->
        isbn_grammar v = true
        \/ first_pattern isbn_patterns text IGNORECASE (fun g => Some g) = Some v)
  /\ extract_isbn "ISBN: 123456789x (pbk), vol 2" = Some "123456789x"
  /\ isbn_grammar "123456789x" = false.
Proof.
  split.
  { intros text v H. apply extract_pmid_checked in H. destruct H as (H1 & H2 & H3).
    unfold pmid_grammar. rewrite H1. apply Nat.leb_le in H2, H3. now rewrite H2, H3. }
  split.
  { intros text v H. apply extract_pmcid_checked in H. destruct H as (H1 & H2).
    unfold pmcid_grammar. now rewrite H1, H2. }
  split; [apply extract_doi_checked|].
  split; [apply extract_arxiv_id_checked|].
  split; [apply extract_isbn_direct|].
  split; vm_compute; reflexivity.
Qed.

Lemma isbn_fallback_witness :
  pmid_grammar "12345678" = true.
Proof.
  destruct isbn_fallback_unchecked as (H & _).
  apply (H "PMID: 12345678"). vm_compute. reflexivity.
Defined.

End ExtractorFacts.

(* ================================================================== *)
(** ** Identifier resolution and conversion *)
(* ================================================================== *)

Module ResolverFacts.
Import Py Re Utils Models Converter Spec ExtractorFacts.


Lemma priority_loop_first
    (urlparse : string -> option (string * string)) (entry : BibTeXEntry.t) (priority : list string)
    (found : CitationType * string) :
  priority_loop urlparse entry priority = Some found ->
  exists before family after,
    priority = before ++ family :: after /\
    (forall f, In f before -> try_identifier urlparse entry f = None) /\
    try_identifier urlparse entry family = Some found.
Proof.
  induction priority as [|f rest IH]; simpl; [discriminate|].
  destruct (try_identifier urlparse entry f) as [r|] eqn:E.
  - intros H. injection H as <-. exists [], f, rest.
    split; [reflexivity|]. split; [intros ? []|exact E].
  - intros H. destruct (IH H) as (before & family & after & -> & Hb & Hf).
    exists (f :: before), family, after.
    split; [reflexivity|]. split; [|exact Hf].
    intros f' [<-|Hf']; [exact E | now apply Hb].
Qed.

Lemma priority_loop_none
    (urlparse : string -> option (string * string)) (entry : BibTeXEntry.t) (priority : list string) :
  priority_loop urlparse entry priority = None <->
  forall f, In f priority -> try_identifier urlparse entry f = None.
Proof.
  induction priority as [|f rest IH]; simpl.
  - split; [intros _ ? [] | reflexivity].
  - destruct (try_identifier urlparse entry f) as [r|] eqn:E.
    + split; [discriminate|]. intros H. specialize (H f (or_introl eq_refl)). congruence.
    + rewrite IH. split.
      * intros H f' [<-|Hf']; [exact E | now apply H].
      * intros H f' Hf'. apply H. now right.
Qed.

Lemma priority_loop_stops
    (urlparse : string -> option (string * string)) (entry : BibTeXEntry.t) (before after : list string)
    (family : string) (found : CitationType * string) :
  (forall f, In f before -> try_identifier urlparse entry f = None) ->
  try_identifier urlparse entry family = Some found ->
  priority_loop urlparse entry (before ++ family :: after) = Some found.
Proof.
  induction before as [|f before IH]; simpl; intros Hb Hf.
  - now rewrite Hf.
  - rewrite (Hb f (or_introl eq_refl)). apply IH; auto.
Qed.

Lemma try_identifier_unknown
    (urlparse : string -> option (string * string)) (entry : BibTeXEntry.t) (f : string) :
  mem_str f known_families = false -> try_identifier urlparse entry f = None.
Proof.
  unfold mem_str, known_families. simpl.
  intros H. repeat (apply orb_false_iff in H; destruct H as (? & H)).
  unfold try_identifier.
  repeat match goal with
         | E : String.eqb f ?k = false |- _ => rewrite E; clear E
         end.
  reflexivity.
Qed.

Lemma priority_loop_known
    (urlparse : string -> option (string * string)) (entry : BibTeXEntry.t) (priority : list string) :
  priority_loop urlparse entry (filter (fun f => mem_str f known_families) priority)
  = priority_loop urlparse entry priority.
Proof.
  induction priority as [|f rest IH]; [reflexivity|].
  cbn [filter]. destruct (mem_str f known_families) eqn:E; cbn [priority_loop].
  - now rewrite IH.
  - now rewrite (try_identifier_unknown urlparse entry f E).
Qed.

Lemma try_pmid
    (urlparse : string -> option (string * string)) (entry : BibTeXEntry.t) (p v : string) :
  BibTeXEntry.pmid entry = Some p -> extract_pmid p = Some v ->
  try_identifier urlparse entry "pmid" = Some (PMID, v).
Proof.
  intros Hp Hv. unfold try_identifier. simpl. rewrite Hp. simpl.
  destruct p as [|c p]; [discriminate|]. simpl. rewrite Hv.
  apply extract_pmid_checked in Hv. destruct Hv as (Hd & _).
  destruct v; [discriminate|reflexivity].
Qed.

Lemma known_family_cases (f : string) :
  mem_str f known_families = true ->
  f = "doi" \/ f = "pmid" \/ f = "pmcid" \/ f = "arxiv" \/ f = "isbn" \/ f = "url".
Proof.
  unfold mem_str, known_families. simpl. rewrite !orb_true_iff, !String.eqb_eq.
  intuition discriminate.
Qed.

Lemma candidate_branch (cand : option string) (extract : string -> option string)
    (T t : CitationType) (v : string) :
  (if truthy cand
   then match extract (str_or_empty cand) with
        | Some c => if is_empty c then None else Some (T, c)
        | None => None
        end
   else None) = Some (t, v)
  <-> t = T /\ candidate_yields cand extract v.
Proof.
  unfold candidate_yields. destruct cand as [raw|]; simpl.
  - destruct (is_empty raw) eqn:Er; simpl.
    + split; [discriminate|]. intros (_ & raw' & E & E' & _). congruence.
    + destruct (extract raw) as [c|] eqn:Ec.
      * destruct (is_empty c) eqn:Ee.
        -- split; [discriminate|]. intros (_ & raw' & E & _ & E' & E'').
           injection E as <-. congruence.
        -- split.
           ++ intros H. injection H as <- <-. split; [reflexivity|].
              exists raw. auto.
           ++ intros (-> & raw' & E & _ & E' & _). injection E as <-.
              congruence.
      * split; [discriminate|]. intros (_ & raw' & E & _ & E' & _).
        injection E as <-. congruence.
  - split; [discriminate|]. intros (_ & raw' & E & _). discriminate.
Qed.

(** What each family's step of the loop returns. *)
Lemma try_identifier_cases
    (urlparse : string -> option (string * string)) (entry : BibTeXEntry.t) (f : string) (t : CitationType)
    (v : string) :
  try_identifier urlparse entry f = Some (t, v) <->
  (f = "doi" /\ t = DOI /\ candidate_yields (BibTeXEntry.doi entry) extract_doi v)
  \/ (f = "pmid" /\ t = PMID /\ candidate_yields (BibTeXEntry.pmid entry) extract_pmid v)
  \/ (f = "pmcid" /\ t = PMCID /\ candidate_yields (BibTeXEntry.pmcid entry) extract_pmcid v)
  \/ (f = "arxiv" /\ t = ARXIV
      /\ candidate_yields (BibTeXEntry.arxiv entry) extract_arxiv_id v)
  \/ (f = "isbn" /\ t = ISBN /\ candidate_yields (BibTeXEntry.isbn entry) extract_isbn v)
  \/ (f = "url" /\ t = URL /\ candidate_yields (BibTeXEntry.url entry) (url_check urlparse) v).
Proof.
  assert (Hurl : try_identifier urlparse entry "url" = Some (t, v) <->
                 t = URL /\ candidate_yields (BibTeXEntry.url entry) (url_check urlparse) v).
  { rewrite <- candidate_branch. unfold try_identifier, url_check. simpl.
    destruct (BibTeXEntry.url entry) as [u|]; simpl; [|reflexivity].
    destruct (is_empty u) eqn:Eu; simpl; [reflexivity|].
    destruct (validate_url urlparse u); [|reflexivity].
    rewrite Eu. reflexivity. }
  split.
  - intros H.
    destruct (mem_str f known_families) eqn:Ek.
    + apply known_family_cases in Ek.
      destruct Ek as [-> | [-> | [-> | [-> | [-> | ->]]]]].
      * left. split; [reflexivity|]. apply candidate_branch. exact H.
      * right; left. split; [reflexivity|]. apply candidate_branch.
        unfold try_identifier in H. simpl in H.
        destruct (truthy (BibTeXEntry.pmid entry)); exact H.
      * do 2 right; left. split; [reflexivity|]. apply candidate_branch.
        unfold try_identifier in H. simpl in H.
        destruct (truthy (BibTeXEntry.pmcid entry)); exact H.
      * do 3 right; left. split; [reflexivity|]. apply candidate_branch.
        unfold try_identifier in H. simpl in H.
        destruct (truthy (BibTeXEntry.arxiv entry)); exact H.
      * do 4 right; left. split; [reflexivity|]. apply candidate_branch.
        unfold try_identifier in H. simpl in H.
        destruct (truthy (BibTeXEntry.isbn entry)); exact H.
      * do 5 right. split; [reflexivity|]. apply Hurl. exact H.
    + rewrite (try_identifier_unknown urlparse entry f Ek) in H. discriminate.
  - intros [(-> & H)|[(-> & H)|[(-> & H)|[(-> & H)|[(-> & H)|(-> & H)]]]]];
      try (apply candidate_branch in H; unfold try_identifier; simpl;
           match goal with
           | |- (if truthy ?c then _ else _) = _ => destruct (truthy c); exact H
           end).
    apply Hurl. exact H.
Qed.

Lemma convert_loop_map (clean_bibtex_field : string -> string)
    (urlparse : string -> option (string * string)) (priority : list string)
    (all_entries : list (BibTeXEntry.t + ConversionResult.t))
    (acc : list ConversionResult.t) :
  convert_loop clean_bibtex_field urlparse priority all_entries acc
  = acc ++ map (fun x => match x with
                         | inl entry => convert_entry clean_bibtex_field urlparse priority entry
                         | inr failed => failed
                         end) all_entries.
Proof.
  revert acc. induction all_entries as [|[e|r] rest IH]; intros acc; simpl.
  - now rewrite app_nil_r.
  - rewrite IH, <- app_assoc. reflexivity.
  - rewrite IH, <- app_assoc. reflexivity.
Qed.

(** C2. Identifier resolution walks the priority list in order.  The
    step for a family returns an identifier exactly when the family is
    one of the known ones, the record's raw candidate for it is
    non-empty and the family's extractor returns a value for it.  The
    first family whose step returns an identifier decides the result,
    whatever follows it in the list; names outside the known set never
    return anything, so dropping them from the list changes nothing.
    In particular a record with a valid DOI candidate and a valid PMID
    candidate resolves to [pmid] under the priority [pmid, doi]. *)
Theorem resolution_first_match
    (urlparse : string -> option (string * string)) (priority : list string) (entry : BibTeXEntry.t) :
  (forall t v,
     priority_loop urlparse entry priority = Some (t, v) ->
     _extract_best_identifier urlparse priority entry = (Some t, Some v) /\
     exists before family after,
       priority = before ++ family :: after /\
       (forall f, In f before -> try_identifier urlparse entry f = None) /\
       try_identifier urlparse entry family = Some (t, v))
  /\ (forall before family after t v,
        (forall f, In f before -> try_identifier urlparse entry f = None) ->
        try_identifier urlparse entry family = Some (t, v) ->
        _extract_best_identifier urlparse (before ++ family :: after) entry
        = (Some t, Some v))
  /\ (forall f t v,
        try_identifier urlparse entry f = Some (t, v) <->
        (f = "doi" /\ t = DOI /\ candidate_yields (BibTeXEntry.doi entry) extract_doi v)
        \/ (f = "pmid" /\ t = PMID
            /\ candidate_yields (BibTeXEntry.pmid entry) extract_pmid v)
        \/ (f = "pmcid" /\ t = PMCID
            /\ candidate_yields (BibTeXEntry.pmcid entry) extract_pmcid v)
        \/ (f = "arxiv" /\ t = ARXIV
            /\ candidate_yields (BibTeXEntry.arxiv entry) extract_arxiv_id v)
        \/ (f = "isbn" /\ t = ISBN
            /\ candidate_yields (BibTeXEntry.isbn entry) extract_isbn v)
        \/ (f = "url" /\ t = URL
            /\ candidate_yields (BibTeXEntry.url entry) (url_check urlparse) v))
  /\ ((forall f, mem_str f known_families = false ->
                 try_identifier urlparse entry f = None)
      /\ _extract_best_identifier urlparse
           (filter (fun f => mem_str f known_families) priority) entry
         = _extract_best_identifier urlparse priority entry)
  /\ (forall d w p v,
        BibTeXEntry.doi entry = Some d -> extract_doi d = Some w ->
        BibTeXEntry.pmid entry = Some p -> extract_pmid p = Some v ->
        _extract_best_identifier urlparse ["pmid"; "doi"] entry = (Some PMID, Some v)).
Proof.
  split; [|split; [|split; [|split]]].
  - intros t v H. split.
    + unfold _extract_best_identifier. now rewrite H.
    + now apply priority_loop_first.
  - intros before family after t v Hb Hf. unfold _extract_best_identifier.
    now rewrite (priority_loop_stops urlparse entry before after family (t, v) Hb Hf).
  - intros f t v. apply try_identifier_cases.
  - split.
    + intros f. apply try_identifier_unknown.
    + unfold _extract_best_identifier. now rewrite priority_loop_known.
  - intros d w p v _ _ Hp Hv. unfold _extract_best_identifier. simpl.
    now rewrite (try_pmid urlparse entry p v Hp Hv).
Qed.

(** C4. When no family of the priority list yields an identifier, the
    result is the pair [("raw", key)] if the key is not blank (not the
    empty string), and nothing otherwise.  In the second case
    [convert_entry] returns a failed result for that record: one error
    message, [success] still false, no citation.  In a batch every
    record's result is computed from that record alone, so the failure
    changes no other result. *)
Theorem raw_fallback_or_local_failure (clean_bibtex_field : string -> string)
    (urlparse : string -> option (string * string)) (priority : list string) (entry : BibTeXEntry.t) :
  (forall f, In f priority -> try_identifier urlparse entry f = None) ->
  (is_empty (BibTeXEntry.key entry) = false ->
   _extract_best_identifier urlparse priority entry
   = (Some RAW, Some (BibTeXEntry.key entry)))
  /\ (is_empty (BibTeXEntry.key entry) = true ->
      _extract_best_identifier urlparse priority entry = (None, None)
      /\ convert_entry clean_bibtex_field urlparse priority entry
         = {| ConversionResult.original_key := BibTeXEntry.key entry;
              ConversionResult.success := false;
              ConversionResult.manubot_citation := None;
              ConversionResult.errors := ["No valid identifier found"];
              ConversionResult.warnings := [] |})
  /\ (forall before after,
        convert_loop clean_bibtex_field urlparse priority
          (before ++ inl entry :: after) []
        = convert_loop clean_bibtex_field urlparse priority before []
          ++ convert_entry clean_bibtex_field urlparse priority entry
          :: convert_loop clean_bibtex_field urlparse priority after []).
Proof.
  intros Hnone. apply priority_loop_none in Hnone.
  split; [|split].
  - intros Hk. unfold _extract_best_identifier. now rewrite Hnone, Hk.
  - intros Hk.
    assert (E : _extract_best_identifier urlparse priority entry = (None, None))
      by (unfold _extract_best_identifier; now rewrite Hnone, Hk).
    split; [exact E|]. unfold convert_entry. rewrite E. reflexivity.
  - intros before after. rewrite !convert_loop_map. simpl.
    rewrite map_app. reflexivity.
Qed.

End ResolverFacts.

(* ================================================================== *)
(** ** Citation ids *)
(* ================================================================== *)

Module IdFacts.
Import Py Re Utils Models Converter Spec SortFacts.

Lemma contains_colon_count (s : string) :
  contains_char ":" s = true <-> 1 <= count_colons s.
Proof.
  unfold contains_char. induction s as [|c s IH]; cbn [existsb_s count_colons].
  - split; [discriminate | intros H; exfalso; lia].
  - rewrite (Ascii.eqb_sym ":" c). destruct (Ascii.eqb c ":"); cbn [orb Nat.add].
    + split; [lia | reflexivity].
    + exact IH.
Qed.

Lemma id_of_family (t : CitationType) (v : string) :
  before_colon (value t ++ ":" ++ v) = value t
  /\ count_colons (value t ++ ":" ++ v) = 1 + count_colons v.
Proof. destruct t; split; reflexivity. Qed.

Lemma value_nonempty (t : CitationType) : is_empty (value t) = false.
Proof. destruct t; reflexivity. Qed.

Lemma new_citation_cases (c : ManubotCitation.t) :
  (new_citation c = inl c /\ 1 <= count_colons (ManubotCitation.id c))
  \/ (new_citation c = inr "Manubot ID must contain a colon separator"
      /\ count_colons (ManubotCitation.id c) = 0).
Proof.
  unfold new_citation, validate_manubot_id.
  destruct (contains_char ":" (ManubotCitation.id c)) eqn:E; simpl.
  - left. split; [reflexivity|]. now apply (proj1 (contains_colon_count _)).
  - right. split; [reflexivity|].
    destruct (count_colons (ManubotCitation.id c)) eqn:En; [reflexivity|].
    assert (H : contains_char ":" (ManubotCitation.id c) = true).
    { apply (proj2 (contains_colon_count _)). rewrite En. lia. }
    congruence.
Qed.

(** A citation that [convert_entry] returns was built from the pair the
    resolver found. *)
Lemma convert_entry_citation (clean_bibtex_field : string -> string)
    (urlparse : string -> option (string * string)) (priority : list string)
    (entry : BibTeXEntry.t) (c : ManubotCitation.t) :
  ConversionResult.manubot_citation
    (convert_entry clean_bibtex_field urlparse priority entry) = Some c ->
  _extract_best_identifier urlparse priority entry
  = (Some (ManubotCitation.citation_type c), Some (ManubotCitation.identifier c))
  /\ ManubotCitation.id c
     = (value (ManubotCitation.citation_type c) ++ ":" ++ ManubotCitation.identifier c)%string
  /\ ConversionResult.success
       (convert_entry clean_bibtex_field urlparse priority entry) = true.
Proof.
  unfold convert_entry.
  destruct (_extract_best_identifier urlparse priority entry) as [ot [v|]];
    [|discriminate].
  destruct (is_empty v); [discriminate|].
  destruct ot as [t|]; [|discriminate].
  destruct (generate_publication_date _ _ _) as [date|e]; [|discriminate].
  match goal with
  | |- context [new_citation ?x] =>
      destruct (new_citation_cases x) as [(E & _)|(E & _)]; rewrite E
  end.
  - simpl. intros H. injection H as <-. simpl. auto.
  - discriminate.
Qed.

Lemma successful_loop_in (include_metadata : bool) (conversions : list ConversionResult.t)
    (acc : list CitationDict.t) (d : CitationDict.t) :
  In d (successful_loop include_metadata conversions acc) ->
  In d acc \/
  exists r c, In r conversions /\ ConversionResult.manubot_citation r = Some c /\
              d = to_dict c include_metadata.
Proof.
  revert acc. induction conversions as [|r rest IH]; simpl; intros acc H; [now left|].
  destruct (ConversionResult.success r), (ConversionResult.manubot_citation r) as [c|] eqn:Ec;
    apply IH in H.
  - destruct H as [H|(r' & c' & H1 & H2)].
    + apply in_app_or in H. destruct H as [H|[<-|[]]]; [now left|].
      right. exists r, c. auto.
    + right. exists r', c'. tauto.
  - destruct H as [H|(r' & c' & H1 & H2)]; [now left | right; exists r', c'; tauto].
  - destruct H as [H|(r' & c' & H1 & H2)]; [now left | right; exists r', c'; tauto].
  - destruct H as [H|(r' & c' & H1 & H2)]; [now left | right; exists r', c'; tauto].
Qed.

Lemma parse_loop_in (inputs : list parsed_file)
    (acc : list (BibTeXEntry.t + ConversionResult.t)) (x : BibTeXEntry.t + ConversionResult.t) :
  In x (parse_loop inputs acc) ->
  In x acc \/ (exists e, x = inl e) \/ (exists path err, x = inr (failed_file path err)).
Proof.
  revert acc. induction inputs as [|[path [entries|err]] rest IH]; simpl; intros acc H;
    [now left| |]; apply IH in H; destruct H as [H|H]; auto; apply in_app_or in H;
    destruct H as [H|H]; auto.
  - apply in_map_iff in H. destruct H as (e & <- & _). right. left. now exists e.
  - destruct H as [<-|[]]. right. right. now exists path, err.
Qed.

(** Every result of a batch is the conversion of an entry or the failed
    result of a file. *)
Lemma batch_results (clean_bibtex_field : string -> string)
    (urlparse : string -> option (string * string)) (priority : list string)
    (inputs : list parsed_file) (r : ConversionResult.t) :
  In r (conversions (batch_convert clean_bibtex_field urlparse priority inputs)) ->
  (exists e, r = convert_entry clean_bibtex_field urlparse priority e)
  \/ (exists path err, r = failed_file path err).
Proof.
  unfold batch_convert. simpl. rewrite ResolverFacts.convert_loop_map. simpl.
  rewrite in_map_iff. intros ([e|r'] & <- & Hin).
  - left. now exists e.
  - apply parse_loop_in in Hin. destruct Hin as [[]|[(e & He)|(path & err & He)]].
    + discriminate.
    + injection He as ->. right. now exists path, err.
Qed.

Lemma well_formed_passes (i : nat) (d : CitationDict.t) (r : validation_result) :
  well_formed d ->
  valid (validate_one i d r) = valid r /\ v_errors (validate_one i d r) = v_errors r.
Proof.
  intros (id & t & Hi & Hie & Hc & Ht & Hte).
  apply contains_colon_count in Hc.
  unfold validate_one. rewrite Hi, Ht. simpl. rewrite Hie, Hte, Hc. simpl. auto.
Qed.

Lemma validate_loop_well_formed (l : list CitationDict.t) (i : nat) (r : validation_result) :
  (forall d, In d l -> well_formed d) ->
  valid (validate_loop i l r) = valid r /\ v_errors (validate_loop i l r) = v_errors r.
Proof.
  revert i r. induction l as [|d l IH]; intros i r H; simpl; [auto|].
  destruct (IH (S i) (validate_one i d r)) as (E1 & E2).
  - intros d' Hd'. apply H. now right.
  - destruct (well_formed_passes i d r (H d (or_introl eq_refl))) as (E3 & E4).
    rewrite E1, E2. auto.
Qed.

Lemma written_citations_well_formed (clean_bibtex_field : string -> string)
    (urlparse : string -> option (string * string)) (priority : list string)
    (inputs : list parsed_file) (include_metadata : bool) (d : CitationDict.t) :
  In d (save_yaml include_metadata
          (conversions (batch_convert clean_bibtex_field urlparse priority inputs))) ->
  well_formed d.
Proof.
  unfold save_yaml. intros H.
  apply (Permutation_in _ (sort_by_perm _ sort_key _)) in H.
  unfold _remove_arxiv_duplicates in H. apply filter_In in H. destruct H as (H & _).
  apply successful_loop_in in H. destruct H as [[]|(r & c & Hr & Hc & ->)].
  apply batch_results in Hr. destruct Hr as [(e & ->)|(path & err & ->)]; [|discriminate].
  apply convert_entry_citation in Hc. destruct Hc as (_ & Hid & _).
  exists (ManubotCitation.id c), (value (ManubotCitation.citation_type c)).
  split; [reflexivity|]. rewrite Hid.
  destruct (id_of_family (ManubotCitation.citation_type c) (ManubotCitation.identifier c))
    as (_ & ->).
  split; [destruct (ManubotCitation.citation_type c); reflexivity|].
  split; [lia|]. split; [reflexivity|]. apply value_nonempty.
Qed.

(** C5, as the claim states it, fails: the citation built for a record
    whose key is a DBLP key has an id with two colons. *)
Lemma id_with_two_colons :
  exists c,
    ConversionResult.manubot_citation
      (convert_entry Samples.clean_bibtex_field Samples.urlparse
         default_citation_priority Samples.dblp_keyed) = Some c
    /\ ManubotCitation.id c = "raw:DBLP:conf/nips/Smith17"
    /\ count_colons (ManubotCitation.id c) <> 1.
Proof.
  eexists. split; [vm_compute; reflexivity|]. split; [reflexivity|].
  vm_compute. discriminate.
Qed.

(** C5 (amended).  A citation built by [convert_entry] has the id
    [family ++ ":" ++ value] for the family and value the resolver
    returned; the id contains at least one colon (one more than the
    value itself contains) and its text before the first colon is the
    citation's family.  Building a citation fails exactly when its id
    contains no colon.  Every citation written for a batch has a
    non-empty id containing a colon and a non-empty type, and the
    validation of the written list reports no error. *)
Theorem citation_id_shape (clean_bibtex_field : string -> string)
    (urlparse : string -> option (string * string)) (priority : list string) :
  (forall entry c,
     ConversionResult.manubot_citation
       (convert_entry clean_bibtex_field urlparse priority entry) = Some c ->
     ManubotCitation.id c
     = (value (ManubotCitation.citation_type c) ++ ":" ++ ManubotCitation.identifier c)%string
     /\ before_colon (ManubotCitation.id c) = value (ManubotCitation.citation_type c)
     /\ count_colons (ManubotCitation.id c)
        = 1 + count_colons (ManubotCitation.identifier c))
  /\ (forall c, (exists msg, new_citation c = inr msg)
                <-> count_colons (ManubotCitation.id c) = 0)
  /\ (forall inputs include_metadata,
        let written :=
          save_yaml include_metadata
            (conversions (batch_convert clean_bibtex_field urlparse priority inputs)) in
        (forall d, In d written -> well_formed d)
        /\ valid (validate_citations written) = true
        /\ v_errors (validate_citations written) = []).
Proof.
  split; [|split].
  - intros entry c H. apply convert_entry_citation in H. destruct H as (_ & Hid & _).
    split; [exact Hid|]. rewrite Hid. apply id_of_family.
  - intros c. destruct (new_citation_cases c) as [(E & Hc)|(E & Hc)]; rewrite E.
    + split; [intros (msg & H); discriminate | lia].
    + split; [intros _; exact Hc | intros _; eexists; reflexivity].
  - intros inputs include_metadata written.
    assert (Hwf : forall d, In d written -> well_formed d)
      by (intros d; apply written_citations_well_formed).
    split; [exact Hwf|].
    unfold validate_citations. now apply validate_loop_well_formed.
Qed.

Lemma citation_id_shape_witness :
  valid (validate_citations
           (save_yaml true
              (conversions
                 (batch_convert Samples.clean_bibtex_field Samples.urlparse ["doi"; "pmid"]
                    [("refs.bib", inl [Samples.both_ids; Samples.dblp_keyed; Samples.keyless]);
                     ("broken.bib", inr "unexpected end of file")])))) = true.
Proof.
  apply (citation_id_shape Samples.clean_bibtex_field Samples.urlparse ["doi"; "pmid"]).
Defined.

End IdFacts.

Module ResolverWitnesses.
Import Py Re Utils Models Converter Spec ResolverFacts.

Lemma resolution_first_match_witness :
  _extract_best_identifier Samples.urlparse ["pmid"; "doi"] Samples.both_ids
  = (Some PMID, Some "12345678").
Proof.
  apply (proj2 (proj2 (proj2 (proj2
           (resolution_first_match Samples.urlparse ["pmid"; "doi"] Samples.both_ids))))
           "10.1234/example" "10.1234/example" "12345678" "12345678");
    vm_compute; reflexivity.
Defined.

Lemma raw_fallback_or_local_failure_witness :
  ConversionResult.success
    (convert_entry Samples.clean_bibtex_field Samples.urlparse ["doi"; "pmid"]
       Samples.keyless) = false
  /\ _extract_best_identifier Samples.urlparse ["doi"; "pmid"] Samples.dblp_keyed
     = (Some RAW, Some "DBLP:conf/nips/Smith17").
Proof.
  split.
  - destruct (raw_fallback_or_local_failure Samples.clean_bibtex_field Samples.urlparse
                ["doi"; "pmid"] Samples.keyless) as (_ & H & _).
    + intros f [<-|[<-|[]]]; reflexivity.
    + destruct (H eq_refl) as (_ & ->). reflexivity.
  - apply (raw_fallback_or_local_failure Samples.clean_bibtex_field Samples.urlparse
             ["doi"; "pmid"] Samples.dblp_keyed).
    + intros f [<-|[<-|[]]]; reflexivity.
    + reflexivity.
Defined.

End ResolverWitnesses.

(* ================================================================== *)
(** ** Conversion of entries and batches *)
(* ================================================================== *)

Module PipelineFacts.
Import Py Re Utils Models Converter Spec More MoreSpec.
Import ResolverFacts IdFacts.

Lemma parse_loop_flat (input_paths : list parsed_file)
    (acc : list (BibTeXEntry.t + ConversionResult.t)) :
  parse_loop input_paths acc
  = acc ++ flat_map (fun input =>
                       match snd input with
                       | inl entries => map inl entries
                       | inr err => [inr (failed_file (fst input) err)]
                       end) input_paths.
Proof.
  revert acc. induction input_paths as [|[path [entries|err]] rest IH]; intros acc; simpl.
  - now rewrite app_nil_r.
  - rewrite IH, <- app_assoc. reflexivity.
  - rewrite IH, <- app_assoc. reflexivity.
Qed.

Lemma convert_entry_key (clean_bibtex_field : string -> string)
    (urlparse : string -> option (string * string)) (priority : list string)
    (entry : BibTeXEntry.t) :
  ConversionResult.original_key (convert_entry clean_bibtex_field urlparse priority entry)
  = BibTeXEntry.key entry.
Proof.
  unfold convert_entry.
  destruct (_extract_best_identifier urlparse priority entry) as [ot [v|]];
    [|reflexivity].
  destruct (is_empty v); [reflexivity|].
  destruct ot as [t|]; [|reflexivity].
  destruct (generate_publication_date _ _ _) as [date|e]; [|reflexivity].
  destruct (new_citation _); reflexivity.
Qed.

Lemma all_entries_length (input_paths : list parsed_file) :
  List.length (all_entries_of input_paths)
  = parsed_entries input_paths + unparsed input_paths.
Proof.
  unfold all_entries_of, parsed_entries, unparsed.
  induction input_paths as [|[path [entries|err]] rest IH]; [reflexivity| |].
  - cbn [flat_map snd fst filter]. rewrite !length_app, length_map, IH. lia.
  - cbn [flat_map snd fst filter app List.length]. rewrite IH. lia.
Qed.

Lemma all_entries_failed (input_paths : list parsed_file) :
  List.length (filter is_failed_file (all_entries_of input_paths)) = unparsed input_paths
  /\ Forall (fun x => match x with
                      | inl _ => True
                      | inr r => ConversionResult.success r = false
                      end) (all_entries_of input_paths).
Proof.
  unfold all_entries_of, unparsed.
  induction input_paths as [|[path [entries|err]] rest (IH1 & IH2)].
  - split; [reflexivity | constructor].
  - cbn [flat_map snd fst filter]. rewrite filter_app, length_app, IH1. split.
    + assert (H : filter is_failed_file (map inl entries) = []).
      { clear. induction entries as [|e es IH]; [reflexivity | exact IH]. }
      now rewrite H.
    + apply Forall_app. split; [|exact IH2].
      apply Forall_forall. intros x Hx. apply in_map_iff in Hx.
      destruct Hx as (e & <- & _). exact I.
  - cbn [flat_map snd fst filter app is_failed_file List.length]. rewrite IH1.
    split; [reflexivity|]. constructor; [reflexivity | exact IH2].
Qed.

Lemma successes_bound (clean_bibtex_field : string -> string)
    (urlparse : string -> option (string * string)) (priority : list string)
    (xs : list (BibTeXEntry.t + ConversionResult.t)) :
  Forall (fun x => match x with
                   | inl _ => True
                   | inr r => ConversionResult.success r = false
                   end) xs ->
  List.length (filter ConversionResult.success
                 (map (result_of clean_bibtex_field urlparse priority) xs))
  + List.length (filter is_failed_file xs) <= List.length xs.
Proof.
  induction 1 as [|[e|r] xs Hx _ IH]; [simpl; lia| |].
  - cbn [map filter result_of is_failed_file List.length].
    destruct (ConversionResult.success _); simpl; lia.
  - cbn [map filter result_of is_failed_file List.length]. rewrite Hx. simpl. lia.
Qed.

Lemma batch_conversions (clean_bibtex_field : string -> string)
    (urlparse : string -> option (string * string)) (priority : list string)
    (input_paths : list parsed_file) :
  conversions (batch_convert clean_bibtex_field urlparse priority input_paths)
  = map (result_of clean_bibtex_field urlparse priority) (all_entries_of input_paths).
Proof.
  unfold batch_convert. cbn [conversions].
  rewrite convert_loop_map, parse_loop_flat. reflexivity.
Qed.

(** X1. The counts of a batch add up: every entry of a parsed file and
    every file that could not be parsed gives exactly one result, in
    input order and under the key of the entry (or ["FILE:"] and the
    path); the total is the sum of successes and failures, and every
    unparsed file counts as a failure. *)
Theorem batch_counts (clean_bibtex_field : string -> string)
    (urlparse : string -> option (string * string)) (priority : list string)
    (input_paths : list parsed_file) :
  let b := batch_convert clean_bibtex_field urlparse priority input_paths in
  total_entries b = List.length (conversions b)
  /\ total_entries b = parsed_entries input_paths + unparsed input_paths
  /\ total_entries b = successful_conversions b + failed_conversions b
  /\ unparsed input_paths <= failed_conversions b
  /\ map ConversionResult.original_key (conversions b) = expected_keys input_paths
  /\ input_files b = map fst input_paths.
Proof.
  intros b.
  pose proof (batch_conversions clean_bibtex_field urlparse priority input_paths) as Hc.
  fold b in Hc.
  assert (Ht : total_entries b = List.length (conversions b)) by reflexivity.
  assert (Hs : successful_conversions b
               = List.length (filter ConversionResult.success (conversions b)))
    by reflexivity.
  assert (Hf : failed_conversions b
               = List.length (conversions b) - successful_conversions b) by reflexivity.
  assert (Hlen : List.length (conversions b)
                 = parsed_entries input_paths + unparsed input_paths)
    by (rewrite Hc, length_map; apply all_entries_length).
  destruct (all_entries_failed input_paths) as (Hu & Hall).
  pose proof (successes_bound clean_bibtex_field urlparse priority _ Hall) as Hb.
  rewrite <- Hc, Hu, <- Hs, all_entries_length in Hb.
  split; [exact Ht|]. split; [lia|]. split; [lia|]. split; [lia|].
  split; [|reflexivity].
  rewrite Hc. unfold expected_keys, all_entries_of. clear.
  induction input_paths as [|[path [entries|err]] rest IH]; [reflexivity| |].
  - cbn [flat_map snd fst]. rewrite !map_app, IH. f_equal.
    rewrite !map_map. apply map_ext. intros e. apply convert_entry_key.
  - cbn [flat_map snd fst app map result_of failed_file ConversionResult.original_key].
    now rewrite IH.
Qed.



(** X3. The resolver returns a family together with an identifier or
    nothing at all.  An identifier returned is never empty and its
    family is never [wikidata]; the family is [raw], with the entry's
    key, only when every family of the priority list yields nothing,
    and otherwise its name is one of the priority list. *)
Theorem resolver_result_shape (urlparse : string -> option (string * string))
    (priority : list string) (entry : BibTeXEntry.t) :
  match _extract_best_identifier urlparse priority entry with
  | (Some t, Some v) =>
      is_empty v = false /\ t <> WIKIDATA
      /\ ((t = RAW /\ v = BibTeXEntry.key entry
           /\ forall f, In f priority -> try_identifier urlparse entry f = None)
          \/ (t <> RAW /\ In (value t) priority))
  | (None, None) =>
      is_empty (BibTeXEntry.key entry) = true
      /\ forall f, In f priority -> try_identifier urlparse entry f = None
  | _ => False
  end.
Proof.
  pose proof (priority_loop_none urlparse entry priority) as Hnone.
  unfold _extract_best_identifier.
  destruct (priority_loop urlparse entry priority) as [[t v]|] eqn:El.
  - apply priority_loop_first in El.
    destruct El as (before & f & after & -> & _ & Hf).
    assert (Hin : In f (before ++ f :: after)) by (apply in_or_app; right; now left).
    apply try_identifier_cases in Hf.
    destruct Hf as [(-> & -> & H)|[(-> & -> & H)|[(-> & -> & H)|[(-> & -> & H)|
                   [(-> & -> & H)|(-> & -> & H)]]]]];
      destruct H as (raw & _ & _ & _ & H);
      (split; [exact H|]); (split; [discriminate|]); right;
      (split; [discriminate | exact Hin]).
  - destruct (is_empty (BibTeXEntry.key entry)) eqn:Ek.
    + split; [reflexivity | now apply Hnone].
    + split; [exact Ek|]. split; [discriminate|]. left.
      split; [reflexivity|]. split; [reflexivity | now apply Hnone].
Qed.

Lemma success_has_citation (clean_bibtex_field : string -> string)
    (urlparse : string -> option (string * string)) (priority : list string)
    (x : BibTeXEntry.t + ConversionResult.t) :
  match x with
  | inl _ => True
  | inr r => ConversionResult.success r = false
  end ->
  let r := result_of clean_bibtex_field urlparse priority x in
  (ConversionResult.success r = true /\ exists c, ConversionResult.manubot_citation r = Some c)
  \/ (ConversionResult.success r = false /\ ConversionResult.manubot_citation r = None)
  \/ (ConversionResult.success r = false /\ is_failed_file x = true).
Proof.
  destruct x as [e|r]; cbn [result_of is_failed_file].
  - intros _. unfold convert_entry.
    destruct (_extract_best_identifier urlparse priority e) as [ot [v|]]; [|auto].
    destruct (is_empty v); [auto|]. destruct ot as [t|]; [|auto].
    destruct (generate_publication_date _ _ _) as [date|ex]; [|auto].
    destruct (new_citation _) as [c|msg]; cbn; [left; eauto | auto].
  - intros H. right. right. auto.
Qed.

Lemma successful_loop_map (include_metadata : bool)
    (convs : list ConversionResult.t) (acc : list CitationDict.t) :
  successful_loop include_metadata convs acc
  = acc ++ map (fun c => to_dict c include_metadata)
               (flat_map (fun result =>
                            match ConversionResult.success result,
                                  ConversionResult.manubot_citation result with
                            | true, Some c => [c]
                            | _, _ => []
                            end) convs).
Proof.
  revert acc. induction convs as [|r rest IH]; intros acc; cbn [successful_loop flat_map].
  - now rewrite app_nil_r.
  - destruct (ConversionResult.success r), (ConversionResult.manubot_citation r);
      rewrite IH; cbn [app map]; rewrite <- ?app_assoc; reflexivity.
Qed.

(** In a batch every result marked successful carries a citation. *)
Lemma successes_have_citations (clean_bibtex_field : string -> string)
    (urlparse : string -> option (string * string)) (priority : list string)
    (input_paths : list parsed_file) :
  let b := batch_convert clean_bibtex_field urlparse priority input_paths in
  List.length (get_successful_citations b) = successful_conversions b.
Proof.
  intros b. unfold get_successful_citations.
  assert (Hs : successful_conversions b
               = List.length (filter ConversionResult.success (conversions b)))
    by reflexivity.
  rewrite Hs. subst b.
  rewrite (batch_conversions clean_bibtex_field urlparse priority input_paths).
  destruct (all_entries_failed input_paths) as (_ & Hall).
  induction Hall as [|x xs Hx _ IH]; [reflexivity|].
  cbn [map flat_map filter]. rewrite length_app, IH.
  destruct (success_has_citation clean_bibtex_field urlparse priority x Hx)
    as [(E1 & c & E2)|[(E1 & E2)|(E1 & _)]]; rewrite E1; try rewrite E2; reflexivity.
Qed.

(** X4. The citations [get_successful_citations] returns for a batch
    are as many as the batch counts as successful, and the dictionaries
    [save_yaml] starts from are theirs, in the same order. *)
Theorem successful_citations_counted (clean_bibtex_field : string -> string)
    (urlparse : string -> option (string * string)) (priority : list string)
    (input_paths : list parsed_file) (include_metadata : bool) :
  let b := batch_convert clean_bibtex_field urlparse priority input_paths in
  List.length (get_successful_citations b) = successful_conversions b
  /\ successful_loop include_metadata (conversions b) []
     = map (fun c => to_dict c include_metadata) (get_successful_citations b).
Proof.
  intros b. split; [apply successes_have_citations|].
  unfold get_successful_citations. now rewrite successful_loop_map.
Qed.

End PipelineFacts.

(* ================================================================== *)
(** ** Writing: filtering and ordering *)
(* ================================================================== *)

Module WritingFacts.
Import Py Re Utils Models Converter Spec More MoreSpec.
Import DuplicateFacts SortFacts.

Lemma sort_by_constant (A : Type) (key : A -> Z * string) (k : Z * string) (l : list A) :
  (forall x, In x l -> key x = k) -> sort_by key l = l.
Proof.
  induction l as [|x l IH]; intros H; [reflexivity|].
  cbn [sort_by fold_right]. fold (sort_by key l).
  rewrite IH by (intros y Hy; apply H; now right).
  destruct l as [|y l]; [reflexivity|]. cbn [insert_by].
  rewrite (H x (or_introl eq_refl)), (H y (or_intror (or_introl eq_refl))).
  now rewrite key_leb_refl.
Qed.

(** A list in key order is returned as it is. *)
Lemma sort_by_sorted_id (A : Type) (key : A -> Z * string) (l : list A) :
  StronglySorted (key_le key) l -> sort_by key l = l.
Proof.
  induction 1 as [|x l Hs IH Hall]; [reflexivity|].
  cbn [sort_by fold_right]. fold (sort_by key l). rewrite IH.
  destruct l as [|y l]; [reflexivity|]. cbn [insert_by].
  inversion Hall as [|? ? Hxy _]; subst. unfold key_le in Hxy. now rewrite Hxy.
Qed.

Lemma filter_nothing (l : list CitationDict.t) :
  filter (fun c => negb (in_set (CitationDict.id c) [])) l = l.
Proof. induction l as [|c cs IH]; [reflexivity|]. cbn. now f_equal. Qed.

Lemma no_arxiv_no_removal (citations : list CitationDict.t) (min_overlap : Z) :
  arxiv_papers_of citations = [] ->
  _remove_arxiv_duplicates citations min_overlap = citations.
Proof.
  intros H. unfold _remove_arxiv_duplicates, arxiv_to_remove. rewrite H. simpl.
  apply filter_nothing.
Qed.

Lemma successful_loop_plain (conversions : list ConversionResult.t)
    (acc : list CitationDict.t) (d : CitationDict.t) :
  (forall d', In d' acc ->
     CitationDict.publisher d' = None /\ CitationDict.year d' = None
     /\ CitationDict.title d' = None) ->
  In d (successful_loop false conversions acc) ->
  CitationDict.publisher d = None /\ CitationDict.year d = None
  /\ CitationDict.title d = None.
Proof.
  revert acc. induction conversions as [|r rest IH]; intros acc Hacc; simpl.
  - apply Hacc.
  - destruct (ConversionResult.success r), (ConversionResult.manubot_citation r) as [c|];
      apply IH; try exact Hacc.
    intros d' Hd'. apply in_app_or in Hd'. destruct Hd' as [Hd'|[<-|[]]].
    + now apply Hacc.
    + cbn. auto.
Qed.

Lemma plain_not_arxiv (l : list CitationDict.t) :
  (forall d, In d l -> CitationDict.publisher d = None) -> arxiv_papers_of l = [].
Proof.
  unfold arxiv_papers_of. induction l as [|d l IH]; intros H; [reflexivity|].
  cbn [filter]. unfold is_CoRR at 1. rewrite (H d (or_introl eq_refl)). cbn [opt_eqb].
  apply IH. intros d' Hd'. apply H. now right.
Qed.

(** X5. When metadata is not included, [save_yaml] removes nothing and
    reorders nothing: the citations are written in the order of their
    successful results. *)
Theorem save_yaml_without_metadata (conversions : list ConversionResult.t) :
  save_yaml false conversions = successful_loop false conversions [].
Proof.
  unfold save_yaml.
  assert (Hplain : forall d, In d (successful_loop false conversions []) ->
             CitationDict.publisher d = None /\ CitationDict.year d = None
             /\ CitationDict.title d = None).
  { intros d. apply successful_loop_plain. intros d' []. }
  rewrite no_arxiv_no_removal.
  - apply (sort_by_constant _ sort_key (0%Z, EmptyString)).
    intros d Hd. destruct (Hplain d Hd) as (_ & Hy & Ht).
    unfold sort_key, year_or_0, title_of. now rewrite Hy, Ht.
  - apply plain_not_arxiv. intros d Hd. now destruct (Hplain d Hd).
Qed.

(** X6. Sorting leaves a list unchanged exactly when the list is
    already in key order; in particular sorting is idempotent. *)
Theorem sort_by_fixed_points (l : list CitationDict.t) :
  (sort_by sort_key l = l <-> StronglySorted (key_le sort_key) l)
  /\ sort_by sort_key (sort_by sort_key l) = sort_by sort_key l.
Proof.
  split; [split|].
  - intros H. rewrite <- H. apply sort_by_sorted.
  - apply sort_by_sorted_id.
  - apply sort_by_sorted_id, sort_by_sorted.
Qed.

Lemma removal_kept_in (citations : list CitationDict.t) (min_overlap : Z)
    (c : CitationDict.t) :
  In c (_remove_arxiv_duplicates citations min_overlap) -> In c citations.
Proof. unfold _remove_arxiv_duplicates. intros H. apply filter_In in H. tauto. Qed.

(** X7. Duplicate removal is idempotent: in its output no arXiv entry
    is marked any more, so a second pass returns the list unchanged. *)
Theorem remove_arxiv_duplicates_idempotent (citations : list CitationDict.t)
    (min_overlap : Z) :
  let out := _remove_arxiv_duplicates citations min_overlap in
  arxiv_to_remove out min_overlap = []
  /\ _remove_arxiv_duplicates out min_overlap = out.
Proof.
  intros out.
  assert (Hnone : arxiv_to_remove out min_overlap = []).
  { destruct (arxiv_to_remove out min_overlap) as [|i rest] eqn:E; [reflexivity|].
    exfalso.
    assert (Hi : In i (arxiv_to_remove out min_overlap)) by (rewrite E; now left).
    apply arxiv_to_remove_iff in Hi. destruct Hi as (a & Ha & Hc & Hm & _).
    apply marked_iff in Hm. destruct Hm as (Ht & p & Hp & Hq).
    pose proof Ha as Ha'. unfold out, _remove_arxiv_duplicates in Ha'.
    apply filter_In in Ha'. destruct Ha' as (Hin & Hkeep).
    apply negb_true_iff in Hkeep.
    assert (Hrem : in_set (CitationDict.id a) (arxiv_to_remove citations min_overlap)
                   = true).
    { apply in_set_In, arxiv_to_remove_iff. exists a.
      split; [exact Hin|]. split; [exact Hc|]. split; [|reflexivity].
      apply marked_iff. split; [exact Ht|]. exists p.
      split; [|exact Hq]. now apply (removal_kept_in citations min_overlap). }
    congruence. }
  split; [exact Hnone|].
  unfold _remove_arxiv_duplicates at 1. rewrite Hnone. apply filter_nothing.
Qed.

(** X8. Raising the threshold never removes more: every citation kept
    under [m1] is kept under any [m2 >= m1].  A list without arXiv
    entries, or without titled published entries to compare with, is
    returned unchanged. *)
Theorem removal_monotone (citations : list CitationDict.t) (m1 m2 : Z) :
  (m1 <= m2)%Z ->
  (forall c, In c (_remove_arxiv_duplicates citations m1) ->
             In c (_remove_arxiv_duplicates citations m2))
  /\ (arxiv_papers_of citations = [] ->
      _remove_arxiv_duplicates citations m1 = citations)
  /\ ((forall p, In p citations -> is_CoRR p = false -> is_empty (title_of p) = true) ->
      _remove_arxiv_duplicates citations m1 = citations).
Proof.
  intros Hle. split; [|split].
  - intros c Hc. unfold _remove_arxiv_duplicates in *.
    apply filter_In in Hc. destruct Hc as (Hin & Hkeep).
    apply filter_In. split; [exact Hin|].
    apply negb_true_iff. apply negb_true_iff in Hkeep.
    destruct (in_set (CitationDict.id c) (arxiv_to_remove citations m2)) eqn:E;
      [|reflexivity].
    apply in_set_In, arxiv_to_remove_iff in E.
    destruct E as (a & Ha & Hco & Hm & Hid).
    assert (H1 : in_set (CitationDict.id c) (arxiv_to_remove citations m1) = true).
    { apply in_set_In, arxiv_to_remove_iff. exists a.
      split; [exact Ha|]. split; [exact Hco|]. split; [|exact Hid].
      apply marked_iff. apply marked_iff in Hm. destruct Hm as (Ht & p & Hp & Hq).
      split; [exact Ht|]. exists p. split; [exact Hp|].
      destruct Hq as (Q1 & Q2 & k & Hk & Hr). split; [exact Q1|]. split; [exact Q2|].
      exists k. split; [lia | exact Hr]. }
    congruence.
  - apply no_arxiv_no_removal.
  - intros Hblank. unfold _remove_arxiv_duplicates.
    assert (Hnone : arxiv_to_remove citations m1 = []).
    { destruct (arxiv_to_remove citations m1) as [|i rest] eqn:E; [reflexivity|].
      exfalso.
      assert (Hi : In i (arxiv_to_remove citations m1)) by (rewrite E; now left).
      apply arxiv_to_remove_iff in Hi. destruct Hi as (a & _ & _ & Hm & _).
      apply marked_iff in Hm. destruct Hm as (_ & p & Hp & Q1 & Q2 & _).
      rewrite (Hblank p Hp Q1) in Q2. discriminate. }
    rewrite Hnone. apply filter_nothing.
Qed.

Lemma removal_monotone_witness :
  In Samples.preprint5
     (_remove_arxiv_duplicates [Samples.preprint5; Samples.published5] 7).
Proof.
  apply (proj1 (removal_monotone [Samples.preprint5; Samples.published5] 6 7
                  ltac:(lia))).
  vm_compute. auto.
Defined.

End WritingFacts.

(* ================================================================== *)
(** ** Title overlap *)
(* ================================================================== *)

Module OverlapFacts.
Import Py Re Utils Models Converter Spec More MoreSpec.
Import DuplicateFacts StringFacts.






Lemma is_empty_smap (f : ascii -> ascii) (s : string) :
  is_empty (smap f s) = is_empty s.
Proof. now destruct s. Qed.


End OverlapFacts.

(* ================================================================== *)
(** ** Validation of a written file *)
(* ================================================================== *)

Module ValidationFacts.
Import Py Re Utils Models Converter Spec More MoreSpec.
Import IdFacts.

Lemma well_formed_dec (d : CitationDict.t) : well_formed d \/ ~ well_formed d.
Proof.
  unfold well_formed.
  destruct (CitationDict.id d) as [i|] eqn:Ei;
    [|right; intros (i & t & H & _); discriminate].
  destruct (CitationDict.type d) as [t|] eqn:Et;
    [|right; intros (i' & t' & _ & _ & _ & H & _); discriminate].
  destruct (is_empty i) eqn:Hi;
    [right; intros (i' & t' & H & H' & _); injection H as <-; congruence|].
  destruct (is_empty t) eqn:Ht;
    [right; intros (i' & t' & _ & _ & _ & H & H'); injection H as <-; congruence|].
  destruct (contains_char ":" i) eqn:Hc.
  - left. exists i, t. repeat split; auto. now apply contains_colon_count.
  - right. intros (i' & t' & H & _ & H' & _). injection H as <-.
    apply contains_colon_count in H'. congruence.
Qed.

(** One citation that is not well formed adds one or two errors and
    clears the flag. *)
Lemma ill_formed_fails (i : nat) (d : CitationDict.t) (r : validation_result) :
  ~ well_formed d ->
  valid (validate_one i d r) = false
  /\ exists e, v_errors (validate_one i d r) = v_errors r ++ e
               /\ 1 <= List.length e <= 2.
Proof.
  intros Hn. unfold validate_one.
  destruct (CitationDict.id d) as [ci|] eqn:Ei, (CitationDict.type d) as [ct|] eqn:Et;
    cbn [str_or_empty].
  - destruct (is_empty ci) eqn:Hi, (is_empty ct) eqn:Ht; cbn.
    + split; [reflexivity|]. eexists. rewrite <- app_assoc. split; [reflexivity|].
      simpl. lia.
    + split; [reflexivity|]. eexists. split; [reflexivity|]. simpl. lia.
    + destruct (contains_char ":" ci) eqn:Hc; cbn.
      * split; [reflexivity|]. eexists. split; [reflexivity|]. simpl. lia.
      * split; [reflexivity|]. eexists. rewrite <- app_assoc. split; [reflexivity|].
        simpl. lia.
    + destruct (contains_char ":" ci) eqn:Hc; cbn.
      * exfalso. apply Hn. exists ci, ct. repeat split; auto.
        now apply contains_colon_count.
      * split; [reflexivity|]. eexists. split; [reflexivity|]. simpl. lia.
  - destruct (is_empty ci) eqn:Hi; cbn.
    + split; [reflexivity|]. eexists. rewrite <- app_assoc. split; [reflexivity|].
      simpl. lia.
    + destruct (contains_char ":" ci) eqn:Hc; cbn.
      * split; [reflexivity|]. eexists. split; [reflexivity|]. simpl. lia.
      * split; [reflexivity|]. eexists. rewrite <- app_assoc. split; [reflexivity|].
        simpl. lia.
  - cbn. destruct (is_empty ct) eqn:Ht; cbn.
    + split; [reflexivity|]. eexists. rewrite <- app_assoc. split; [reflexivity|].
      simpl. lia.
    + split; [reflexivity|]. eexists. split; [reflexivity|]. simpl. lia.
  - cbn. split; [reflexivity|]. eexists. rewrite <- app_assoc. split; [reflexivity|].
    simpl. lia.
Qed.

Lemma validate_one_count (i : nat) (d : CitationDict.t) (r : validation_result) :
  citation_count (validate_one i d r) = citation_count r.
Proof.
  unfold validate_one.
  destruct (is_empty (str_or_empty (CitationDict.id d)));
    [|destruct (negb (contains_char ":" (str_or_empty (CitationDict.id d))))];
    destruct (is_empty (str_or_empty (CitationDict.type d))); reflexivity.
Qed.

Lemma validate_one_warnings (i : nat) (d : CitationDict.t) (r : validation_result) :
  List.length (v_warnings r) <= List.length (v_warnings (validate_one i d r))
  <= List.length (v_warnings r) + 3.
Proof.
  unfold validate_one.
  destruct (is_empty (str_or_empty (CitationDict.id d)));
    [|destruct (negb (contains_char ":" (str_or_empty (CitationDict.id d))))];
    destruct (is_empty (str_or_empty (CitationDict.type d)));
    cbn [v_warnings];
    destruct (truthy (CitationDict.title d)), (nonempty_list (CitationDict.authors d)),
      (nonzero (CitationDict.year d)); rewrite ?length_app; simpl; lia.
Qed.

(** The state of the loop: the flag is set exactly when no error has
    been recorded, and the counts are within their bounds. *)
Lemma validate_loop_invariant (l : list CitationDict.t) (i : nat) (r : validation_result) :
  (valid r = true <-> v_errors r = []) ->
  let r' := validate_loop i l r in
  (valid r' = true <-> v_errors r' = [])
  /\ (valid r' = true <-> valid r = true /\ forall d, In d l -> well_formed d)
  /\ citation_count r' = citation_count r
  /\ List.length (v_errors r) <= List.length (v_errors r')
     <= List.length (v_errors r) + 2 * List.length l
  /\ List.length (v_warnings r) <= List.length (v_warnings r')
     <= List.length (v_warnings r) + 3 * List.length l.
Proof.
  revert i r. induction l as [|d l IH]; intros i r Hinv; cbn [validate_loop].
  - cbn zeta. split; [exact Hinv|]. split; [|simpl; lia].
    split; [intros H; split; [exact H | intros d []] | tauto].
  - assert (Hstep : (valid (validate_one i d r) = true
                     <-> v_errors (validate_one i d r) = [])
                    /\ (valid (validate_one i d r) = true
                        <-> valid r = true /\ well_formed d)
                    /\ List.length (v_errors r)
                       <= List.length (v_errors (validate_one i d r))
                       <= List.length (v_errors r) + 2).
    { destruct (well_formed_dec d) as [Hw|Hn].
      - destruct (well_formed_passes i d r Hw) as (E1 & E2). rewrite E1, E2.
        split; [exact Hinv|]. split; [tauto | lia].
      - destruct (ill_formed_fails i d r Hn) as (E1 & e & E2 & He).
        rewrite E1, E2, length_app.
        split; [|split; [|lia]].
        + split; [discriminate|]. intros H. apply app_eq_nil in H.
          destruct H as (_ & ->). simpl in He. lia.
        + split; [discriminate | tauto]. }
    destruct Hstep as (S1 & S2 & S3).
    specialize (IH (S i) (validate_one i d r) S1). cbn zeta in IH |- *.
    destruct IH as (I1 & I2 & I3 & I4 & I5).
    pose proof (validate_one_warnings i d r) as W.
    split; [exact I1|]. split; [|split; [|split]].
    + rewrite I2, S2. split.
      * intros ((Hv & Hw) & Hall). split; [exact Hv|].
        intros d' [<-|Hd']; auto.
      * intros (Hv & Hall). split; [split; [exact Hv|]|].
        -- apply Hall. now left.
        -- intros d' Hd'. apply Hall. now right.
    + rewrite I3. apply validate_one_count.
    + cbn [List.length]. lia.
    + cbn [List.length]. lia.
Qed.

(** X10. The verdict of [validate_manubot_format] on the citations
    read: [valid] is set exactly when no error is recorded, which is
    exactly when every citation has a non-empty id with a colon and a
    non-empty type; warnings never change the verdict; the count is
    the number of citations, with at most two errors and three
    warnings for each. *)
Theorem validation_verdict (citations : list CitationDict.t) :
  let r := validate_citations citations in
  (valid r = true <-> v_errors r = [])
  /\ (valid r = true <-> forall d, In d citations -> well_formed d)
  /\ citation_count r = List.length citations
  /\ List.length (v_errors r) <= 2 * List.length citations
  /\ List.length (v_warnings r) <= 3 * List.length citations.
Proof.
  unfold validate_citations.
  pose proof (validate_loop_invariant citations 0
                (mk_validation true [] [] (List.length citations) [])) as H.
  cbn zeta in H |- *. destruct H as (H1 & H2 & H3 & H4 & H5).
  - cbn. tauto.
  - split; [exact H1|]. split; [|split; [exact H3|]].
    + rewrite H2. cbn. tauto.
    + cbn in H4, H5. lia.
Qed.

End ValidationFacts.

(* ================================================================== *)
(** ** The dates written *)
(* ================================================================== *)

Module CalendarFacts.
Import Py Re Utils Models Converter Spec More MoreSpec.
Import StringFacts DateFacts.








End CalendarFacts.

(* ================================================================== *)
(** ** What is written for an entry *)
(* ================================================================== *)

Module WrittenFacts.
Import Py Re Utils Models Converter Spec More MoreSpec.
Import StringFacts DateFacts.

Lemma priority_loop_unwritten (urlparse : string -> option (string * string))
    (entry : BibTeXEntry.t) (p v n pg : option string) (priority : list string) :
  priority_loop urlparse (with_unwritten entry p v n pg) priority
  = priority_loop urlparse entry priority.
Proof.
  induction priority as [|f rest IH]; [reflexivity|].
  cbn [priority_loop]. rewrite IH. reflexivity.
Qed.

(** The fields of the citation a successful conversion builds. *)
Lemma convert_entry_fields (clean_bibtex_field : string -> string)
    (urlparse : string -> option (string * string)) (priority : list string)
    (entry : BibTeXEntry.t) (c : ManubotCitation.t) :
  ConversionResult.manubot_citation
    (convert_entry clean_bibtex_field urlparse priority entry) = Some c ->
  ManubotCitation.title c = clean_opt clean_bibtex_field (BibTeXEntry.title entry)
  /\ ManubotCitation.authors c = BibTeXEntry.authors entry
  /\ ManubotCitation.journal c = journal_or_conference clean_bibtex_field entry
  /\ ManubotCitation.year c = BibTeXEntry.year entry
  /\ generate_publication_date (BibTeXEntry.year entry) (BibTeXEntry.month entry)
       (BibTeXEntry.day entry)
     = inl (ManubotCitation.date c)
  /\ ManubotCitation.link c = BibTeXEntry.url entry.
Proof.
  unfold convert_entry.
  destruct (_extract_best_identifier urlparse priority entry) as [ot [v|]];
    [|discriminate].
  destruct (is_empty v); [discriminate|].
  destruct ot as [t|]; [|discriminate].
  destruct (generate_publication_date _ _ _) as [date|e]; [|discriminate].
  match goal with
  | |- context [new_citation ?x] =>
      destruct (IdFacts.new_citation_cases x) as [(E & _)|(E & _)]; rewrite E
  end.
  - simpl. intros H. injection H as <-. simpl. auto 10.
  - discriminate.
Qed.

Lemma date_text_nonempty (y : Z) (m d : string) : is_empty (date_text y m d) = false.
Proof. unfold date_text. destruct (str_of_int y); reflexivity. Qed.

(** X12. The publisher, volume, number and pages of an entry never
    reach the written citation: replacing them changes nothing of what
    is written for the entry. *)
Theorem unwritten_fields (clean_bibtex_field : string -> string)
    (urlparse : string -> option (string * string)) (priority : list string)
    (include_metadata : bool) (entry : BibTeXEntry.t)
    (publisher volume number pages : option string) :
  written_for clean_bibtex_field urlparse priority include_metadata
    (with_unwritten entry publisher volume number pages)
  = written_for clean_bibtex_field urlparse priority include_metadata entry.
Proof.
  unfold written_for, convert_entry, _extract_best_identifier.
  rewrite priority_loop_unwritten.
  destruct (priority_loop urlparse entry priority) as [[t v]|];
    unfold new_citation;
    cbn [with_unwritten BibTeXEntry.key BibTeXEntry.year BibTeXEntry.month
         BibTeXEntry.day ManubotCitation.id].
  - destruct (is_empty v); [reflexivity|].
    destruct (generate_publication_date _ _ _) as [date|e]; [|reflexivity].
    destruct (Models.validate_manubot_id (value t ++ ":" ++ v)); reflexivity.
  - destruct (is_empty (BibTeXEntry.key entry)) eqn:Ek; [reflexivity|].
    rewrite Ek.
    destruct (generate_publication_date _ _ _) as [date|e]; [|reflexivity].
    destruct (Models.validate_manubot_id (value RAW ++ ":" ++ BibTeXEntry.key entry));
      reflexivity.
Qed.

(** X13. In a citation written with metadata, the year is present
    exactly when the entry has a year other than 0, the date is present
    exactly when the year is, and the date is then that year followed
    by the month and the day used. *)
Theorem written_year_and_date (clean_bibtex_field : string -> string)
    (urlparse : string -> option (string * string)) (priority : list string)
    (entry : BibTeXEntry.t) (d : CitationDict.t) :
  year_fits (BibTeXEntry.year entry) ->
  written_for clean_bibtex_field urlparse priority true entry = Some d ->
  (CitationDict.year d = None <-> nonzero (BibTeXEntry.year entry) = false)
  /\ (CitationDict.date d = None <-> CitationDict.year d = None)
  /\ (forall y, CitationDict.year d = Some y ->
        BibTeXEntry.year entry = Some y /\ y <> 0%Z
        /\ exists k j,
             month_used (BibTeXEntry.month entry) k
             /\ day_used (BibTeXEntry.day entry) j
             /\ CitationDict.date d
                = Some (date_text y (fmt_02d k)
                          (fmt_02d (if datetime_ok y k j then j else last_day k)))).
Proof.
  intros _. unfold written_for.
  destruct (ConversionResult.manubot_citation
              (convert_entry clean_bibtex_field urlparse priority entry))
    as [c|] eqn:Ec; [|discriminate].
  cbn. intros H. injection H as <-.
  apply convert_entry_fields in Ec. destruct Ec as (_ & _ & _ & Ey & Ed & _).
  unfold to_dict. cbn [CitationDict.year CitationDict.date andb]. rewrite Ey.
  destruct (month_used_total (BibTeXEntry.month entry)) as (k & Hm).
  destruct (day_used_total (BibTeXEntry.day entry)) as (j & Hd).
  destruct (BibTeXEntry.year entry) as [y|];
    [|injection Ed as <-; repeat split; auto; discriminate].
  destruct (Z.eqb_spec y 0) as [E|NE].
  - subst y. injection Ed as <-. repeat split; auto; discriminate.
  - rewrite (date_when_returned y _ _ k j _ NE Hm Hd Ed).
    unfold nonzero, truthy, keep_if.
    rewrite date_text_nonempty.
    destruct (Z.eqb_spec y 0) as [E|_]; [contradiction|]. cbn [negb].
    split; [split; discriminate|]. split; [split; discriminate|].
    intros y' H. injection H as <-. split; [reflexivity|]. split; [exact NE|].
    exists k, j. auto.
Qed.

Lemma written_year_and_date_witness :
  exists d,
    written_for Samples.clean_bibtex_field Samples.urlparse default_citation_priority
      true Samples.dblp_keyed = Some d
    /\ (CitationDict.date d = None <-> CitationDict.year d = None).
Proof.
  eexists. split; [vm_compute; reflexivity|].
  match goal with
  | |- CitationDict.date ?d = None <-> _ =>
      destruct (written_year_and_date Samples.clean_bibtex_field Samples.urlparse
                  default_citation_priority Samples.dblp_keyed d) as (_ & H2 & _)
  end.
  - vm_compute. split; [discriminate | reflexivity].
  - vm_compute. reflexivity.
  - exact H2.
Defined.

End WrittenFacts.

(* ================================================================== *)
(** ** The ids built and the validator of utils.py *)
(* ================================================================== *)

Module IdentifierFacts.
Import Py Re Utils Models Converter Spec More MoreSpec.
Import StringFacts ExtractorFacts ResolverFacts EngineFacts.

Lemma chr_ok_978 (c : ascii) :
  chr_ok IGNORECASE "9" c || chr_ok IGNORECASE "7" c || chr_ok IGNORECASE "8" c = true ->
  isbn_char c = true.
Proof.
  destruct c as [[] [] [] [] [] [] [] []]; vm_compute; intros H;
    (reflexivity || discriminate H).
Qed.

Lemma cls_ok_digit (c : ascii) : cls_ok IGNORECASE d c = true -> isbn_char c = true.
Proof.
  destruct c as [[] [] [] [] [] [] [] []]; vm_compute; intros H;
    (reflexivity || discriminate H).
Qed.

Lemma cls_ok_digit_or_X (c : ascii) :
  cls_ok IGNORECASE (cls (either is_digit is_X)) c = true -> isbn_char c = true.
Proof.
  destruct c as [[] [] [] [] [] [] [] []]; vm_compute; intros H;
    (reflexivity || discriminate H).
Qed.

Lemma digit_isbn_char (c : ascii) : is_digit c = true -> isbn_char c = true.
Proof. unfold isbn_char. now intros ->. Qed.

Lemma isbn_char_kept (c : ascii) :
  isbn_char c = true -> cls_ok NOFLAGS (ncls (either is_digit is_X)) (upper_char c) = false.
Proof.
  destruct c as [[] [] [] [] [] [] [] []]; vm_compute; intros H;
    (reflexivity || discriminate H).
Qed.

(** The upper-case form of an ISBN character is one character. *)
Lemma isbn_char_upper (c : ascii) :
  isbn_char c = true -> upper_text c = String (upper_char c) "".
Proof.
  destruct c as [[] [] [] [] [] [] [] []]; vm_compute; intros H;
    (reflexivity || discriminate H).
Qed.

Lemma decimal_isdigit (s : string) : all_decimal s = true -> isdigit s = true.
Proof.
  unfold all_decimal, isdigit. intros H. apply andb_true_iff in H.
  destruct H as (-> & Hd). cbn [andb].
  apply (forallb_s_impl is_digit); [|exact Hd].
  intros c Hc. unfold is_digit_like. now rewrite Hc.
Qed.

Lemma isbn13_text (m : string) :
  matches_text IGNORECASE isbn13_body m ->
  String.length m = 13 /\ forallb_s isbn_char m = true.
Proof.
  cbn. intros (m1 & m2 & -> & H1 & H2 & Hlo & Hhi).
  destruct m1 as [|a [|b [|c [|]]]]; cbn [lit_text] in H1; try tauto.
  destruct H1 as (Ha & Hb & Hc & _).
  change (chr_ok IGNORECASE "9" a = true) in Ha.
  change (chr_ok IGNORECASE "7" b = true) in Hb.
  change (chr_ok IGNORECASE "8" c = true) in Hc.
  cbn [String.append String.length forallb_s].
  rewrite (chr_ok_978 a), (chr_ok_978 b), (chr_ok_978 c)
    by (rewrite ?Ha, ?Hb, ?Hc, ?orb_true_r; reflexivity).
  rewrite (forallb_s_impl _ _ m2 cls_ok_digit H2).
  split; [lia | reflexivity].
Qed.

Lemma isbn10_text (m : string) :
  matches_text IGNORECASE isbn10_body m ->
  String.length m = 10 /\ forallb_s isbn_char m = true.
Proof.
  cbn. intros (m1 & m2 & -> & (H1 & Hlo & Hhi) & c & -> & Hc).
  rewrite length_sapp, forallb_sapp. cbn [String.length forallb_s].
  rewrite (forallb_s_impl _ _ m1 cls_ok_digit H1), (cls_ok_digit_or_X c Hc).
  split; [lia | reflexivity].
Qed.

Lemma isbn_pattern_group (r : regex) (o : outcome) (subject : string) :
  In r isbn_patterns -> search r subject IGNORECASE = Some o ->
  (String.length (group1 o) = 10 \/ String.length (group1 o) = 13)
  /\ forallb_s isbn_char (group1 o) = true.
Proof.
  intros Hin Hs. unfold search in Hs. apply search_go_sound in Hs.
  destruct Hs as (_ & _ & _ & _ & Hc). unfold group1.
  cbn in Hin. destruct Hin as [<-|[<-|[<-|[<-|[]]]]]; cbn [seq captures] in Hc.
  - destruct Hc as (c1 & _ & c2 & _ & c3 & _ & m & -> & Hm).
    apply isbn13_text in Hm. destruct Hm as (-> & ->). auto.
  - destruct Hc as (c1 & _ & c2 & _ & c3 & _ & m & -> & Hm).
    apply isbn10_text in Hm. destruct Hm as (-> & ->). auto.
  - destruct Hc as (m & -> & Hm).
    apply isbn13_text in Hm. destruct Hm as (-> & ->). auto.
  - destruct Hc as (m & -> & Hm).
    apply isbn10_text in Hm. destruct Hm as (-> & ->). auto.
Qed.

Lemma digits_then_char (n : nat) (v : string) :
  forallb_s is_digit (take n v) = true -> decimal_or_X_at n v = true ->
  String.length v = S n -> forallb_s isbn_char v = true.
Proof.
  revert v. induction n as [|n IH]; intros v Ht Hc Hl.
  - destruct v as [|c [|]]; try discriminate. unfold decimal_or_X_at in Hc. cbn in Hc.
    cbn. unfold isbn_char. apply orb_true_iff in Hc. destruct Hc as [-> | ->];
      rewrite ?orb_true_r; reflexivity.
  - destruct v as [|c v]; [discriminate|]. cbn in Ht. apply andb_true_iff in Ht.
    destruct Ht as (Hd & Ht). cbn. rewrite (digit_isbn_char c Hd). cbn.
    apply IH; auto.
Qed.

Lemma isbn_grammar_chars (v : string) :
  isbn_grammar v = true ->
  (String.length v = 10 \/ String.length v = 13) /\ forallb_s isbn_char v = true.
Proof.
  unfold isbn_grammar. intros H. apply orb_true_iff in H. destruct H as [H|H].
  - apply andb_true_iff in H. destruct H as (Hl & Hd). apply Nat.eqb_eq in Hl.
    unfold all_decimal in Hd. apply andb_true_iff in Hd. destruct Hd as (_ & Hd).
    split; [now right|]. exact (forallb_s_impl _ _ v digit_isbn_char Hd).
  - apply andb_true_iff in H. destruct H as (H & Hx).
    apply andb_true_iff in H. destruct H as (Hl & Hd). apply Nat.eqb_eq in Hl.
    unfold all_decimal in Hd. apply andb_true_iff in Hd. destruct Hd as (_ & Hd).
    split; [now left|]. now apply (digits_then_char 9).
Qed.

(** Whatever [extract_isbn] returns has 10 or 13 characters, each a
    digit or the letter x in either case. *)
Lemma extract_isbn_chars (text v : string) :
  extract_isbn text = Some v ->
  (String.length v = 10 \/ String.length v = 13) /\ forallb_s isbn_char v = true.
Proof.
  intros H. apply extract_isbn_direct in H. destruct H as [H|H].
  - now apply isbn_grammar_chars.
  - apply first_pattern_found in H. destruct H as (r & o & Hin & Hs & Hc).
    injection Hc as <-. exact (isbn_pattern_group r o text Hin Hs).
Qed.

Lemma sub_go_kept (p : cclass) (s : string) :
  forallb_s (fun c => negb (cls_ok NOFLAGS p c)) s = true ->
  forall prev, sub_go NOFLAGS (Cls p) 0 prev s = s.
Proof.
  induction s as [|c s IH]; intros H prev; [reflexivity|].
  cbn in H. apply andb_true_iff in H. destruct H as (Hc & Hs).
  apply negb_true_iff in Hc.
  cbn [sub_go]. unfold match_len, match_here. cbn [run]. rewrite Hc.
  now rewrite IH.
Qed.

Lemma length_upper_isbn (v : string) :
  forallb_s isbn_char v = true -> String.length (upper v) = String.length v.
Proof.
  induction v as [|c v IH]; [reflexivity|]. cbn [forallb_s upper].
  intros H. apply andb_true_iff in H. destruct H as (Hc & Hv).
  rewrite (isbn_char_upper c Hc). cbn [append String.length]. now rewrite IH.
Qed.

Lemma isbn_chars_clean (v : string) :
  forallb_s isbn_char v = true ->
  sub_empty not_isbn_char (upper v) NOFLAGS = upper v.
Proof.
  intros H. unfold sub_empty, not_isbn_char. apply sub_go_kept.
  induction v as [|c v IH]; [reflexivity|].
  cbn in H. apply andb_true_iff in H. destruct H as (Hc & Hv).
  cbn [upper]. rewrite (isbn_char_upper c Hc). cbn [append forallb_s].
  rewrite (isbn_char_kept c Hc). cbn [negb andb]. now apply IH.
Qed.

Lemma split_colon_id (t : CitationType) (v : string) :
  split_colon (value t ++ ":" ++ v) = (value t, v).
Proof. destruct t; reflexivity. Qed.

(** The rule [validate_manubot_id] applies to an id built from a
    citation type. *)
Lemma validate_id_of (urlparse : string -> option (string * string))
    (t : CitationType) (v : string) :
  More.validate_manubot_id urlparse (value t ++ ":" ++ v)
  = match t with
    | DOI => validate_doi v
    | PMID => isdigit v && ((7 <=? String.length v) && (String.length v <=? 8))
    | PMCID => startswith "PMC" v && isdigit (drop 3 v)
    | ARXIV => arxiv_valid v
    | ISBN =>
        (String.length (sub_empty not_isbn_char (upper v) NOFLAGS) =? 10)
        || (String.length (sub_empty not_isbn_char (upper v) NOFLAGS) =? 13)
    | URL => validate_url urlparse v
    | WIKIDATA => false
    | RAW => negb (is_empty (strip v))
    end.
Proof. destruct t; reflexivity. Qed.

Lemma lower_value (t : CitationType) : lower (value t) = value t.
Proof. destruct t; reflexivity. Qed.

(** X14. The id of a citation built by [convert_entry] is the one
    [create_manubot_id] gives for its type and identifier, and
    [validate_manubot_id] of utils.py accepts it, in every family, the
    unchecked ISBN fallback included; the only ids it rejects are raw
    ids whose key is white space only. *)
Theorem built_ids_validate (clean_bibtex_field : string -> string)
    (urlparse : string -> option (string * string)) (priority : list string)
    (entry : BibTeXEntry.t) (c : ManubotCitation.t) :
  ConversionResult.manubot_citation
    (convert_entry clean_bibtex_field urlparse priority entry) = Some c ->
  ManubotCitation.id c
  = create_manubot_id (value (ManubotCitation.citation_type c))
      (ManubotCitation.identifier c)
  /\ (ManubotCitation.citation_type c <> RAW ->
      More.validate_manubot_id urlparse (ManubotCitation.id c) = true)
  /\ (ManubotCitation.citation_type c = RAW ->
      ManubotCitation.identifier c = BibTeXEntry.key entry
      /\ More.validate_manubot_id urlparse (ManubotCitation.id c)
         = negb (is_empty (strip (BibTeXEntry.key entry)))).
Proof.
  intros H. apply IdFacts.convert_entry_citation in H.
  destruct H as (Hbest & Hid & _).
  unfold create_manubot_id. rewrite lower_value, Hid, validate_id_of.
  split; [reflexivity|].
  set (t := ManubotCitation.citation_type c) in *.
  set (v := ManubotCitation.identifier c) in *.
  unfold _extract_best_identifier in Hbest.
  destruct (priority_loop urlparse entry priority) as [[t' v']|] eqn:Ep.
  - injection Hbest as -> ->.
    apply priority_loop_first in Ep.
    destruct Ep as (before & family & after & _ & _ & Hf).
    apply try_identifier_cases in Hf.
    destruct Hf as [(_ & -> & Hy)|[(_ & -> & Hy)|[(_ & -> & Hy)|[(_ & -> & Hy)
                   |[(_ & -> & Hy)|(_ & -> & Hy)]]]]];
      destruct Hy as (raw & _ & _ & Hx & _);
      (split; [intros _|discriminate]).
    + now apply extract_doi_checked in Hx.
    + apply extract_pmid_checked in Hx. destruct Hx as (Hd & H7 & H8).
      apply Nat.leb_le in H7. apply Nat.leb_le in H8.
      now rewrite (decimal_isdigit _ Hd), H7, H8.
    + apply extract_pmcid_checked in Hx. destruct Hx as (-> & Hd).
      now rewrite (decimal_isdigit _ Hd).
    + now apply extract_arxiv_id_checked in Hx.
    + apply extract_isbn_chars in Hx. destruct Hx as (Hl & Hc).
      rewrite (isbn_chars_clean v Hc), (length_upper_isbn v Hc).
      destruct Hl as [-> | ->]; reflexivity.
    + unfold url_check in Hx. destruct (validate_url urlparse raw) eqn:E; [|discriminate].
      injection Hx as <-. exact E.
  - destruct (is_empty (BibTeXEntry.key entry)); [discriminate|].
    injection Hbest as <- <-.
    split; [intros Hn; now contradiction Hn|]. intros _. auto.
Qed.

Lemma built_ids_validate_witness :
  exists c,
    ConversionResult.manubot_citation
      (convert_entry Samples.clean_bibtex_field Samples.urlparse
         default_citation_priority Samples.both_ids) = Some c
    /\ More.validate_manubot_id Samples.urlparse (ManubotCitation.id c) = true.
Proof.
  eexists. split; [vm_compute; reflexivity|].
  match goal with
  | |- More.validate_manubot_id _ (ManubotCitation.id ?c) = true =>
      destruct (built_ids_validate Samples.clean_bibtex_field Samples.urlparse
                  default_citation_priority Samples.both_ids c) as (_ & H & _)
  end.
  - vm_compute. reflexivity.
  - apply H. vm_compute. discriminate.
Defined.

(** *** The ISBN returned, up to the case of its check letter *)

Lemma digit_978 (c : ascii) :
  chr_ok IGNORECASE "9" c || chr_ok IGNORECASE "7" c || chr_ok IGNORECASE "8" c = true ->
  is_digit c = true.
Proof.
  destruct c as [[] [] [] [] [] [] [] []]; vm_compute; intros H;
    (reflexivity || discriminate H).
Qed.

Lemma upper_isbn_char (c : ascii) :
  isbn_char c = true -> is_digit (upper_char c) || is_X (upper_char c) = true.
Proof.
  destruct c as [[] [] [] [] [] [] [] []]; vm_compute; intros H;
    (reflexivity || discriminate H).
Qed.

Lemma char_at_sapp (a b : string) (c : ascii) :
  char_at (String.length a) (a ++ String c b) = Some c.
Proof. unfold char_at. induction a as [|x a IH]; [reflexivity | exact IH]. Qed.

Lemma digits_all_decimal (s : string) :
  forallb_s is_digit s = true -> 1 <= String.length s -> all_decimal s = true.
Proof.
  intros H Hl. unfold all_decimal. rewrite H. destruct s; [simpl in Hl; lia | reflexivity].
Qed.

Lemma isbn13_digits (m : string) :
  matches_text IGNORECASE isbn13_body m ->
  String.length m = 13 /\ forallb_s is_digit m = true.
Proof.
  cbn. intros (m1 & m2 & -> & H1 & H2 & Hlo & Hhi).
  destruct m1 as [|a [|b [|c [|]]]]; cbn [lit_text] in H1; try tauto.
  destruct H1 as (Ha & Hb & Hc & _).
  change (chr_ok IGNORECASE "9" a = true) in Ha.
  change (chr_ok IGNORECASE "7" b = true) in Hb.
  change (chr_ok IGNORECASE "8" c = true) in Hc.
  cbn [String.append String.length forallb_s].
  rewrite (digit_978 a), (digit_978 b), (digit_978 c)
    by (rewrite ?Ha, ?Hb, ?Hc, ?orb_true_r; reflexivity).
  rewrite (forallb_s_impl _ _ m2 digit_class H2).
  split; [lia | reflexivity].
Qed.

Lemma isbn10_parts (m : string) :
  matches_text IGNORECASE isbn10_body m ->
  exists digits c, m = (digits ++ String c "")%string /\ String.length digits = 9
                   /\ forallb_s is_digit digits = true /\ isbn_char c = true.
Proof.
  cbn. intros (m1 & m2 & -> & (H1 & Hlo & Hhi) & c & -> & Hc).
  exists m1, c. split; [reflexivity|]. split; [lia|].
  split; [exact (forallb_s_impl _ _ m1 digit_class H1) | now apply cls_ok_digit_or_X].
Qed.

Lemma isbn_group_grammar (r : regex) (o : outcome) (subject : string) :
  In r isbn_patterns -> search r subject IGNORECASE = Some o ->
  isbn_grammar (upper (group1 o)) = true.
Proof.
  intros Hin Hs. unfold search in Hs. apply search_go_sound in Hs.
  destruct Hs as (_ & _ & _ & _ & Hc). unfold group1.
  assert (H13 : forall m, matches_text IGNORECASE isbn13_body m ->
                          isbn_grammar (upper m) = true).
  { intros m Hm. apply isbn13_digits in Hm. destruct Hm as (Hl & Hd).
    rewrite (upper_digits m Hd). unfold isbn_grammar.
    rewrite Hl, (digits_all_decimal m Hd) by lia. reflexivity. }
  assert (H10 : forall m, matches_text IGNORECASE isbn10_body m ->
                          isbn_grammar (upper m) = true).
  { intros m Hm. apply isbn10_parts in Hm.
    destruct Hm as (digits & c & -> & Hl & Hd & Hc').
    assert (Eu : upper (String c "") = String (upper_char c) "")
      by (cbn [upper]; now rewrite (isbn_char_upper c Hc')).
    rewrite upper_sapp, (upper_digits digits Hd), Eu.
    assert (Et : take 9 (digits ++ String (upper_char c) "") = digits)
      by (rewrite <- Hl; apply take_sapp).
    assert (Ec : decimal_or_X_at 9 (digits ++ String (upper_char c) "") = true).
    { unfold decimal_or_X_at. rewrite <- Hl, char_at_sapp. now apply upper_isbn_char. }
    assert (El : String.length (digits ++ String (upper_char c) "") = 10)
      by (rewrite length_sapp, Hl; reflexivity).
    unfold isbn_grammar. rewrite El, Et, Ec, (digits_all_decimal digits Hd) by lia.
    reflexivity. }
  cbn in Hin. destruct Hin as [<-|[<-|[<-|[<-|[]]]]]; cbn [seq captures] in Hc.
  - destruct Hc as (c1 & _ & c2 & _ & c3 & _ & m & -> & Hm). now apply H13.
  - destruct Hc as (c1 & _ & c2 & _ & c3 & _ & m & -> & Hm). now apply H10.
  - destruct Hc as (m & -> & Hm). now apply H13.
  - destruct Hc as (m & -> & Hm). now apply H10.
Qed.

Lemma digits_then_X (n : nat) (v : string) :
  forallb_s is_digit (take n v) = true -> decimal_or_X_at n v = true ->
  String.length v = S n -> forallb_s (either is_digit is_X) v = true.
Proof.
  revert v. induction n as [|n IH]; intros v Ht Hc Hl.
  - destruct v as [|c [|]]; try discriminate. unfold decimal_or_X_at in Hc. cbn in Hc.
    cbn [forallb_s]. unfold either. now rewrite Hc.
  - destruct v as [|c v]; [discriminate|]. cbn in Ht. apply andb_true_iff in Ht.
    destruct Ht as (Hd & Ht). cbn [forallb_s]. unfold either at 1. rewrite Hd.
    cbn [orb andb]. apply IH; auto.
Qed.

Lemma grammar_chars (w : string) :
  isbn_grammar w = true -> forallb_s (either is_digit is_X) w = true.
Proof.
  unfold isbn_grammar. intros H. apply orb_true_iff in H. destruct H as [H|H].
  - apply andb_true_iff in H. destruct H as (_ & Hd).
    unfold all_decimal in Hd. apply andb_true_iff in Hd. destruct Hd as (_ & Hd).
    apply (forallb_s_impl is_digit); [|exact Hd].
    intros c Hc. unfold either. now rewrite Hc.
  - apply andb_true_iff in H. destruct H as (H & Hx).
    apply andb_true_iff in H. destruct H as (Hl & Hd). apply Nat.eqb_eq in Hl.
    unfold all_decimal in Hd. apply andb_true_iff in Hd. destruct Hd as (_ & Hd).
    now apply (digits_then_X 9).
Qed.

Lemma upper_digit_or_X (c : ascii) :
  either is_digit is_X c = true -> upper_text c = String c "".
Proof.
  destruct c as [[] [] [] [] [] [] [] []]; vm_compute; intros H;
    (reflexivity || discriminate H).
Qed.

Lemma grammar_upper (w : string) : isbn_grammar w = true -> upper w = w.
Proof.
  intros H. apply grammar_chars in H.
  induction w as [|c w IH]; [reflexivity|]. cbn [forallb_s upper] in *.
  apply andb_true_iff in H. destruct H as (Hc & Hw).
  now rewrite (upper_digit_or_X c Hc), IH.
Qed.

(** A text that is an ISBN once upper-cased is returned upper-cased,
    by the direct test. *)
Lemma extract_isbn_grammar (v : string) :
  isbn_grammar (upper v) = true -> extract_isbn v = Some (upper v).
Proof.
  intros H. unfold extract_isbn.
  assert (Hne : is_empty v = false).
  { destruct v; [discriminate H | reflexivity]. }
  rewrite Hne.
  assert (Hclean : sub_empty not_isbn_char (upper v) NOFLAGS = upper v).
  { unfold sub_empty, not_isbn_char. apply sub_go_kept.
    apply (forallb_s_impl (either is_digit is_X)); [|now apply grammar_chars].
    intros c Hc. unfold cls_ok, ncls. cbn. now rewrite Hc. }
  rewrite Hclean. unfold isbn_grammar in H.
  apply orb_true_iff in H. destruct H as [H|H].
  - apply andb_true_iff in H. destruct H as (-> & Hd).
    now rewrite (decimal_isdigit _ Hd).
  - apply andb_true_iff in H. destruct H as (H & Hx).
    apply andb_true_iff in H. destruct H as (-> & Hd).
    rewrite (decimal_isdigit _ Hd), (decimal_or_X_digit _ _ Hx).
    destruct ((String.length (upper v) =? 13) && isdigit (upper v)); reflexivity.
Qed.

(** X21. Whatever [extract_isbn] returns is an ISBN once upper-cased
    (13 digits, or 9 digits and a digit or X), the unchecked fallback
    included; applied to its own result it returns that result
    upper-cased, and from then on the same value. *)
Theorem isbn_normal_form (text v : string) :
  extract_isbn text = Some v ->
  isbn_grammar (upper v) = true
  /\ extract_isbn v = Some (upper v)
  /\ extract_isbn (upper v) = Some (upper v).
Proof.
  intros H.
  assert (Hg : isbn_grammar (upper v) = true).
  { apply extract_isbn_direct in H. destruct H as [H|H].
    - now rewrite (grammar_upper v H).
    - apply first_pattern_found in H. destruct H as (r & o & Hin & Hs & Hc).
      injection Hc as <-. exact (isbn_group_grammar r o text Hin Hs). }
  split; [exact Hg|]. split; [now apply extract_isbn_grammar|].
  rewrite <- (grammar_upper (upper v) Hg) at 2.
  apply extract_isbn_grammar. now rewrite (grammar_upper (upper v) Hg).
Qed.

Lemma isbn_normal_form_witness :
  extract_isbn "123456789x" = Some "123456789X".
Proof.
  destruct (isbn_normal_form "ISBN: 123456789x (pbk), vol 2" "123456789x") as (_ & H & _).
  - vm_compute. reflexivity.
  - exact H.
Defined.

(** *** A PMID is returned as it is *)

Lemma digit_not_space (c : ascii) : is_digit c = true -> is_space c = false.
Proof.
  destruct c as [[] [] [] [] [] [] [] []]; vm_compute; intros H;
    (reflexivity || discriminate H).
Qed.

Lemma digit_is_class (c : ascii) : is_digit c = true -> cls_ok IGNORECASE d c = true.
Proof.
  destruct c as [[] [] [] [] [] [] [] []]; vm_compute; intros H;
    (reflexivity || discriminate H).
Qed.

Lemma letter_p_not_digit (c : ascii) :
  chr_ok IGNORECASE "p" c = true -> is_digit c = false.
Proof.
  destruct c as [[] [] [] [] [] [] [] []]; vm_compute; intros H;
    (reflexivity || discriminate H).
Qed.

Lemma strip_digits (s : string) : forallb_s is_digit s = true -> strip s = s.
Proof.
  intros H. unfold strip.
  assert (Hl : lstrip s = s).
  { destruct s as [|c s]; [reflexivity|]. cbn [forallb_s] in H.
    apply andb_true_iff in H. destruct H as (Hc & _).
    cbn [lstrip]. now rewrite (digit_not_space c Hc). }
  rewrite Hl. induction s as [|c s IH]; [reflexivity|].
  cbn [forallb_s] in H. apply andb_true_iff in H. destruct H as (Hc & Hs).
  cbn [rstrip]. rewrite (digit_not_space c Hc), andb_false_r.
  f_equal. apply IH; [exact Hs|].
  destruct s as [|c' s]; [reflexivity|]. cbn [forallb_s] in Hs.
  apply andb_true_iff in Hs. destruct Hs as (Hc' & _).
  cbn [lstrip]. now rewrite (digit_not_space c' Hc').
Qed.

(** A pattern whose matches all hold a character of [p] is not found
    in a text without one. *)
Lemma search_needs (fl : flags) (r : regex) (p : ascii -> bool) (s : string) :
  (forall m, matches_text fl r m -> existsb_s p m = true) ->
  existsb_s p s = false -> search r s fl = None.
Proof.
  intros Hr Hs. unfold search.
  destruct (search_go fl r None s) as [o|] eqn:E; [|reflexivity].
  exfalso. apply search_go_sound in E. destruct E as (before & m & E & Hm & _).
  apply Hr in Hm. rewrite E, !existsb_sapp, Hm, orb_true_r in Hs. discriminate.
Qed.

Lemma starts_with_p (l rest : string) (r : regex) (m : string) :
  matches_text IGNORECASE (Cat (Lit (String "p" l)) r) m ->
  existsb_s (fun c => negb (is_digit c)) m = true.
Proof.
  cbn [matches_text]. intros (m1 & m2 & -> & H1 & _).
  destruct m1 as [|c m1]; cbn [lit_text] in H1; [destruct H1|].
  destruct H1 as (Hc & _). cbn [String.append existsb_s].
  now rewrite (letter_p_not_digit c Hc).
Qed.

Lemma not_digit_none (s : string) :
  forallb_s is_digit s = true -> existsb_s (fun c => negb (is_digit c)) s = false.
Proof.
  induction s as [|c s IH]; [reflexivity|]. cbn [forallb_s existsb_s].
  intros H. apply andb_true_iff in H. destruct H as (Hc & Hs).
  now rewrite Hc, IH.
Qed.

(** A bounded greedy repetition over a text made of the class, short
    enough and long enough, takes all of it. *)
Lemma rep_go_full (fl : flags) (p : cclass) (lo h : nat) (w : string)
    (cap : option string) (k : kont) (o : outcome) :
  forallb_s (cls_ok fl p) w = true ->
  (forall prev, k prev EmptyString cap = Some o) ->
  forall n prev, n + String.length w <= h -> lo <= n + String.length w ->
    rep_go fl p lo (Some h) n prev w cap k = Some o.
Proof.
  intros Hw Hk. induction w as [|c w IH]; intros n prev Hh Hlo; cbn [rep_go].
  - cbn [String.length] in Hlo. rewrite Nat.add_0_r in Hlo.
    apply Nat.leb_le in Hlo. now rewrite Hlo.
  - cbn [forallb_s] in Hw. apply andb_true_iff in Hw. destruct Hw as (Hc & Hw).
    cbn [String.length] in Hh, Hlo. rewrite Hc. unfold below.
    assert (Hb : (n <? h) = true) by (apply Nat.ltb_lt; lia).
    rewrite Hb. cbn [andb].
    rewrite (IH Hw (S n) (Some c)) by lia. reflexivity.
Qed.

Lemma take_all (s : string) : take (String.length s) s = s.
Proof. induction s as [|c s IH]; [reflexivity|]. cbn. now rewrite IH. Qed.

(** X22. A text of 7 or 8 digits is returned by [extract_pmid] as it
    is; so [extract_pmid] returns its own results unchanged. *)
Theorem pmid_round_trip (text v : string) :
  (pmid_grammar v = true -> extract_pmid v = Some v)
  /\ (extract_pmid text = Some v -> extract_pmid v = Some v).
Proof.
  assert (Hfix : pmid_grammar v = true -> extract_pmid v = Some v).
  { intros Hg. pose proof Hg as Hg'. unfold pmid_grammar in Hg'.
    apply andb_true_iff in Hg'. destruct Hg' as (Hg' & H8).
    apply andb_true_iff in Hg'. destruct Hg' as (Hd & H7).
    apply Nat.leb_le in H7. apply Nat.leb_le in H8.
    pose proof (decimal_isdigit v Hd) as Hi.
    unfold all_decimal in Hd. apply andb_true_iff in Hd. destruct Hd as (Hne & Hd).
    apply negb_true_iff in Hne.
    unfold extract_pmid. rewrite Hne, (strip_digits v Hd).
    pose proof (not_digit_none v Hd) as Hnone.
    unfold pmid_patterns. cbn [first_pattern].
    assert (Hp : forall l r,
               search (Cat (Lit (String "p" l)) r) v IGNORECASE = None).
    { intros l r. apply (search_needs _ _ (fun c => negb (is_digit c))); [|exact Hnone].
      intros m. apply (starts_with_p l EmptyString). }
    cbn [seq]. rewrite !Hp.
    assert (Hs : search (Cat Bol (Cat (Grp (Rep d 7 (Some 8))) Eol)) v IGNORECASE
                 = Some (EmptyString, Some v)).
    { unfold search. destruct v as [|c v']; [discriminate Hne|].
      cbn [search_go]. unfold match_here. cbn [run].
      set (s := String c v') in *.
      rewrite (rep_go_full IGNORECASE d 7 8 s None _ (EmptyString, Some s)).
      - reflexivity.
      - exact (forallb_s_impl _ _ s digit_is_class Hd).
      - intros prev. cbn [run at_eol String.length]. rewrite Nat.sub_0_r, take_all.
        reflexivity.
      - cbn [Nat.add]. exact H8.
      - cbn [Nat.add]. exact H7. }
    rewrite Hs. cbn [group1 snd]. rewrite Hi.
    apply Nat.leb_le in H7. apply Nat.leb_le in H8. now rewrite H7, H8. }
  split; [exact Hfix|].
  intros H. apply Hfix. apply ExtractorFacts.extract_pmid_checked in H.
  destruct H as (Hd & H7 & H8). unfold pmid_grammar.
  apply Nat.leb_le in H7. apply Nat.leb_le in H8. now rewrite Hd, H7, H8.
Qed.

Lemma pmid_round_trip_witness :
  extract_pmid "12345678" = Some "12345678".
Proof.
  destruct (pmid_round_trip "PMID: 12345678" "12345678") as (_ & H).
  apply H. vm_compute. reflexivity.
Defined.

End IdentifierFacts.

(* ================================================================== *)
(** ** utils.py: ids, pages and author names *)
(* ================================================================== *)

Module UtilsFacts.
Import Py Re Utils Models Converter Spec More MoreSpec.
Import StringFacts EngineFacts.

Lemma lower_char_colon (c : ascii) :
  Ascii.eqb (lower_char c) ":" = Ascii.eqb c ":".
Proof. destruct c as [[] [] [] [] [] [] [] []]; vm_compute; reflexivity. Qed.

Lemma split_colon_created (t v : string) :
  contains_char ":" t = false ->
  split_colon (lower t ++ ":" ++ v) = (lower t, v).
Proof.
  unfold contains_char, lower. induction t as [|c t IH]; intros H; [reflexivity|].
  cbn [existsb_s] in H. apply orb_false_iff in H. destruct H as (Hc & Ht).
  specialize (IH Ht). cbn [smap String.append split_colon] in IH |- *.
  rewrite lower_char_colon, (Ascii.eqb_sym c ":"), Hc, IH. reflexivity.
Qed.

(** X15. An id made by [create_manubot_id] from a type name without a
    colon splits back into the lower-cased type name and the
    identifier, colons in the identifier included; and
    [validate_manubot_id] accepts no id without a colon and no id of a
    type other than doi, pmid, pmcid, arxiv, isbn, url and raw. *)
Theorem manubot_id_round_trip (urlparse : string -> option (string * string))
    (citation_type identifier : string) :
  contains_char ":" citation_type = false ->
  split_colon (create_manubot_id citation_type identifier)
  = (lower citation_type, identifier)
  /\ (validate_manubot_id urlparse (create_manubot_id citation_type identifier) = true ->
      In (lower citation_type) ["doi"; "pmid"; "pmcid"; "arxiv"; "isbn"; "url"; "raw"])
  /\ (forall manubot_id,
        contains_char ":" manubot_id = false ->
        validate_manubot_id urlparse manubot_id = false).
Proof.
  intros Hc. unfold create_manubot_id.
  split; [now apply split_colon_created|]. split.
  - unfold validate_manubot_id. rewrite (split_colon_created _ _ Hc).
    destruct (is_empty (lower citation_type ++ ":" ++ identifier)
              || negb (contains_char ":" (lower citation_type ++ ":" ++ identifier)));
      [discriminate|].
    cbn [In].
    destruct (String.eqb_spec (lower citation_type) "doi") as [->|_]; [auto|].
    destruct (String.eqb_spec (lower citation_type) "pmid") as [->|_]; [auto|].
    destruct (String.eqb_spec (lower citation_type) "pmcid") as [->|_]; [auto|].
    destruct (String.eqb_spec (lower citation_type) "arxiv") as [->|_]; [auto 6|].
    destruct (String.eqb_spec (lower citation_type) "isbn") as [->|_]; [auto 7|].
    destruct (String.eqb_spec (lower citation_type) "url") as [->|_]; [auto 8|].
    destruct (String.eqb_spec (lower citation_type) "raw") as [->|_]; [auto 9|].
    discriminate.
  - intros manubot_id Hn. unfold validate_manubot_id. rewrite Hn. cbn [negb].
    now rewrite orb_true_r.
Qed.

Lemma manubot_id_round_trip_witness :
  split_colon (create_manubot_id "DOI" "10.1234/a:b") = ("doi", "10.1234/a:b").
Proof.
  destruct (manubot_id_round_trip Samples.urlparse "DOI" "10.1234/a:b") as (H & _).
  - reflexivity.
  - exact H.
Defined.

(** *** Pages *)

Lemma sub_with_nonempty (fl : flags) (r : regex) (repl : string) (prev : option ascii)
    (s : string) :
  is_empty repl = false -> is_empty s = false ->
  is_empty (sub_with_go fl r repl 0 prev s) = false.
Proof.
  intros Hr Hs. destruct s as [|c s]; [discriminate|]. cbn [sub_with_go].
  destruct (match_len fl r prev (String c s)) as [[|n]|]; try reflexivity.
  destruct repl; [discriminate | reflexivity].
Qed.

(** A pattern whose matches all need a character of [p] leaves a text
    without such a character as it is. *)
Lemma sub_with_unchanged (fl : flags) (r : regex) (repl : string) (p : ascii -> bool) :
  (forall m, matches_text fl r m -> existsb_s p m = true) ->
  forall s prev, existsb_s p s = false -> sub_with_go fl r repl 0 prev s = s.
Proof.
  intros Hr. induction s as [|c s IH]; intros prev Hs; [reflexivity|].
  cbn [sub_with_go]. unfold match_len.
  destruct (match_here fl r prev (String c s)) as [[rest cap]|] eqn:E.
  - exfalso. apply match_here_sound in E. destruct E as (m & E & Hm & _).
    apply Hr in Hm. rewrite E, existsb_sapp, Hm in Hs. discriminate.
  - cbn [existsb_s] in Hs. apply orb_false_iff in Hs. destruct Hs as (_ & Hs).
    now rewrite IH.
Qed.

Lemma lit_hyphen (fl : flags) (m : string) :
  lit_text fl "-" m -> existsb_s (Ascii.eqb "-") m = true.
Proof.
  destruct m as [|c [|]]; cbn [lit_text]; try tauto.
  intros (H & _). cbn [existsb_s]. apply orb_true_iff. left.
  destruct fl; [|exact H].
  revert H. destruct c as [[] [] [] [] [] [] [] []]; vm_compute; intros H;
    (reflexivity || discriminate H).
Qed.

Lemma double_hyphen_needs (m : string) :
  matches_text NOFLAGS double_hyphen m -> existsb_s (Ascii.eqb "-") m = true.
Proof.
  cbn [double_hyphen seq matches_text]. intros (m1 & m2 & -> & H1 & _).
  rewrite existsb_sapp, (lit_hyphen _ _ H1). reflexivity.
Qed.

Lemma spaced_hyphen_needs (m : string) :
  matches_text NOFLAGS spaced_hyphen m -> existsb_s (Ascii.eqb "-") m = true.
Proof.
  cbn [spaced_hyphen seq matches_text].
  intros (m1 & m' & -> & _ & m2 & m3 & -> & H2 & _).
  rewrite !existsb_sapp, (lit_hyphen _ _ H2). now rewrite orb_true_r.
Qed.

Lemma existsb_lstrip (p : ascii -> bool) (s : string) :
  existsb_s p s = false -> existsb_s p (lstrip s) = false.
Proof.
  induction s as [|c s IH]; [reflexivity|]. cbn [lstrip existsb_s].
  intros H. apply orb_false_iff in H. destruct H as (Hc & Hs).
  destruct (is_space c); [now apply IH|]. cbn [existsb_s]. now rewrite Hc, Hs.
Qed.

Lemma existsb_rstrip (p : ascii -> bool) (s : string) :
  existsb_s p s = false -> existsb_s p (rstrip s) = false.
Proof.
  induction s as [|c s IH]; [reflexivity|]. cbn [rstrip existsb_s].
  intros H. apply orb_false_iff in H. destruct H as (Hc & Hs).
  destruct (is_empty (rstrip s) && is_space c); [reflexivity|].
  cbn [existsb_s]. now rewrite Hc, IH.
Qed.

(** X16. [format_pages] returns [None] exactly for a text that is
    empty or white space only, and a text without a hyphen is returned
    trimmed and otherwise unchanged. *)
Theorem format_pages_edges (pages_str : string) :
  (format_pages pages_str = None <-> is_empty (strip pages_str) = true)
  /\ (contains_char "-" pages_str = false ->
      is_empty (strip pages_str) = false ->
      format_pages pages_str = Some (strip pages_str)).
Proof.
  unfold format_pages, sub_with. split.
  - destruct pages_str as [|c s]; [split; reflexivity|]. cbn [is_empty].
    destruct (is_empty (strip (String c s))) eqn:E.
    + destruct (strip (String c s)); [split; reflexivity | discriminate].
    + assert (H1 : is_empty (sub_with_go NOFLAGS double_hyphen "-" 0 None
                               (strip (String c s))) = false)
        by (apply sub_with_nonempty; [reflexivity | exact E]).
      rewrite (sub_with_nonempty NOFLAGS spaced_hyphen "-" None _ eq_refl H1).
      split; discriminate.
  - intros Hh Hs. destruct pages_str as [|c s]; [discriminate|]. cbn [is_empty].
    assert (Hn : existsb_s (Ascii.eqb "-") (strip (String c s)) = false)
      by (unfold strip; now apply existsb_rstrip, existsb_lstrip).
    rewrite (sub_with_unchanged _ _ _ _ double_hyphen_needs _ _ Hn).
    rewrite (sub_with_unchanged _ _ _ _ spaced_hyphen_needs _ _ Hn).
    now rewrite Hs.
Qed.

Lemma format_pages_edges_witness :
  format_pages " 123 " = Some "123".
Proof.
  destruct (format_pages_edges " 123 ") as (_ & H).
  apply H; reflexivity.
Defined.

(** *** Author names *)

Lemma existsb_rev_string (p : ascii -> bool) (acc : list ascii) (t : string) :
  existsb_s p (rev_string acc t) = existsb p acc || existsb_s p t.
Proof.
  revert t. induction acc as [|c acc IH]; intros t; [reflexivity|].
  cbn [rev_string existsb]. rewrite IH. cbn [existsb_s].
  destruct (p c), (existsb p acc), (existsb_s p t); reflexivity.
Qed.

Lemma rev_string_nonempty (c : ascii) (acc : list ascii) (t : string) :
  is_empty (rev_string (c :: acc) t) = false.
Proof.
  cbn [rev_string]. rewrite rev_string_app.
  destruct (rev_string acc ""); reflexivity.
Qed.

Lemma split_ws_go_words (s : string) :
  forall cur, existsb is_space cur = false -> Forall is_name_word (split_ws_go cur s).
Proof.
  induction s as [|c s IH]; intros cur Hcur; cbn [split_ws_go].
  - destruct cur as [|a cur]; constructor; [|constructor].
    split; [apply rev_string_nonempty|].
    now rewrite existsb_rev_string, Hcur.
  - destruct (is_space c) eqn:Ec.
    + destruct cur as [|a cur]; [now apply IH|].
      constructor; [|now apply IH].
      split; [apply rev_string_nonempty|].
      now rewrite existsb_rev_string, Hcur.
    + apply IH. cbn [existsb]. now rewrite Ec, Hcur.
Qed.

Lemma normalize_one_shape (author n : string) :
  normalize_one author = Some n ->
  exists words, words <> [] /\ Forall is_name_word words
                /\ n = String.concat " " words.
Proof.
  unfold normalize_one. destruct (is_empty (strip author)); [discriminate|].
  set (x := strip_suffixes suffixes (reorder_name (strip author))).
  destruct (is_empty (squeeze x)) eqn:E; [discriminate|].
  intros H. injection H as <-. exists (split_ws x).
  split; [|split; [now apply split_ws_go_words | reflexivity]].
  intros Hnil. unfold squeeze in E. rewrite Hnil in E. discriminate.
Qed.

Lemma normalize_loop_acc (authors acc : list string) :
  normalize_loop authors acc = acc ++ normalize_loop authors [].
Proof.
  revert acc. induction authors as [|a rest IH]; intros acc; cbn [normalize_loop].
  - now rewrite app_nil_r.
  - destruct (normalize_one a) as [n|]; [|apply IH].
    rewrite (IH (acc ++ [n])), (IH ([] ++ [n])), <- app_assoc. reflexivity.
Qed.

Lemma normalize_cons (a : string) (rest : list string) :
  normalize_author_names (a :: rest)
  = match normalize_one a with
    | Some n => n :: normalize_author_names rest
    | None => normalize_author_names rest
    end.
Proof.
  unfold normalize_author_names. cbn [normalize_loop].
  destruct (normalize_one a) as [n|]; [|reflexivity].
  now rewrite normalize_loop_acc.
Qed.

(** X17. Every name [normalize_author_names] returns is a non-empty
    sequence of words joined by single spaces, with no other white
    space; names are treated one by one, in order, so the result for a
    concatenation is the concatenation of the results and is never
    longer than the input; a name that is empty or white space only
    gives no name. *)
Theorem normalized_names (authors more : list string) :
  Forall (fun n => exists words, words <> [] /\ Forall is_name_word words
                                 /\ n = String.concat " " words)
         (normalize_author_names authors)
  /\ normalize_author_names (authors ++ more)
     = normalize_author_names authors ++ normalize_author_names more
  /\ List.length (normalize_author_names authors) <= List.length authors
  /\ (forall a, is_empty (strip a) = true ->
                normalize_author_names (a :: authors) = normalize_author_names authors).
Proof.
  split; [|split; [|split]].
  - induction authors as [|a rest IH]; [constructor|].
    rewrite normalize_cons. destruct (normalize_one a) as [n|] eqn:E; [|exact IH].
    constructor; [now apply (normalize_one_shape a) | exact IH].
  - induction authors as [|a rest IH]; [reflexivity|].
    cbn [app]. rewrite !normalize_cons, IH.
    destruct (normalize_one a); reflexivity.
  - induction authors as [|a rest IH]; [apply Nat.le_refl|].
    rewrite normalize_cons. destruct (normalize_one a); cbn [List.length]; lia.
  - intros a Ha. rewrite normalize_cons. unfold normalize_one. now rewrite Ha.
Qed.

Lemma normalized_names_witness :
  normalize_author_names ["  "; "Doe, Jane"] = normalize_author_names ["Doe, Jane"].
Proof.
  destruct (normalized_names ["Doe, Jane"] []) as (_ & _ & _ & H).
  apply H. reflexivity.
Defined.

(** *** Configuration *)

Lemma split_on_go_app (sep : ascii) (a b : string) :
  forall cur,
    split_on_go sep cur (a ++ String sep b)
    = split_on_go sep cur a ++ split_on_go sep [] b.
Proof.
  induction a as [|c a IH]; intros cur; cbn [String.append split_on_go].
  - now rewrite Ascii.eqb_refl.
  - destruct (Ascii.eqb c sep); [|apply IH].
    cbn [app]. now rewrite IH.
Qed.

Lemma split_on_go_plain (sep : ascii) (k : string) :
  forall cur, existsb_s (Ascii.eqb sep) k = false ->
              split_on_go sep cur k = [rev_string cur k].
Proof.
  induction k as [|c k IH]; intros cur H; cbn [split_on_go]; [reflexivity|].
  cbn [existsb_s] in H. apply orb_false_iff in H. destruct H as (Hc & Hk).
  rewrite (Ascii.eqb_sym c sep), Hc, (IH _ Hk). reflexivity.
Qed.

Lemma split_on_nonempty (sep : ascii) (s : string) :
  forall cur, split_on_go sep cur s <> [].
Proof.
  induction s as [|c s IH]; intros cur; cbn [split_on_go]; [discriminate|].
  destruct (Ascii.eqb c sep); [discriminate | apply IH].
Qed.

Lemma walk_app (keys1 keys2 : list string) :
  forall value,
    walk (keys1 ++ keys2) value
    = match walk keys1 value with
      | Some v => walk keys2 v
      | None => None
      end.
Proof.
  induction keys1 as [|k keys1 IH]; intros value; [reflexivity|].
  cbn [app walk]. destruct value as [| | | | |dict]; try reflexivity.
  destruct (dict_lookup k dict); [apply IH | reflexivity].
Qed.

(** X18. [Config.get] follows a dotted path one key at a time: the
    path [a.b] gives what [b] gives inside the value found at [a], and
    the default as soon as a key is missing or the value reached is not
    a mapping; a key without a dot is a plain lookup.  On the default
    configuration the converter reads the priority doi, pmid, pmcid,
    arxiv, isbn, url and writes metadata. *)
Theorem config_get_paths (config default : config_value) (a b : string) :
  config_get config (a ++ "." ++ b) default
  = match walk (split_on "." a) config with
    | Some v => config_get v b default
    | None => default
    end
  /\ (contains_char "." a = false ->
      config_get config a default
      = match config with
        | CDict dict => match dict_lookup a dict with Some v => v | None => default end
        | _ => default
        end)
  /\ config_get _get_default_config "citation_priority" default
     = CList (map CStr default_citation_priority)
  /\ config_get _get_default_config "output.include_metadata" default = CBool true.
Proof.
  split; [|split; [|split; reflexivity]].
  - unfold config_get, split_on. cbn [String.append].
    rewrite split_on_go_app, walk_app.
    destruct (walk (split_on_go "." [] a) config); reflexivity.
  - intros H. unfold config_get, split_on.
    rewrite (split_on_go_plain "." a [] H). cbn [rev_string walk].
    destruct config as [| | | | |dict]; try reflexivity.
    destruct (dict_lookup a dict); reflexivity.
Qed.

Lemma config_get_paths_witness :
  config_get _get_default_config "bibtex" CNull
  = CDict [("encoding", CStr "utf-8"); ("strict_parsing", CBool false)].
Proof.
  destruct (config_get_paths _get_default_config CNull "bibtex" "") as (_ & H & _).
  rewrite H; reflexivity.
Defined.

End UtilsFacts.

(* ================================================================== *)
(** ** From the input files to the written list *)
(* ================================================================== *)

Module OutputFacts.
Import Py Re Utils Models Converter Spec More MoreSpec.
Import PipelineFacts.

Lemma all_entries_in (input_paths : list parsed_file) (e : BibTeXEntry.t) :
  In (inl e) (all_entries_of input_paths) ->
  exists path entries, In (path, inl entries) input_paths /\ In e entries.
Proof.
  unfold all_entries_of. rewrite in_flat_map.
  intros ([path [entries|err]] & Hin & Hx); cbn [snd fst] in Hx.
  - apply in_map_iff in Hx. destruct Hx as (e' & E & He). injection E as ->.
    now exists path, entries.
  - destruct Hx as [Hx|[]]. discriminate.
Qed.

(** X19. What [save_yaml] writes for a batch comes from the entries
    of the parsed files only: every citation written is the dictionary
    of the citation built for one of these entries, never of a file
    that failed; there are never more citations written than
    conversions counted as successful, and exactly as many when
    metadata is not included. *)
Theorem written_from_entries (clean_bibtex_field : string -> string)
    (urlparse : string -> option (string * string)) (priority : list string)
    (input_paths : list parsed_file) (include_metadata : bool) :
  let b := batch_convert clean_bibtex_field urlparse priority input_paths in
  let written := save_yaml include_metadata (conversions b) in
  List.length written <= successful_conversions b
  /\ (include_metadata = false -> List.length written = successful_conversions b)
  /\ forall d, In d written ->
       exists path entries entry c,
         In (path, inl entries) input_paths /\ In entry entries
         /\ ConversionResult.manubot_citation
              (convert_entry clean_bibtex_field urlparse priority entry) = Some c
         /\ d = to_dict c include_metadata.
Proof.
  intros b written.
  pose proof (successes_have_citations clean_bibtex_field urlparse priority input_paths)
    as Hcount.
  cbn zeta in Hcount. fold b in Hcount.
  assert (Hloop : successful_loop include_metadata (conversions b) []
                  = map (fun c => to_dict c include_metadata)
                        (get_successful_citations b))
    by (unfold get_successful_citations; now rewrite successful_loop_map).
  assert (Hlen : List.length written
                 = List.length
                     (_remove_arxiv_duplicates
                        (successful_loop include_metadata (conversions b) [])
                        default_min_overlap)).
  { unfold written, save_yaml.
    apply Permutation_length, SortFacts.sort_by_perm. }
  split; [|split].
  - rewrite Hlen. unfold _remove_arxiv_duplicates.
    etransitivity; [apply filter_length_le|].
    rewrite Hloop, length_map, Hcount. apply Nat.le_refl.
  - intros ->. rewrite Hlen.
    rewrite WritingFacts.no_arxiv_no_removal.
    + now rewrite Hloop, length_map.
    + apply WritingFacts.plain_not_arxiv. intros d Hd.
      apply WritingFacts.successful_loop_plain in Hd; [tauto | intros d' []].
  - intros d Hd. unfold written, save_yaml in Hd.
    apply (Permutation_in _ (SortFacts.sort_by_perm _ sort_key _)) in Hd.
    unfold _remove_arxiv_duplicates in Hd. apply filter_In in Hd. destruct Hd as (Hd & _).
    rewrite Hloop in Hd. apply in_map_iff in Hd. destruct Hd as (c & <- & Hc).
    unfold get_successful_citations in Hc. apply in_flat_map in Hc.
    destruct Hc as (r & Hr & Hc).
    unfold b in Hr.
    rewrite (batch_conversions clean_bibtex_field urlparse priority input_paths) in Hr.
    apply in_map_iff in Hr. destruct Hr as (x & <- & Hx).
    destruct (all_entries_failed input_paths) as (_ & Hall).
    rewrite Forall_forall in Hall. specialize (Hall x Hx).
    destruct x as [e|r]; cbn [result_of] in Hc.
    + apply all_entries_in in Hx. destruct Hx as (path & entries & Hin & He).
      exists path, entries, e, c. repeat split; auto.
      destruct (ConversionResult.success _); [|destruct Hc].
      destruct (ConversionResult.manubot_citation _) as [c'|]; [|destruct Hc].
      destruct Hc as [->|[]]. reflexivity.
    + rewrite Hall in Hc. destruct Hc.
Qed.

Lemma written_from_entries_witness :
  exists d,
    In d (save_yaml true
            (conversions
               (batch_convert Samples.clean_bibtex_field Samples.urlparse
                  default_citation_priority [("refs.bib", inl [Samples.both_ids])])))
    /\ exists path entries entry c,
         In (path, inl entries)
            ([("refs.bib", inl [Samples.both_ids])] : list parsed_file)
         /\ In entry entries
         /\ ConversionResult.manubot_citation
              (convert_entry Samples.clean_bibtex_field Samples.urlparse
                 default_citation_priority entry) = Some c
         /\ d = to_dict c true.
Proof.
  eexists. split; [vm_compute; left; reflexivity|].
  destruct (written_from_entries Samples.clean_bibtex_field Samples.urlparse
              default_citation_priority [("refs.bib", inl [Samples.both_ids])] true)
    as (_ & _ & H).
  apply H. vm_compute. left. reflexivity.
Defined.

(** The two shapes of the result of [convert_entry]. *)
Lemma convert_entry_shapes (clean_bibtex_field : string -> string)
    (urlparse : string -> option (string * string)) (priority : list string)
    (entry : BibTeXEntry.t) :
  let r := convert_entry clean_bibtex_field urlparse priority entry in
  (exists c, ConversionResult.success r = true
             /\ ConversionResult.manubot_citation r = Some c
             /\ contains_char ":" (ManubotCitation.id c) = true
             /\ ConversionResult.errors r = [])
  \/ (exists e, ConversionResult.success r = false
                /\ ConversionResult.manubot_citation r = None
                /\ ConversionResult.errors r = [e]
                /\ ConversionResult.warnings r = []).
Proof.
  cbn zeta. unfold convert_entry.
  destruct (_extract_best_identifier urlparse priority entry) as [ot [v|]];
    [|right; eexists; cbn; eauto].
  destruct (is_empty v); [right; eexists; cbn; eauto|].
  destruct ot as [t|]; [|right; eexists; cbn; eauto].
  destruct (generate_publication_date _ _ _) as [date|ex];
    [|right; eexists; cbn; eauto].
  match goal with
  | |- context [new_citation ?x] =>
      destruct (IdFacts.new_citation_cases x) as [(E & Hc)|(E & _)]; rewrite E
  end.
  - left. eexists. cbn. repeat split; try reflexivity.
    apply IdFacts.contains_colon_count. exact Hc.
  - right. eexists. cbn. eauto.
Qed.

(** X20. Every result of a batch is consistent: it is marked
    successful exactly when it carries a citation, which is exactly
    when it has no error; the id it then reports contains a colon; a
    failed result has exactly one error and no warning. *)
Theorem batch_results_consistent (clean_bibtex_field : string -> string)
    (urlparse : string -> option (string * string)) (priority : list string)
    (input_paths : list parsed_file) (r : ConversionResult.t) :
  In r (conversions (batch_convert clean_bibtex_field urlparse priority input_paths)) ->
  (ConversionResult.success r = true <-> citation_id r <> None)
  /\ (ConversionResult.success r = true <-> ConversionResult.errors r = [])
  /\ (forall i, citation_id r = Some i -> contains_char ":" i = true)
  /\ (ConversionResult.success r = false ->
      ConversionResult.warnings r = [] /\ exists e, ConversionResult.errors r = [e]).
Proof.
  intros H. apply IdFacts.batch_results in H. unfold citation_id.
  destruct H as [(entry & ->)|(path & err & ->)].
  - destruct (convert_entry_shapes clean_bibtex_field urlparse priority entry)
      as [(c & E1 & E2 & E3 & E4)|(e & E1 & E2 & E3 & E4)];
      cbn zeta in *; rewrite E1, E2; cbn [option_map].
    + rewrite E4. repeat split; auto; try discriminate.
      intros i Hi. injection Hi as <-. exact E3.
    + rewrite E3, E4. repeat split; try discriminate; try congruence.
      now exists e.
  - cbn. repeat split; try discriminate; try congruence. eauto.
Qed.

Lemma batch_results_consistent_witness :
  ConversionResult.success (failed_file "broken.bib" "unexpected end of file") = true
  <-> ConversionResult.errors (failed_file "broken.bib" "unexpected end of file") = [].
Proof.
  destruct (batch_results_consistent Samples.clean_bibtex_field Samples.urlparse
              default_citation_priority
              [("broken.bib", inr "unexpected end of file")]
              (failed_file "broken.bib" "unexpected end of file")) as (_ & H & _).
  - vm_compute. now left.
  - exact H.
Defined.

End OutputFacts.
